(** * GPTQ calibration (brevitas/graph/gptq.py): model and verified properties

    The development embeds [src/brevitas/graph/gptq.py] shallowly.
    Tensors hold real numbers (exact arithmetic): a matrix is a function of
    its indices, its shape is carried by the record that owns it.  Python
    exceptions are explicit results. *)

From Stdlib Require Import String Reals Lra Lia Arith Bool List Permutation.
Import ListNotations.
Open Scope R_scope.

Set Implicit Arguments.

(* ================================================================== *)
(** * Part I: definitions *)
(* ================================================================== *)

(** ** Exceptions and results *)

Inductive exn : Type :=
| StopFwdException
| LinAlgError
| ZeroDivisionError
| RuntimeError
| IndexError
| UnboundLocalError
| AttributeError
| ValueError
| KeyError
| UserError (msg : string).

Inductive result (A : Type) : Type :=
| Returns (a : A)
| Raises (e : exn).

Arguments Returns {A} a.
Arguments Raises {A} e.

(** ** Tensor primitives (the torch operations the module relies on) *)

Module Torch.

Definition Vec := nat -> R.
Definition Mat := nat -> nat -> R.
Definition Tensor3 := nat -> Mat.
(** One sample of a convolution input, indexed [channel, y, x]. *)
Definition Image := nat -> nat -> nat -> R.

(** An activation tensor as a hook receives it.  [Tensor2D], [Tensor3D]
    and [Tensor4D] are the inputs of a forward pass the layer accepts:
    [S, F] and [B, S, F] with [F] the number of columns of a dense layer,
    and [B, C, H, W] with the channels of a convolution; a row is a function
    of its index.  The other constructors are the inputs [update_batch] can
    be called with that do not have these shapes: a vector [F], and
    [S, F] and [B, S, F] with the last dimension [width] given. *)
Inductive Tensor : Type :=
| Tensor2D (rows : list Vec)
| Tensor3D (batch : list (list Vec))
| Tensor4D (batch : list Image)
| Tensor1D (entries : list R)
| Tensor2DW (width : nat) (rows : list Vec)
| Tensor3DW (width : nat) (batch : list (list Vec)).

(** [inp.shape[0]] *)
Definition shape0 (t : Tensor) : nat :=
  match t with
  | Tensor2D m => length m
  | Tensor3D b => length b
  | Tensor4D b => length b
  | Tensor1D v => length v
  | Tensor2DW _ m => length m
  | Tensor3DW _ b => length b
  end.

(** [len(inp.shape)] *)
Definition ndim (t : Tensor) : nat :=
  match t with
  | Tensor2D _ => 2
  | Tensor3D _ => 3
  | Tensor4D _ => 4
  | Tensor1D _ => 1
  | Tensor2DW _ _ => 2
  | Tensor3DW _ _ => 3
  end.

(** [inp.unsqueeze(0)] on a two-dimensional tensor. *)
Definition unsqueeze0 (t : Tensor) : Tensor :=
  match t with
  | Tensor2D m => Tensor3D [m]
  | Tensor2DW w m => Tensor3DW w [m]
  | _ => t
  end.

(** [sum_{k < n} f k] *)
Fixpoint rsum (n : nat) (f : nat -> R) : R :=
  match n with
  | O => 0
  | S k => rsum k f + f k
  end.

Fixpoint lsum (l : list R) : R :=
  match l with
  | [] => 0
  | x :: t => x + lsum t
  end.

Definition zeros3 : Tensor3 := fun _ _ _ => 0.

(** [c * X] for a matrix given by its columns. *)
Definition scale_cols (c : R) (X : list Vec) : list Vec :=
  map (fun x i => c * x i) X.

(** [X.bmm(X.transpose(2, 1))] for one group, [X] given by its columns:
    entry [(i, j)] is [sum_m X[i, m] * X[j, m]]. *)
Definition bmm_transpose (X : list Vec) : Mat :=
  fun i j => lsum (map (fun x => x i * x j) X).

(** [torch.diag(A)] as a list of length [n]. *)
Definition diag (n : nat) (A : Mat) : list R :=
  map (fun k => A k k) (seq 0 n).

(** [torch.mean] of a one-dimensional tensor. *)
Definition mean (l : list R) : R := lsum l / INR (length l).

(** [for i in range(n): s = body(i, s)] *)
Definition for_range (S : Type) (n : nat) (body : nat -> S -> S) (s : S) : S :=
  fold_left (fun s i => body i s) (seq 0 n) s.

Definition zeros2 : Mat := fun _ _ => 0.

(** [l[a:b]] *)
Definition slice (A : Type) (a b : nat) (l : list A) : list A :=
  firstn (b - a) (skipn a l).

(** [H[i, :, :] = A] *)
Definition set_group (T : Tensor3) (i : nat) (A : Mat) : Tensor3 :=
  fun g => if (g =? i)%nat then A else T g.

(** [A[mask, mask] = v]: a boolean mask used for both indices selects the
    diagonal entries where it holds. *)
Definition set_diag_where (mask : nat -> bool) (v : R) (A : Mat) : Mat :=
  fun r c => if (r =? c)%nat && mask r then v else A r c.

(** [A[perm, :][:, perm]] *)
Definition permute2 (perm : list nat) (A : Mat) : Mat :=
  fun r c => A (nth r perm 0%nat) (nth c perm 0%nat).

(** [W[sel, idx] = V]: the columns named by [idx] are written one after the
    other, on the rows selected; [V r p] is the value for row [r] and the
    [p]-th index. *)
Definition put_cols (sel : nat -> bool) (idx : list nat)
           (V : nat -> nat -> R) (W : Mat) : Mat :=
  fold_left
    (fun (W : Mat) (p : nat) =>
       fun r c => if sel r && (c =? nth p idx 0%nat)%nat then V r p else W r c)
    (seq 0 (length idx)) W.

(** [W[sel, idx] -= D]: the old values are read, then written back. *)
Definition sub_cols (sel : nat -> bool) (idx : list nat)
           (D : nat -> nat -> R) (W : Mat) : Mat :=
  put_cols sel idx (fun r p => W r (nth p idx 0%nat) - D r p) W.

(** [torch.argsort(d, descending=True)], as an insertion sort of the
    indices.  This sort is stable; [torch.argsort] leaves the order of
    equal keys open, so nothing below is stated about the place of an
    index among indices of equal key. *)
Fixpoint insert_desc (key : nat -> R) (k : nat) (l : list nat) : list nat :=
  match l with
  | [] => [k]
  | x :: t =>
      if Rle_dec (key x) (key k) then k :: x :: t
      else x :: insert_desc key k t
  end.

Definition argsort_desc (d : list R) : list nat :=
  fold_right (insert_desc (fun k => nth k d 0)) [] (seq 0 (length d)).

(** Row [i] of the lower Cholesky factor, columns below [j], given the
    rows above in [L]. *)
Fixpoint chol_row (A L : Mat) (i j : nat) : Vec :=
  match j with
  | O => fun _ => 0
  | S j' =>
      let row := chol_row A L i j' in
      fun c =>
        if (c =? j')%nat
        then (A i j' - rsum j' (fun k => row k * L j' k)) / L j' j'
        else row c
  end.

(** The first [n] rows of the lower Cholesky factor; [None] when a pivot
    is not positive (the matrix is not positive-definite). *)
Fixpoint chol_rows (A : Mat) (n : nat) : option Mat :=
  match n with
  | O => Some zeros2
  | S i =>
      match chol_rows A i with
      | None => None
      | Some L =>
          let row := chol_row A L i i in
          let p := A i i - rsum i (fun k => row k * row k) in
          if Rlt_dec 0 p
          then Some (fun r c =>
                       if (r =? i)%nat
                       then (if (c =? i)%nat then sqrt p else row c)
                       else L r c)
          else None
      end
  end.

(** [torch.linalg.cholesky(A, upper=...)] on an [n x n] matrix; [None]
    stands for [LinAlgError]. *)
Definition cholesky (upper : bool) (n : nat) (A : Mat) : option Mat :=
  match chol_rows A n with
  | None => None
  | Some L => Some (if upper then (fun r c => L c r) else L)
  end.

(** The first [n] rows of the inverse of a lower-triangular matrix. *)
Fixpoint tri_inv (L : Mat) (n : nat) : Mat :=
  match n with
  | O => zeros2
  | S i =>
      let X := tri_inv L i in
      fun r c =>
        if (r =? i)%nat
        then (if (c =? i)%nat then / L i i
              else if (c <? i)%nat
                   then - rsum i (fun k => L i k * X k c) / L i i
                   else 0)
        else X r c
  end.

(** [torch.cholesky_inverse(L)]: the inverse of [L L^T]. *)
Definition cholesky_inverse (n : nat) (L : Mat) : Mat :=
  let X := tri_inv L n in
  fun a b => rsum n (fun k => X k a * X k b).

(** The off-diagonal entries of the leading [n x n] block are zero. *)
Definition diagonal_below (n : nat) (A : Mat) : Prop :=
  forall r c, (r < n)%nat -> (c < n)%nat -> r <> c -> A r c = 0.

End Torch.

Import Torch.

(** ** Layers *)

Inductive LayerKind : Type := QuantLinear | QuantConv2d | OtherModule.

(** A layer as GPTQ sees it.  [weight] is the weight in its [rows x columns]
    layout ([weight.flatten(1)] of a convolution is a view of the same
    storage, so writes through it are writes to the layer).
    [quant_weight] is the layer's quantizer applied to a float weight;
    [unfold_group g x] is chunk [g] of sample [x] (of [torch.chunk(inp,
    groups, 1)]) after [nn.Unfold] with the layer's kernel size, dilation,
    padding and stride: the list of its patch vectors. *)
Record Layer : Type := {
  kind : LayerKind;
  conv_groups : nat;
  out_channels : nat;
  weight_rows : nat;
  weight_cols : nat;
  weight : Mat;
  quant_weight : Mat -> Mat;
  unfold_group : nat -> Image -> list Vec
}.

(** What a forward hook receives as [input[0]]. *)
Inductive Activation : Type :=
| PlainTensor (t : Tensor)
| QuantTensor (value : Tensor).

(** [LayerHandler]: the shared cell naming the layer seen last. *)
Record LayerHandler : Type := { layer_name : option string }.

(** ** class GPTQ *)

Module Gptq.

Record GPTQ : Type := {
  layer : Layer;
  name : string;
  num_blocks : nat;
  act_order : bool;
  groups : nat;
  rows : nat;
  columns : nat;
  blocksize : nat;
  (** [None] once [del self.H] has run. *)
  H : option Tensor3;
  nsamples : nat
}.

Definition set_H (self : GPTQ) (h : option Tensor3) (n : nat) : GPTQ :=
  {| layer := layer self; name := name self; num_blocks := num_blocks self;
     act_order := act_order self; groups := groups self; rows := rows self;
     columns := columns self; blocksize := blocksize self;
     H := h; nsamples := n |}.

Definition set_layer (self : GPTQ) (l : Layer) : GPTQ :=
  {| layer := l; name := name self; num_blocks := num_blocks self;
     act_order := act_order self; groups := groups self; rows := rows self;
     columns := columns self; blocksize := blocksize self;
     H := H self; nsamples := nsamples self |}.

(** [math.ceil(a / b)] for non-negative integers, [b] not zero. *)
Definition ceil_div (a b : nat) : nat := ((a + b - 1) / b)%nat.

(** [GPTQ.__init__] *)
Definition init (l : Layer) (nm : string) (nb : nat) (ao : bool)
  : result GPTQ :=
  let g := match kind l with QuantConv2d => conv_groups l | _ => 1%nat end in
  if (nb =? 0)%nat then Raises ZeroDivisionError
  else Returns
    {| layer := l; name := nm; num_blocks := nb; act_order := ao;
       groups := g; rows := weight_rows l; columns := weight_cols l;
       blocksize := ceil_div (weight_cols l) nb;
       H := Some zeros3; nsamples := 0 |}.

(** [inp_processed] when line 213 is reached: a tensor [G, height, M]
    given per group by its columns, with its height when the input states
    it; a two-dimensional tensor [1, F] (a dense layer fed a vector); or
    no value at all (neither branch has assigned the variable). *)
Inductive Processed : Type :=
| Stacked (cols : nat -> list Vec) (height : option nat)
| Flat (entries : list R)
| Unbound.

(** The preprocessing of [update_batch] (lines 186-210).  A dense layer
    reshapes [B, S, F] to [B*S, F], transposes and adds the group axis;
    [t()] accepts a vector and refuses more than two dimensions.  A
    convolution unfolds each chunk and lays the patches of all samples side
    by side; [torch.chunk] along dimension 1 refuses a vector, and
    [permute([1, 0, 2])] what [Unfold] makes of fewer than four
    dimensions.  Another layer assigns nothing. *)
Definition preprocess (l : Layer) (inp : Tensor) : result Processed :=
  match kind l with
  | QuantLinear =>
      match inp with
      | Tensor1D v => Returns (Flat v)
      | Tensor2D m => Returns (Stacked (fun _ => m) None)
      | Tensor3D b => Returns (Stacked (fun _ => concat b) None)
      | Tensor2DW w m => Returns (Stacked (fun _ => m) (Some w))
      | Tensor3DW w b => Returns (Stacked (fun _ => concat b) (Some w))
      | Tensor4D _ => Raises RuntimeError
      end
  | QuantConv2d =>
      match inp with
      | Tensor4D b =>
          Returns (Stacked (fun g => flat_map (unfold_group l g) b) None)
      | Tensor1D _ => Raises IndexError
      | _ => Raises RuntimeError
      end
  | OtherModule => Returns Unbound
  end.

(** Lines 215-216 on [inp_processed], for an accumulator [G, n, n]: the
    columns whose Gram matrix [self.H += ...] adds, or the exception the
    two lines end with.  An unassigned variable fails at line 215;
    [transpose(2, 1)] fails on a two-dimensional tensor; a Gram matrix
    [G, w, w] is added as it is when [w = n], to every entry (broadcast)
    when [w = 1], and not at all otherwise. *)
Definition gram_cols (n : nat) (p : Processed) : result (nat -> list Vec) :=
  match p with
  | Unbound => Raises UnboundLocalError
  | Flat _ => Raises IndexError
  | Stacked P None => Returns P
  | Stacked P (Some w) =>
      if (w =? n)%nat then Returns P
      else if (w =? 1)%nat
           then Returns (fun g => map (fun x (_ : nat) => x 0%nat) (P g))
           else Raises RuntimeError
  end.

(** [GPTQ.update_batch], a forward hook.  It returns the object, the
    shared handler and how the call ended.  Line 213 reads [self.H], then
    divides, then rescales the accumulator; line 214 adds to the sample
    count; a failure of line 215 or 216 comes after both. *)
Definition update_batch (self : GPTQ) (input : Activation)
           (current_layer : LayerHandler)
  : GPTQ * LayerHandler * result unit :=
  let current_layer := {| layer_name := Some (name self) |} in
  let inp := match input with QuantTensor v => v | PlainTensor t => t end in
  let inp := if (ndim inp =? 2)%nat then unsqueeze0 inp else inp in
  let batch_size := shape0 inp in
  match preprocess (layer self) inp with
  | Raises e => (self, current_layer, Raises e)
  | Returns inp_processed =>
      match H self with
      | None => (self, current_layer, Raises AttributeError)
      | Some h =>
          if (nsamples self + batch_size =? 0)%nat
          then (self, current_layer, Raises ZeroDivisionError)
          else
            let c := INR (nsamples self) / INR (nsamples self + batch_size) in
            let h := fun g i j => h g i j * c in
            let n := (nsamples self + batch_size)%nat in
            match gram_cols (columns self) inp_processed with
            | Raises e => (set_H self (Some h) n, current_layer, Raises e)
            | Returns inp_processed =>
                let X :=
                  fun g => scale_cols (sqrt (2 / INR n)) (inp_processed g) in
                let h := fun g i j => h g i j + bmm_transpose (X g) i j in
                (set_H self (Some h) n, current_layer, Raises StopFwdException)
            end
      end
  end.

(** The object after a hook call. *)
Definition after_batch (self : GPTQ) (input : Activation) : GPTQ :=
  fst (fst (update_batch self input {| layer_name := None |})).

(** The object after a sequence of hook calls. *)
Definition after_batches (self : GPTQ) (inputs : list Activation) : GPTQ :=
  fold_left after_batch inputs self.

(** The accumulator entry [H[g, i, j]] (0 when [H] is deleted). *)
Definition acc (self : GPTQ) (g i j : nat) : R :=
  match H self with Some h => h g i j | None => 0 end.

(** The tensor a hook call works on, after unwrapping and promotion. *)
Definition hook_tensor (input : Activation) : Tensor :=
  let inp := match input with QuantTensor v => v | PlainTensor t => t end in
  if (ndim inp =? 2)%nat then unsqueeze0 inp else inp.

(** The inputs whose Gram matrix [update_batch] adds to the accumulator:
    on a dense layer [S, F] and [B, S, F] with [F] the number of columns
    (or [F = 1], which broadcasts); on a convolution [B, C, H, W]. *)
Definition accumulates (self : GPTQ) (t : Tensor) : bool :=
  match kind (layer self), t with
  | QuantLinear, Tensor2D _ => true
  | QuantLinear, Tensor3D _ => true
  | QuantLinear, Tensor2DW w _ => (w =? columns self)%nat || (w =? 1)%nat
  | QuantLinear, Tensor3DW w _ => (w =? columns self)%nat || (w =? 1)%nat
  | QuantConv2d, Tensor4D _ => true
  | _, _ => false
  end.

(** ** [single_layer_update] *)

Definition with_weight (l : Layer) (W : Mat) : Layer :=
  {| kind := kind l; conv_groups := conv_groups l;
     out_channels := out_channels l; weight_rows := weight_rows l;
     weight_cols := weight_cols l; weight := W;
     quant_weight := quant_weight l; unfold_group := unfold_group l |}.

Definition set_weight (self : GPTQ) (W : Mat) : GPTQ :=
  set_layer self (with_weight (layer self) W).

Definition default_percdamp : R := 1 / 100.

(** [dead = torch.diag(A) == 0], a mask over the [n] columns. *)
Definition dead_mask (n : nat) (A : Mat) : nat -> bool :=
  fun k => (k <? n)%nat && (if Req_dec_T (A k k) 0 then true else false).

(** The variables of the first part of [single_layer_update]: the
    accumulator, the weight, [permutation_list] and the variable [perm]. *)
Record Prepared : Type := {
  p_H : Tensor3;
  p_weight : Mat;
  permutation_list : list (list nat);
  p_perm : list nat
}.

(** The body of [for i in range(self.groups)] (taken when [groups > 1]). *)
Definition prepare_group (self : GPTQ) (i : nat) (st : Prepared) : Prepared :=
  let n := columns self in
  let dead := dead_mask n (p_H st i) in
  let h := set_group (p_H st) i (set_diag_where dead 1 (p_H st i)) in
  let W := fun r c => if (r =? i)%nat && dead c then 0 else p_weight st r c in
  if act_order self then
    let perm := argsort_desc (diag n (h i)) in
    {| p_H := set_group h i (permute2 perm (h i)); p_weight := W;
       permutation_list := permutation_list st ++ [perm]; p_perm := perm |}
  else
    let perm := seq 0 n in
    {| p_H := h; p_weight := W;
       permutation_list := permutation_list st ++ [perm]; p_perm := perm |}.

(** The [else] branch (a single group). *)
Definition prepare_single (self : GPTQ) (st : Prepared) : Prepared :=
  let n := columns self in
  let dead := dead_mask n (p_H st 0%nat) in
  let h := set_group (p_H st) 0 (set_diag_where dead 1 (p_H st 0%nat)) in
  let W := fun r c => if dead c then 0 else p_weight st r c in
  if act_order self then
    let perm := argsort_desc (diag n (h 0%nat)) in
    {| p_H := fun g => permute2 perm (h g); p_weight := W;
       permutation_list := permutation_list st ++ [perm]; p_perm := perm |}
  else
    let perm := seq 0 n in
    {| p_H := h; p_weight := W;
       permutation_list := permutation_list st ++ [perm]; p_perm := perm |}.

(** Dead channels and column order, up to the [try]. *)
Definition prepare (self : GPTQ) (h : Tensor3) : Prepared :=
  let st := {| p_H := h; p_weight := weight (layer self);
               permutation_list := []; p_perm := [] |} in
  if (1 <? groups self)%nat
  then for_range (groups self) (prepare_group self) st
  else prepare_single self st.

(** The body of the loop inside the [try], for one group: damping
    ([H[i, diag, diag] += damp]), the Cholesky factor, the inverse, the
    upper Cholesky factor of the inverse.  [None] stands for
    [LinAlgError]. *)
Definition add_damping (percdamp : R) (n : nat) (A : Mat) : Mat :=
  let damp := percdamp * mean (diag n A) in
  fun r c => if (r =? c)%nat && (r <? n)%nat then A r c + damp else A r c.

Definition invert_group (percdamp : R) (n : nat) (A : Mat) : option Mat :=
  match cholesky false n (add_damping percdamp n A) with
  | None => None
  | Some L => cholesky true n (cholesky_inverse n L)
  end.

Fixpoint invert_groups (percdamp : R) (n : nat) (gs : list nat) (h : Tensor3)
  : option Tensor3 :=
  match gs with
  | [] => Some h
  | i :: rest =>
      match invert_group percdamp n (h i) with
      | None => None
      | Some U => invert_groups percdamp n rest (set_group h i U)
      end
  end.

(** [GPTQ.get_quant_weights]; [W] is the layer's weight at the time of the
    call. *)
Definition get_quant_weights (self : GPTQ) (W : Mat) (i i1 i2 : nat)
           (pl : list (list nat)) : Vec :=
  let qw := quant_weight (layer self) W in
  let qw :=
    if act_order self then
      if (groups self =? 1)%nat
      then fun r c => qw r (nth c (nth 0 pl []) 0%nat)
      else fun r c => if (r <? length pl)%nat
                      then qw r (nth c (nth r pl []) 0%nat)
                      else qw r c
    else qw in
  fun r => qw r (i1 + i)%nat.

(** The variables of the block loop: the layer's weight, [weight_block],
    [error_block] and the variable [perm]. *)
Record LoopState : Type := {
  ls_weight : Mat;
  ls_block : Mat;
  ls_error : Mat;
  ls_perm : list nat
}.

(** The body of [for i in range(count)]. *)
Definition column_step (self : GPTQ) (h_inv : Tensor3) (pl : list (list nat))
           (i1 i2 i : nat) (st : LoopState) : LoopState :=
  let count := (i2 - i1)%nat in
  let wcol := fun r => ls_block st r i in
  let d := fun g => h_inv g (i1 + i)%nat (i1 + i)%nat in
  let q := get_quant_weights self (ls_weight st) i i1 i2 pl in
  let error := fun r => (wcol r - q r) / d (if (1 <? groups self)%nat then r else 0%nat) in
  let wb :=
    if (1 <? groups self)%nat then
      fun r c =>
        if (r <? groups self)%nat && (i <=? c)%nat && (c <? count)%nat
        then ls_block st r c - error r * h_inv r (i1 + i)%nat (i1 + c)%nat
        else ls_block st r c
    else
      fun r c =>
        if (i <=? c)%nat && (c <? count)%nat
        then ls_block st r c - error r * h_inv 0%nat (i1 + i)%nat (i1 + c)%nat
        else ls_block st r c in
  let eb := fun r c => if (c =? i)%nat then error r else ls_error st r c in
  let W := put_cols (fun _ => true) (skipn i (slice i1 i2 (ls_perm st)))
                    (fun r p => wb r (i + p)%nat) (ls_weight st) in
  {| ls_weight := W; ls_block := wb; ls_error := eb; ls_perm := ls_perm st |}.

Definition block_start (self : GPTQ) (b : nat) : nat := (b * blocksize self)%nat.
Definition block_end (self : GPTQ) (b : nat) : nat :=
  Nat.min (block_start self b + blocksize self) (columns self).

(** A block, up to its loop over columns: [weight_block] is read through
    the permutations and [error_block] is cleared. *)
Definition block_enter (self : GPTQ) (pl : list (list nat)) (b : nat)
           (st : LoopState) : LoopState :=
  let i1 := block_start self b in
  let W := ls_weight st in
  if (groups self =? 1)%nat then
    let perm := nth 0 pl [] in
    {| ls_weight := W;
       ls_block := fun r c => W r (nth (i1 + c) perm 0%nat);
       ls_error := zeros2; ls_perm := perm |}
  else
    {| ls_weight := W;
       ls_block := fun r c => if (r <? length pl)%nat
                              then W r (nth (i1 + c) (nth r pl []) 0%nat)
                              else 0;
       ls_error := zeros2; ls_perm := last pl (ls_perm st) |}.

(** The state of block [b] after [k] of its columns. *)
Definition block_columns (self : GPTQ) (h_inv : Tensor3)
           (pl : list (list nat)) (b k : nat) (st : LoopState) : LoopState :=
  for_range k (column_step self h_inv pl (block_start self b) (block_end self b))
            (block_enter self pl b st).

(** The end of a block: its errors are propagated to the columns after
    the block. *)
Definition block_finish (self : GPTQ) (h_inv : Tensor3)
           (pl : list (list nat)) (b : nat) (st : LoopState) : LoopState :=
  let i1 := block_start self b in
  let i2 := block_end self b in
  let count := (i2 - i1)%nat in
  let D := fun g r p =>
             rsum count (fun k => ls_error st r k
                                  * h_inv g (i1 + k)%nat (i2 + p)%nat) in
  if (1 <? groups self)%nat then
    {| ls_weight :=
         fold_left
           (fun W (e : nat * list nat) =>
              let (ii, perm) := e in
              sub_cols (fun r => (r =? ii)%nat) (skipn i2 perm) (D ii) W)
           (combine (seq 0 (length pl)) pl) (ls_weight st);
       ls_block := ls_block st; ls_error := ls_error st;
       ls_perm := last pl (ls_perm st) |}
  else
    let perm := nth 0 pl [] in
    {| ls_weight := sub_cols (fun _ => true) (skipn i2 perm) (D 0%nat)
                             (ls_weight st);
       ls_block := ls_block st; ls_error := ls_error st; ls_perm := perm |}.

(** The body of [for i1 in range(0, columns, blocksize)]. *)
Definition block_step (self : GPTQ) (h_inv : Tensor3) (pl : list (list nat))
           (b : nat) (st : LoopState) : LoopState :=
  block_finish self h_inv pl b
    (block_columns self h_inv pl b (block_end self b - block_start self b) st).

(** The state of the loop after its first [k] blocks. *)
Definition blocks_done (self : GPTQ) (h_inv : Tensor3) (pr : Prepared)
           (k : nat) : LoopState :=
  for_range k (block_step self h_inv (permutation_list pr))
            {| ls_weight := p_weight pr; ls_block := zeros2;
               ls_error := zeros2; ls_perm := p_perm pr |}.

Definition warning (self : GPTQ) : string :=
  ("Failed to compute the inverse of the Hessian for layer " ++ name self
   ++ " GPTQ will not be applied. "
   ++ "Increasing the number of samples might fix this issue")%string.

(** [GPTQ.single_layer_update]: the object afterwards, the warnings
    emitted and how the call ended. *)
Definition single_layer_update (self : GPTQ) (percdamp : R)
  : GPTQ * list string * result unit :=
  match H self with
  | None => (self, [], Raises AttributeError)
  | Some h =>
      let pr := prepare self h in
      let self := set_weight self (p_weight pr) in
      match invert_groups percdamp (columns self) (seq 0 (groups self))
                          (p_H pr) with
      | None =>
          (set_H self None (nsamples self), [warning self], Returns tt)
      | Some h_inv =>
          let self := set_H self None (nsamples self) in
          if (blocksize self =? 0)%nat then (self, [], Raises ValueError)
          else
            let st := blocks_done self h_inv pr
                        (ceil_div (columns self) (blocksize self)) in
            (set_weight self (ls_weight st), [], Returns tt)
      end
  end.

(** The layer's weight after [single_layer_update]. *)
Definition updated_weight (self : GPTQ) (percdamp : R) : Mat :=
  weight (layer (fst (fst (single_layer_update self percdamp)))).

(** *** Closed forms used to state the properties *)

(** The accumulator of one group after the dead-channel step. *)
Definition fix_dead (n : nat) (A : Mat) : Mat :=
  set_diag_where (dead_mask n A) 1 A.

(** The permutation of one group. *)
Definition group_perm (self : GPTQ) (A : Mat) : list nat :=
  if act_order self
  then argsort_desc (diag (columns self) (fix_dead (columns self) A))
  else seq 0 (columns self).

(** The accumulator of one group when the [try] is entered. *)
Definition group_H (self : GPTQ) (A : Mat) : Mat :=
  if act_order self
  then permute2 (group_perm self A) (fix_dead (columns self) A)
  else fix_dead (columns self) A.

(** The weight after the dead-channel step. *)
Definition dead_zeroed (self : GPTQ) (h : Tensor3) (W : Mat) : Mat :=
  if (1 <? groups self)%nat
  then fun r c => if (r <? groups self)%nat && dead_mask (columns self) (h r) c
                  then 0 else W r c
  else fun r c => if dead_mask (columns self) (h 0%nat) c then 0 else W r c.

(** A list of indices is in descending order of [key]. *)
Definition descending (key : nat -> R) (perm : list nat) : Prop :=
  forall a b, (a < b < length perm)%nat ->
              key (nth b perm 0%nat) <= key (nth a perm 0%nat).

(** Every element is at most (by [key]) the elements before it. *)
Inductive desc_sorted (key : nat -> R) : list nat -> Prop :=
| desc_nil : desc_sorted key []
| desc_cons x l :
    (forall y, In y l -> key y <= key x) ->
    desc_sorted key l -> desc_sorted key (x :: l).

(** The quantized column read for column [i] of block [b]: what
    [get_quant_weights] returns on the weight as it is when that column
    is processed. *)
Definition quant_read (self : GPTQ) (h_inv : Tensor3) (pr : Prepared)
           (b i : nat) : Vec :=
  get_quant_weights self
    (ls_weight (block_columns self h_inv (permutation_list pr) b i
                              (blocks_done self h_inv pr b)))
    i (block_start self b) (block_end self b) (permutation_list pr).

(** All the permutations of the list are [pv]. *)
Definition uniform (pl : list (list nat)) (pv : list nat) : Prop :=
  pl <> [] /\ forall perm, In perm pl -> perm = pv.

(** The number of groups the loops run over. *)
Definition ngroups (self : GPTQ) : nat :=
  if (1 <? groups self)%nat then groups self else 1%nat.

(** The rows the block loop corrects: all of them for a single group, the
    first [groups] for a grouped layer (which has that many rows). *)
Definition row_ok (self : GPTQ) (r : nat) : Prop :=
  (1 <? groups self)%nat = true -> (r < groups self)%nat.

(** [W] and [W0] agree on the entries the layer has. *)
Definition weights_agree (self : GPTQ) (W W0 : Mat) : Prop :=
  forall r c, row_ok self r -> (c < columns self)%nat -> W r c = W0 r c.

(** The layer's quantizer returns [W0] on [W0]: the weights [W0] are on
    its grid.  (A tensor is a function of its indices here, so the weight
    handed to the quantizer is fixed on the layer's entries only.) *)
Definition quantizer_fixes (self : GPTQ) (W0 : Mat) : Prop :=
  forall W, weights_agree self W W0 ->
            weights_agree self (quant_weight (layer self) W) W0.

(** The state of a block whose weight is [W0] throughout: the weight is
    [W0], the block holds its columns of [W0] (through the permutation
    [pv]), no error has been recorded. *)
Definition grid_state (self : GPTQ) (pv : list nat) (W0 : Mat)
           (i1 count : nat) (st : LoopState) : Prop :=
  ls_perm st = pv
  /\ weights_agree self (ls_weight st) W0
  /\ (forall r c, row_ok self r -> (c < count)%nat ->
                  ls_block st r c = W0 r (nth (i1 + c) pv 0%nat))
  /\ (forall r c, row_ok self r -> ls_error st r c = 0).

(** [input[0]] as a plain or a quantized tensor. *)
Definition wrap (quant : bool) (t : Tensor) : Activation :=
  if quant then QuantTensor t else PlainTensor t.

(** The accumulator is symmetric in its last two dimensions and its
    diagonal is non-negative. *)
Definition symmetric_nonneg (self : GPTQ) : Prop :=
  forall g i j, acc self g i j = acc self g j i /\ 0 <= acc self g i i.

End Gptq.

Import Gptq.


(** ** class gptq_mode *)

Module GptqMode.

(** A forward hook: one installed by somebody else, or the
    [update_batch] of the GPTQ object of the named layer. *)
Inductive Hook : Type :=
| UserHook (id : nat)
| GptqHook (layer : string).

Record ModuleState : Type := {
  m_layer : Layer;
  _forward_hooks : list Hook;
  _forward_pre_hooks : list Hook
}.

(** What is bound to [model.forward]: a forward function of the model's
    own, or the [catch_stopfwd] of a session whose [orig_forward] is
    [orig]. *)
Inductive Forward : Type :=
| UserForward (id : nat)
| CatchStopFwd (orig : Forward).

Record Model : Type := {
  forward : Forward;
  named_modules : list (string * ModuleState);
  training : bool;
  act_quant_enabled : bool;
  bias_quant_enabled : bool
}.

Record Session : Type := {
  model : Model;
  use_quant_activations : bool;
  hook_dict : list (string * Hook);
  gptq_layers : list (string * GPTQ);
  current_layer : LayerHandler;
  num_layers : nat;
  s_act_order : bool;
  s_num_blocks : nat;
  orig_forward : Forward
}.

(** Python dictionaries, in insertion order. *)
Fixpoint dict_get (A : Type) (d : list (string * A)) (k : string) : option A :=
  match d with
  | [] => None
  | (k', v) :: t => if String.eqb k' k then Some v else dict_get t k
  end.

Fixpoint dict_set (A : Type) (d : list (string * A)) (k : string) (v : A)
  : list (string * A) :=
  match d with
  | [] => [(k, v)]
  | (k', v') :: t =>
      if String.eqb k' k then (k', v) :: t else (k', v') :: dict_set t k v
  end.

Definition set_forward (m : Model) (f : Forward) : Model :=
  {| forward := f; named_modules := named_modules m; training := training m;
     act_quant_enabled := act_quant_enabled m;
     bias_quant_enabled := bias_quant_enabled m |}.

Definition set_modules (m : Model) (ms : list (string * ModuleState)) : Model :=
  {| forward := forward m; named_modules := ms; training := training m;
     act_quant_enabled := act_quant_enabled m;
     bias_quant_enabled := bias_quant_enabled m |}.

(** Modelled from the spec: [DisableEnableQuantization] of
    [brevitas.graph.calibrate] is not part of the sources; the spec
    describes it as a pair of toggles, [disable()] and [enable()], for
    activation and for bias quantization. *)
Definition set_act_quantization (m : Model) (on : bool) : Model :=
  {| forward := forward m; named_modules := named_modules m;
     training := training m; act_quant_enabled := on;
     bias_quant_enabled := bias_quant_enabled m |}.

Definition set_bias_quantization (m : Model) (on : bool) : Model :=
  {| forward := forward m; named_modules := named_modules m;
     training := training m; act_quant_enabled := act_quant_enabled m;
     bias_quant_enabled := on |}.

Definition set_model (s : Session) (m : Model) : Session :=
  {| model := m; use_quant_activations := use_quant_activations s;
     hook_dict := hook_dict s; gptq_layers := gptq_layers s;
     current_layer := current_layer s; num_layers := num_layers s;
     s_act_order := s_act_order s; s_num_blocks := s_num_blocks s;
     orig_forward := orig_forward s |}.

(** [gptq_mode.__init__].  The model is a value, so [deepcopy] is the
    identity; what [inplace] decides is only whether the caller's object
    is the one calibrated. *)
Definition init (m : Model) (inplace use_quant_act : bool)
           (nb : nat) (ao : bool) : Session :=
  {| model := set_forward m (CatchStopFwd (forward m));
     use_quant_activations := use_quant_act;
     hook_dict := []; gptq_layers := [];
     current_layer := {| layer_name := None |};
     num_layers := 0; s_act_order := ao; s_num_blocks := nb;
     orig_forward := forward m |}.

(** [gptq_mode._is_module_supported] *)
Definition _is_module_supported (l : Layer) : bool :=
  match kind l with
  | QuantConv2d =>
      (conv_groups l =? 1)%nat || (conv_groups l =? out_channels l)%nat
  | QuantLinear => true
  | OtherModule => false
  end.

Definition hooks_warning : string :=
  "Hooks detected during setup for GPTQ. Behaviour might deviate from what expected.".

(** The loop of [__enter__] over [named_modules()]: the modules seen so
    far ([done], with their hooks), the dictionaries, the warnings. *)
Fixpoint enter_modules (nb : nat) (ao : bool)
         (todo done : list (string * ModuleState))
         (hd : list (string * Hook)) (gl : list (string * GPTQ))
         (warns : list string)
  : list (string * ModuleState) * list (string * Hook)
    * list (string * GPTQ) * list string * result unit :=
  match todo with
  | [] => (done, hd, gl, warns, Returns tt)
  | (nm, md) :: rest =>
      let warns :=
        match _forward_hooks md, _forward_pre_hooks md with
        | [], [] => warns
        | _, _ => warns ++ [hooks_warning]
        end in
      if _is_module_supported (m_layer md) then
        match Gptq.init (m_layer md) nm nb ao with
        | Raises e => (done ++ (nm, md) :: rest, hd, gl, warns, Raises e)
        | Returns gptq =>
            let md' := {| m_layer := m_layer md;
                          _forward_hooks := _forward_hooks md ++ [GptqHook nm];
                          _forward_pre_hooks := _forward_pre_hooks md |} in
            enter_modules nb ao rest (done ++ [(nm, md')])
                          (dict_set hd nm (GptqHook nm))
                          (dict_set gl nm gptq) warns
        end
      else enter_modules nb ao rest (done ++ [(nm, md)]) hd gl warns
  end.

(** [gptq_mode.__enter__] *)
Definition enter (s : Session) : Session * list string * result unit :=
  match enter_modules (s_num_blocks s) (s_act_order s)
                      (named_modules (model s)) []
                      (hook_dict s) (gptq_layers s) [] with
  | (ms, hd, gl, warns, r) =>
      let m := set_modules (model s) ms in
      match r with
      | Raises e =>
          ({| model := m; use_quant_activations := use_quant_activations s;
              hook_dict := hd; gptq_layers := gl;
              current_layer := current_layer s; num_layers := num_layers s;
              s_act_order := s_act_order s; s_num_blocks := s_num_blocks s;
              orig_forward := orig_forward s |}, warns, Raises e)
      | Returns _ =>
          let m := if use_quant_activations s then m
                   else set_bias_quantization
                          (set_act_quantization m false) false in
          ({| model := m; use_quant_activations := use_quant_activations s;
              hook_dict := hd; gptq_layers := gl;
              current_layer := current_layer s; num_layers := length gl;
              s_act_order := s_act_order s; s_num_blocks := s_num_blocks s;
              orig_forward := orig_forward s |}, warns, Returns tt)
      end
  end.

(** [gptq_mode.__exit__(type, value, traceback)]; [exc] is the exception
    the scope is left with, if any.  The method returns [None], so the
    exception is not suppressed. *)
Definition exit (s : Session) (exc : option exn) : Session :=
  let m := set_forward (model s) (orig_forward s) in
  let m := if use_quant_activations s then m
           else set_bias_quantization (set_act_quantization m true) true in
  set_model s m.

(** [handle.remove()] for a hook registered on module [nm]. *)
Fixpoint remove_hook (ms : list (string * ModuleState)) (nm : string)
         (h : Hook) : list (string * ModuleState) :=
  match ms with
  | [] => []
  | (k, md) :: t =>
      if String.eqb k nm
      then (k, {| m_layer := m_layer md;
                  _forward_hooks :=
                    filter (fun h' => match h, h' with
                                      | GptqHook a, GptqHook b =>
                                          negb (String.eqb a b)
                                      | UserHook a, UserHook b =>
                                          negb (a =? b)%nat
                                      | _, _ => true
                                      end) (_forward_hooks md);
                  _forward_pre_hooks := _forward_pre_hooks md |}) :: t
      else (k, md) :: remove_hook t nm h
  end.

(** The layer object is shared between the model and its GPTQ object: a
    write to the weight is seen through the model. *)
Fixpoint store_layer (ms : list (string * ModuleState)) (nm : string)
         (l : Layer) : list (string * ModuleState) :=
  match ms with
  | [] => []
  | (k, md) :: t =>
      if String.eqb k nm
      then (k, {| m_layer := l; _forward_hooks := _forward_hooks md;
                  _forward_pre_hooks := _forward_pre_hooks md |}) :: t
      else (k, md) :: store_layer t nm l
  end.

(** [gptq_mode.update] *)
Definition update (s : Session) : Session * list string * result unit :=
  match layer_name (current_layer s) with
  | None => (s, [], Raises KeyError)
  | Some nm =>
      match dict_get (gptq_layers s) nm with
      | None => (s, [], Raises KeyError)
      | Some gptq =>
          match single_layer_update gptq default_percdamp with
          | (gptq', warns, r) =>
              let ms := store_layer (named_modules (model s)) nm (layer gptq') in
              let s1 :=
                {| model := set_modules (model s) ms;
                   use_quant_activations := use_quant_activations s;
                   hook_dict := hook_dict s;
                   gptq_layers := dict_set (gptq_layers s) nm gptq';
                   current_layer := current_layer s;
                   num_layers := num_layers s;
                   s_act_order := s_act_order s;
                   s_num_blocks := s_num_blocks s;
                   orig_forward := orig_forward s |} in
              match r with
              | Raises e => (s1, warns, Raises e)
              | Returns _ =>
                  match dict_get (hook_dict s) nm with
                  | None => (s1, warns, Raises KeyError)
                  | Some h =>
                      (set_model s1
                         (set_modules (model s1)
                            (remove_hook (named_modules (model s1)) nm h)),
                       warns, Returns tt)
                  end
              end
          end
      end
  end.

(** How the model's own forward functions behave: they may change the
    session (the hooks they reach update GPTQ objects and the shared
    handler) and end with an output tensor or an exception. *)
Definition Engine : Type :=
  nat -> Activation -> Session -> Session * result Tensor.

(** Calling what is bound to [model.forward].  The second case is
    [gptq_mode.catch_stopfwd]; Python's [None] is [None]. *)
Fixpoint call_forward (engine : Engine) (f : Forward) (args : Activation)
         (s : Session) : Session * result (option Tensor) :=
  match f with
  | UserForward id =>
      match engine id args s with
      | (s', Returns t) => (s', Returns (Some t))
      | (s', Raises e) => (s', Raises e)
      end
  | CatchStopFwd orig =>
      match call_forward engine orig args s with
      | (s', Returns _) => (s', Returns None)
      | (s', Raises StopFwdException) => (s', Returns None)
      | (s', Raises e) => (s', Raises e)
      end
  end.

(** [gptq_mode.catch_stopfwd] of the session. *)
Definition catch_stopfwd (engine : Engine) (s : Session) (args : Activation)
  : Session * result (option Tensor) :=
  call_forward engine (CatchStopFwd (orig_forward s)) args s.

(** The forward hooks found on the modules of a model. *)
Definition all_forward_hooks (m : Model) : list (string * list Hook) :=
  map (fun e => (fst e, _forward_hooks (snd e))) (named_modules m).

(** The calls a driver makes between [__init__] and [__exit__]. *)
Inductive Op : Type :=
| OpEnter
| OpUpdate
| OpForward (args : Activation).

Definition run_op (engine : Engine) (s : Session) (o : Op) : Session :=
  match o with
  | OpEnter => fst (fst (enter s))
  | OpUpdate => fst (fst (update s))
  | OpForward args => fst (call_forward engine (forward (model s)) args s)
  end.

Definition run_ops (engine : Engine) (s : Session) (ops : list Op) : Session :=
  fold_left (run_op engine) ops s.

(** The model's own forward functions do not rebind [model.forward] nor
    touch the session's saved entry point and configuration. *)
Definition engine_keeps_entry (engine : Engine) : Prop :=
  forall id args s,
    orig_forward (fst (engine id args s)) = orig_forward s
    /\ forward (model (fst (engine id args s))) = forward (model s)
    /\ use_quant_activations (fst (engine id args s))
       = use_quant_activations s.

(** *** Closed forms used to state the properties *)

(** The modules [__enter__] attaches a hook to. *)
Definition supported (e : string * ModuleState) : bool :=
  _is_module_supported (m_layer (snd e)).

(** The condition of the warning of [__enter__]. *)
Definition has_hooks (e : string * ModuleState) : bool :=
  match _forward_hooks (snd e), _forward_pre_hooks (snd e) with
  | [], [] => false
  | _, _ => true
  end.

(** A supported module with the GPTQ hook of its name registered after
    the hooks it has; another module as it is. *)
Definition hooked (e : string * ModuleState) : string * ModuleState :=
  if supported e
  then (fst e, {| m_layer := m_layer (snd e);
                  _forward_hooks := _forward_hooks (snd e) ++ [GptqHook (fst e)];
                  _forward_pre_hooks := _forward_pre_hooks (snd e) |})
  else e.

(** The keys of a dictionary, in insertion order. *)
Definition keys (A : Type) (d : list (string * A)) : list string :=
  map fst d.

(** One step of filling a dictionary from the modules: [d[name] = v] for
    a module that [val] gives a value [v] for. *)
Definition register (A : Type) (val : string * ModuleState -> option A)
           (d : list (string * A)) (e : string * ModuleState)
  : list (string * A) :=
  match val e with
  | Some v => dict_set d (fst e) v
  | None => d
  end.

Definition hook_of (e : string * ModuleState) : option Hook :=
  if supported e then Some (GptqHook (fst e)) else None.

Definition gptq_of (nb : nat) (ao : bool) (e : string * ModuleState)
  : option GPTQ :=
  if supported e
  then match Gptq.init (m_layer (snd e)) (fst e) nb ao with
       | Returns g => Some g
       | Raises _ => None
       end
  else None.

(** The module registered under [nm] after [update] has stored the layer
    and removed the hook. *)
Definition detached (md : ModuleState) (l : Layer) (hs : list Hook)
  : ModuleState :=
  {| m_layer := l; _forward_hooks := hs;
     _forward_pre_hooks := _forward_pre_hooks md |}.

End GptqMode.

(** ** Concrete quantizers and layers, used to run the model *)

Module Fixtures.

(** Round to the nearest multiple of 1/2 (ties upwards), entry by entry. *)
Definition round_half (W : Mat) : Mat :=
  fun r c => IZR (up (2 * W r c - / 2)) / 2.

(** A one-bit quantizer with unit scale: the sign, with [sign 0 = +1]. *)
Definition binary_sign (W : Mat) : Mat :=
  fun r c => if Rle_dec 0 (W r c) then 1 else -1.

(** A convolution with a 1x1 kernel: one patch per pixel of a 1x1 image,
    holding the channels of the group ([per_group] channels each). *)
Definition unfold_1x1 (per_group : nat) (g : nat) (x : Image) : list Vec :=
  [fun c => x (g * per_group + c)%nat 0%nat 0%nat].

Definition no_unfold (g : nat) (x : Image) : list Vec := [].

(** A dense layer with [r] outputs and [c] inputs. *)
Definition linear (r c : nat) (W : Mat) (q : Mat -> Mat) : Layer :=
  {| kind := QuantLinear; conv_groups := 1; out_channels := r;
     weight_rows := r; weight_cols := c; weight := W;
     quant_weight := q; unfold_group := no_unfold |}.

(** A depthwise convolution with [r] groups (one output channel each) and
    [c] weights per output channel. *)
Definition depthwise (r c : nat) (W : Mat) (q : Mat -> Mat) : Layer :=
  {| kind := QuantConv2d; conv_groups := r; out_channels := r;
     weight_rows := r; weight_cols := c; weight := W;
     quant_weight := q; unfold_group := unfold_1x1 c |}.

Definition const_vec (x : R) : Vec := fun _ => x.
Definition const_mat (x : R) : Mat := fun _ _ => x.

(** A matrix given by its rows (0 outside). *)
Definition mat_of (rows : list (list R)) : Mat :=
  fun r c => nth c (nth r rows []) 0.

(** A one-group tensor. *)
Definition one_group (A : Mat) : Tensor3 := fun _ => A.

(** A symmetric accumulator with a non-negative diagonal that is not
    positive semi-definite, and whose third column is dead. *)
Definition indefinite_with_dead_column : Mat :=
  mat_of [[1; 2; 0]; [2; 1; 0]; [0; 0; 0]].

(** A GPTQ object as [GPTQ.__init__] builds it, with a given accumulator
    and sample count. *)
Definition gptq (l : Layer) (nm : string) (nb : nat) (ao : bool)
           (h : Tensor3) (n : nat) : GPTQ :=
  {| layer := l; name := nm; num_blocks := nb; act_order := ao;
     groups := match kind l with QuantConv2d => conv_groups l | _ => 1%nat end;
     rows := weight_rows l; columns := weight_cols l;
     blocksize := ceil_div (weight_cols l) nb;
     H := Some h; nsamples := n |}.

(** A dense layer with one output and three inputs, all weights 1, whose
    accumulator is [indefinite_with_dead_column]. *)
Definition ill_conditioned : GPTQ :=
  gptq (linear 1 3 (const_mat 1) round_half) "fc" 4 false
       (one_group indefinite_with_dead_column) 8.

(** A dense layer with one output and two inputs after one batch of two
    samples, the rows [(2, 2)] and [(0, 0)]: its accumulator has rank one,
    all its entries are 4. *)
Definition rank_one : GPTQ :=
  after_batch
    (gptq (linear 1 2 (const_mat 1) round_half) "fc" 4 false zeros3 0)
    (PlainTensor (Tensor3D [[const_vec 2]; [const_vec 0]])).

(** A dense layer with one weight, 1, that has seen no sample. *)
Definition unseen : GPTQ :=
  gptq (linear 1 1 (const_mat 1) round_half) "fc" 4 false zeros3 0.

(** A dense layer with one output and two inputs, a one-bit quantizer, and
    an accumulator whose second column is dead. *)
Definition dead_binary : GPTQ :=
  gptq (linear 1 2 (const_mat 1) binary_sign) "fc" 4 false
       (one_group (mat_of [[1; 0]; [0; 0]])) 8.

(** A two-group tensor. *)
Definition two_groups (A B : Mat) : Tensor3 :=
  fun g => if (g =? 0)%nat then A else B.

(** A depthwise convolution with two groups and two weights per group,
    calibrated with activation order; the two groups order their columns
    differently. *)
Definition depthwise_act_order : GPTQ :=
  gptq (depthwise 2 2 (mat_of [[1; 3 / 10]; [1; 1]]) round_half) "dw" 4 true
       (two_groups (mat_of [[1; 0]; [0; 4]]) (mat_of [[4; 0]; [0; 1]])) 8.

(** A dense layer with one output and two inputs whose weights are
    multiples of 1/2, calibrated with activation order. *)
Definition on_grid : GPTQ :=
  gptq (linear 1 2 (mat_of [[1; 1 / 2]]) round_half) "fc" 4 true
       (one_group (mat_of [[1; 0]; [0; 4]])) 8.

(** A forward pass that runs the forward hooks of the modules in order
    and hands its input on unchanged: a GPTQ hook runs [update_batch] of
    its object. *)
Fixpoint run_hooks (hooks : list GptqMode.Hook) (args : Activation)
         (s : GptqMode.Session) : GptqMode.Session * result unit :=
  match hooks with
  | [] => (s, Returns tt)
  | GptqMode.UserHook _ :: t => run_hooks t args s
  | GptqMode.GptqHook nm :: t =>
      match GptqMode.dict_get (GptqMode.gptq_layers s) nm with
      | None => (s, Raises KeyError)
      | Some g =>
          match update_batch g args (GptqMode.current_layer s) with
          | (g', cl, r) =>
              let s' :=
                {| GptqMode.model := GptqMode.model s;
                   GptqMode.use_quant_activations :=
                     GptqMode.use_quant_activations s;
                   GptqMode.hook_dict := GptqMode.hook_dict s;
                   GptqMode.gptq_layers :=
                     GptqMode.dict_set (GptqMode.gptq_layers s) nm g';
                   GptqMode.current_layer := cl;
                   GptqMode.num_layers := GptqMode.num_layers s;
                   GptqMode.s_act_order := GptqMode.s_act_order s;
                   GptqMode.s_num_blocks := GptqMode.s_num_blocks s;
                   GptqMode.orig_forward := GptqMode.orig_forward s |} in
              match r with
              | Raises e => (s', Raises e)
              | Returns _ => run_hooks t args s'
              end
          end
      end
  end.

Definition hooked_engine : GptqMode.Engine :=
  fun _ args s =>
    match run_hooks
            (concat (map (fun e => GptqMode._forward_hooks (snd e))
                         (GptqMode.named_modules (GptqMode.model s))))
            args s with
    | (s', Returns _) =>
        (s', Returns (match args with
                      | PlainTensor t => t
                      | QuantTensor t => t
                      end))
    | (s', Raises e) => (s', Raises e)
    end.

(** A model with one dense layer named fc. *)
Definition one_layer_model : GptqMode.Model :=
  {| GptqMode.forward := GptqMode.UserForward 0;
     GptqMode.named_modules :=
       [("fc"%string,
         {| GptqMode.m_layer := linear 1 1 (const_mat 1) round_half;
            GptqMode._forward_hooks := [];
            GptqMode._forward_pre_hooks := [] |})];
     GptqMode.training := false;
     GptqMode.act_quant_enabled := true;
     GptqMode.bias_quant_enabled := true |}.

(** The session for [one_layer_model] after [__enter__] and one forward
    pass with the single sample [[1]]: the hook of fc is in place, its
    accumulator is [2 * 1 * 1], and the handler names fc. *)
Definition calibrating : GptqMode.Session :=
  {| GptqMode.model :=
       {| GptqMode.forward := GptqMode.CatchStopFwd (GptqMode.UserForward 0);
          GptqMode.named_modules :=
            [("fc"%string,
              {| GptqMode.m_layer := linear 1 1 (const_mat 1) round_half;
                 GptqMode._forward_hooks := [GptqMode.GptqHook "fc"];
                 GptqMode._forward_pre_hooks := [] |})];
          GptqMode.training := false;
          GptqMode.act_quant_enabled := true;
          GptqMode.bias_quant_enabled := true |};
     GptqMode.use_quant_activations := true;
     GptqMode.hook_dict := [("fc"%string, GptqMode.GptqHook "fc")];
     GptqMode.gptq_layers :=
       [("fc"%string,
         gptq (linear 1 1 (const_mat 1) round_half) "fc" 4 false
              (one_group (const_mat 2)) 1)];
     GptqMode.current_layer := {| layer_name := Some "fc"%string |};
     GptqMode.num_layers := 1;
     GptqMode.s_act_order := false;
     GptqMode.s_num_blocks := 4;
     GptqMode.orig_forward := GptqMode.UserForward 0 |}.

End Fixtures.
(* ================================================================== *)
(** * Part II: properties *)
(* ================================================================== *)

(** ** Sums *)

Lemma lsum_app (l1 l2 : list R) : lsum (l1 ++ l2) = lsum l1 + lsum l2.
Proof.
  induction l1 as [|x l1 IH]; simpl.
  - lra.
  - rewrite IH. lra.
Qed.

Lemma lsum_map_scale (A : Type) (c : R) (f : A -> R) (l : list A) :
  lsum (map (fun x => c * f x) l) = c * lsum (map f l).
Proof.
  induction l as [|x l IH]; simpl.
  - lra.
  - rewrite IH. lra.
Qed.

Lemma lsum_map_nonneg (A : Type) (f : A -> R) (l : list A) :
  (forall x, 0 <= f x) -> 0 <= lsum (map f l).
Proof.
  intros Hf. induction l as [|x l IH]; simpl.
  - lra.
  - specialize (Hf x). lra.
Qed.

(** ** The Gram matrix of a list of columns *)

Lemma bmm_transpose_app (X Y : list Vec) (i j : nat) :
  bmm_transpose (X ++ Y) i j = bmm_transpose X i j + bmm_transpose Y i j.
Proof. unfold bmm_transpose. now rewrite map_app, lsum_app. Qed.

Lemma bmm_transpose_sym (X : list Vec) (i j : nat) :
  bmm_transpose X i j = bmm_transpose X j i.
Proof.
  unfold bmm_transpose. f_equal. apply map_ext. intros x. lra.
Qed.

Lemma bmm_transpose_diag_nonneg (X : list Vec) (i : nat) :
  0 <= bmm_transpose X i i.
Proof.
  unfold bmm_transpose. apply lsum_map_nonneg. intros x. nra.
Qed.

Lemma bmm_transpose_scale (c : R) (X : list Vec) (i j : nat) :
  bmm_transpose (scale_cols c X) i j = (c * c) * bmm_transpose X i j.
Proof.
  unfold bmm_transpose, scale_cols. rewrite map_map.
  rewrite <- lsum_map_scale. f_equal. apply map_ext. intros x. lra.
Qed.

Lemma bmm_transpose_concat (b : list (list Vec)) (i j : nat) :
  bmm_transpose (concat b) i j = lsum (map (fun s => bmm_transpose s i j) b).
Proof.
  induction b as [|s b IH]; simpl.
  - reflexivity.
  - now rewrite bmm_transpose_app, IH.
Qed.

Lemma bmm_transpose_flat_map (A : Type) (f : A -> list Vec) (b : list A)
      (i j : nat) :
  bmm_transpose (flat_map f b) i j
  = lsum (map (fun s => bmm_transpose (f s) i j) b).
Proof.
  induction b as [|s b IH]; simpl.
  - reflexivity.
  - now rewrite bmm_transpose_app, IH.
Qed.

Lemma sqrt_two_over_sq (n : nat) :
  (0 < n)%nat -> sqrt (2 / INR n) * sqrt (2 / INR n) = 2 / INR n.
Proof.
  intros Hn. apply sqrt_sqrt.
  apply lt_0_INR in Hn.
  apply Rlt_le, Rdiv_lt_0_compat; lra.
Qed.

(** ** [update_batch]: what one call does to the accumulator *)

Lemma update_batch_ok (self : GPTQ) (input : Activation) (cl : LayerHandler)
      (p : Processed) (P : nat -> list Vec) (h : Tensor3) :
  preprocess (layer self) (hook_tensor input) = Returns p ->
  gram_cols (columns self) p = Returns P ->
  H self = Some h ->
  (nsamples self + shape0 (hook_tensor input))%nat <> 0%nat ->
  exists h',
    update_batch self input cl
    = (set_H self (Some h') (nsamples self + shape0 (hook_tensor input)),
       {| layer_name := Some (name self) |}, Raises StopFwdException)
    /\ forall g i j,
        h' g i j
        = h g i j * (INR (nsamples self)
                     / INR (nsamples self + shape0 (hook_tensor input)))
          + 2 / INR (nsamples self + shape0 (hook_tensor input))
            * bmm_transpose (P g) i j.
Proof.
  intros Hp HP Hh Hn.
  unfold update_batch. fold (hook_tensor input). rewrite Hp, Hh, HP.
  apply Nat.eqb_neq in Hn. rewrite Hn. apply Nat.eqb_neq in Hn.
  eexists. split; [reflexivity|].
  intros g i j. cbv beta. rewrite bmm_transpose_scale.
  rewrite sqrt_two_over_sq by lia. reflexivity.
Qed.

(** A call that fails at line 215 or 216 has rescaled the accumulator and
    added to the sample count. *)
Lemma update_batch_half (self : GPTQ) (input : Activation) (cl : LayerHandler)
      (p : Processed) (e : exn) (h : Tensor3) :
  preprocess (layer self) (hook_tensor input) = Returns p ->
  gram_cols (columns self) p = Raises e ->
  H self = Some h ->
  (nsamples self + shape0 (hook_tensor input))%nat <> 0%nat ->
  update_batch self input cl
  = (set_H self
       (Some (fun g i j =>
                h g i j * (INR (nsamples self)
                           / INR (nsamples self + shape0 (hook_tensor input)))))
       (nsamples self + shape0 (hook_tensor input)),
     {| layer_name := Some (name self) |}, Raises e).
Proof.
  intros Hp HP Hh Hn.
  unfold update_batch. fold (hook_tensor input). rewrite Hp, Hh, HP.
  apply Nat.eqb_neq in Hn. now rewrite Hn.
Qed.

Lemma preprocess_no_stop (l : Layer) (t : Tensor) :
  preprocess l t <> Raises StopFwdException.
Proof. unfold preprocess. destruct (kind l), t; discriminate. Qed.

Lemma gram_cols_error (n : nat) (p : Processed) (e : exn) :
  gram_cols n p = Raises e ->
  e = IndexError \/ e = RuntimeError \/ e = UnboundLocalError.
Proof.
  unfold gram_cols. destruct p as [P [w|]|v|]; try discriminate.
  - destruct (w =? n)%nat; [discriminate|].
    destruct (w =? 1)%nat; [discriminate|].
    intros Heq. injection Heq as <-. auto.
  - intros Heq. injection Heq as <-. auto.
  - intros Heq. injection Heq as <-. auto.
Qed.

(** The three ways a call can go: it does not reach line 213 or fails on
    that line, and leaves the object as it was; it reaches the end; or it
    fails at line 215 or 216. *)
Lemma update_batch_cases (self : GPTQ) (input : Activation) (cl : LayerHandler) :
  (fst (fst (update_batch self input cl)) = self
   /\ snd (update_batch self input cl) <> Raises StopFwdException
   /\ (forall p, preprocess (layer self) (hook_tensor input) = Returns p ->
                 H self = None
                 \/ (nsamples self + shape0 (hook_tensor input))%nat = 0%nat))
  \/ (exists p h,
        preprocess (layer self) (hook_tensor input) = Returns p
        /\ H self = Some h
        /\ (nsamples self + shape0 (hook_tensor input))%nat <> 0%nat
        /\ ((exists P, gram_cols (columns self) p = Returns P)
            \/ (exists e, gram_cols (columns self) p = Raises e))).
Proof.
  unfold update_batch. fold (hook_tensor input).
  destruct (preprocess (layer self) (hook_tensor input)) as [p|e] eqn:HP.
  - destruct (H self) as [h|] eqn:Hh.
    + destruct (nsamples self + shape0 (hook_tensor input) =? 0)%nat eqn:Hn.
      * left. split; [reflexivity|]. split; [discriminate|].
        intros _ _. right. now apply Nat.eqb_eq.
      * right. exists p, h. apply Nat.eqb_neq in Hn.
        repeat split; auto.
        destruct (gram_cols (columns self) p) as [P|e]; eauto.
    + left. split; [reflexivity|]. split; [discriminate|]. auto.
  - left. simpl. split; [reflexivity|]. split; [|discriminate].
    intros Heq. injection Heq as ->. now apply preprocess_no_stop in HP.
Qed.

Lemma hook_tensor_wrap (q : bool) (t : Tensor) :
  (ndim t =? 2)%nat = false -> hook_tensor (wrap q t) = t.
Proof. intros Hd. unfold hook_tensor, wrap. destruct q; now rewrite Hd. Qed.

Lemma after_batch_unchanged (self : GPTQ) (input : Activation) :
  (forall p, preprocess (layer self) (hook_tensor input) <> Returns p)
  \/ H self = None
  \/ (nsamples self + shape0 (hook_tensor input))%nat = 0%nat ->
  after_batch self input = self.
Proof.
  intros Hc. unfold after_batch.
  destruct (update_batch_cases self input {| layer_name := None |})
    as [[Heq _]|(p & h & HP & Hh & Hn & _)]; [exact Heq|].
  destruct Hc as [Hc|[Hc|Hc]].
  - now elim (Hc p).
  - congruence.
  - contradiction.
Qed.

Lemma after_batch_updated (self : GPTQ) (input : Activation)
      (p : Processed) (P : nat -> list Vec) (h : Tensor3) :
  preprocess (layer self) (hook_tensor input) = Returns p ->
  gram_cols (columns self) p = Returns P ->
  H self = Some h ->
  (nsamples self + shape0 (hook_tensor input))%nat <> 0%nat ->
  exists h',
    after_batch self input
    = set_H self (Some h') (nsamples self + shape0 (hook_tensor input))
    /\ forall g i j,
        h' g i j
        = h g i j * (INR (nsamples self)
                     / INR (nsamples self + shape0 (hook_tensor input)))
          + 2 / INR (nsamples self + shape0 (hook_tensor input))
            * bmm_transpose (P g) i j.
Proof.
  intros Hp HP Hh Hn.
  destruct (@update_batch_ok self input {| layer_name := None |} p P h
              Hp HP Hh Hn)
    as (h' & Heq & Hh').
  exists h'. split; [|exact Hh'].
  unfold after_batch. now rewrite Heq.
Qed.

Lemma after_batch_half (self : GPTQ) (input : Activation)
      (p : Processed) (e : exn) (h : Tensor3) :
  preprocess (layer self) (hook_tensor input) = Returns p ->
  gram_cols (columns self) p = Raises e ->
  H self = Some h ->
  (nsamples self + shape0 (hook_tensor input))%nat <> 0%nat ->
  after_batch self input
  = set_H self
      (Some (fun g i j =>
               h g i j * (INR (nsamples self)
                          / INR (nsamples self + shape0 (hook_tensor input)))))
      (nsamples self + shape0 (hook_tensor input)).
Proof.
  intros Hp HP Hh Hn. unfold after_batch.
  now rewrite (@update_batch_half self input _ p e h Hp HP Hh Hn).
Qed.

(** ** Batching invariance, for any tensor constructor with a batch axis *)

Section Batching.

Variable A : Type.
Variable T : list A -> Tensor.
Variable l : Layer.
Variable cols : nat -> list A -> list Vec.

Hypothesis T_ndim : forall b, (ndim (T b) =? 2)%nat = false.
Hypothesis T_shape : forall b, shape0 (T b) = length b.
Hypothesis cols_app :
  forall g xs ys, cols g (xs ++ ys) = cols g xs ++ cols g ys.
Hypothesis preprocess_T :
  (exists e, forall b, preprocess l (T b) = Raises e)
  \/ (forall b, preprocess l (T b) = Returns (Stacked (fun g => cols g b) None))
  \/ (forall b, preprocess l (T b) = Returns Unbound).

Lemma batching_any_state (self : GPTQ) (q : bool) (xs ys : list A)
      (g i j : nat) :
  layer self = l ->
  acc (after_batches self [wrap q (T xs); wrap q (T ys)]) g i j
  = acc (after_batch self (wrap q (T (xs ++ ys)))) g i j.
Proof.
  intros Hl. unfold after_batches. simpl.
  destruct preprocess_T as [[e He]|[HP|HP]].
  - assert (Hu : forall b, after_batch self (wrap q (T b)) = self).
    { intros b. apply after_batch_unchanged. left. intros P.
      rewrite hook_tensor_wrap, Hl, He by apply T_ndim. discriminate. }
    now rewrite !Hu.
  - destruct (H self) as [h|] eqn:Hh.
    2:{ assert (Hu : forall b, after_batch self (wrap q (T b)) = self)
          by (intros b; apply after_batch_unchanged; auto).
        now rewrite !Hu. }
    assert (Hpre : forall st b, layer st = l ->
              preprocess (layer st) (hook_tensor (wrap q (T b)))
              = Returns (Stacked (fun g => cols g b) None)).
    { intros st b Hst. now rewrite hook_tensor_wrap, Hst, HP by apply T_ndim. }
    assert (Hsh : forall b, shape0 (hook_tensor (wrap q (T b))) = length b).
    { intros b. now rewrite hook_tensor_wrap, T_shape by apply T_ndim. }
    destruct (Nat.eq_dec (nsamples self + length xs) 0) as [Hx|Hx].
    + rewrite (after_batch_unchanged self (wrap q (T xs)))
        by (right; right; rewrite Hsh; lia).
      assert (Hxs : xs = []) by (destruct xs; simpl in *; [easy|lia]).
      now subst xs.
    + destruct (@after_batch_updated self (wrap q (T (xs ++ ys)))
                  (Stacked (fun g => cols g (xs ++ ys)) None)
                  (fun g => cols g (xs ++ ys)) h
                  (Hpre self (xs ++ ys) Hl) eq_refl Hh)
        as (h12 & E12 & F12); [rewrite Hsh, length_app; lia|].
      destruct (@after_batch_updated self (wrap q (T xs))
                  (Stacked (fun g => cols g xs) None)
                  (fun g => cols g xs) h
                  (Hpre self xs Hl) eq_refl Hh)
        as (h1 & E1 & F1); [rewrite Hsh; lia|].
      rewrite E12, E1.
      destruct (@after_batch_updated
                  (set_H self (Some h1)
                         (nsamples self
                          + shape0 (hook_tensor (wrap q (T xs)))))
                  (wrap q (T ys)) (Stacked (fun g => cols g ys) None)
                  (fun g => cols g ys) h1)
        as (h2 & E2 & F2).
      { apply Hpre. exact Hl. }
      { reflexivity. }
      { reflexivity. }
      { simpl. rewrite !Hsh. lia. }
      rewrite E2. unfold acc. simpl. rewrite F2, F1, F12. simpl.
      rewrite !Hsh, cols_app, bmm_transpose_app, length_app.
      replace (nsamples self + length xs + length ys)%nat
        with (nsamples self + (length xs + length ys))%nat by lia.
      assert (Ha : INR (nsamples self + length xs) <> 0)
        by (apply not_0_INR; lia).
      assert (Hb : INR (nsamples self + (length xs + length ys)) <> 0)
        by (apply not_0_INR; lia).
      field. split; assumption.
  - destruct (H self) as [h|] eqn:Hh.
    2:{ assert (Hu : forall b, after_batch self (wrap q (T b)) = self)
          by (intros b; apply after_batch_unchanged; auto).
        now rewrite !Hu. }
    assert (Hpre : forall st b, layer st = l ->
              preprocess (layer st) (hook_tensor (wrap q (T b)))
              = Returns Unbound).
    { intros st b Hst. now rewrite hook_tensor_wrap, Hst, HP by apply T_ndim. }
    assert (Hsh : forall b, shape0 (hook_tensor (wrap q (T b))) = length b).
    { intros b. now rewrite hook_tensor_wrap, T_shape by apply T_ndim. }
    destruct (Nat.eq_dec (nsamples self + length xs) 0) as [Hx|Hx].
    + rewrite (after_batch_unchanged self (wrap q (T xs)))
        by (right; right; rewrite Hsh; lia).
      assert (Hxs : xs = []) by (destruct xs; simpl in *; [easy|lia]).
      now subst xs.
    + rewrite (@after_batch_half self (wrap q (T (xs ++ ys))) Unbound
                 UnboundLocalError h (Hpre self (xs ++ ys) Hl) eq_refl Hh)
        by (rewrite Hsh, length_app; lia).
      rewrite (@after_batch_half self (wrap q (T xs)) Unbound
                 UnboundLocalError h (Hpre self xs Hl) eq_refl Hh)
        by (rewrite Hsh; lia).
      match goal with
      | |- context [after_batch (set_H self (Some ?h1) ?n1) _] =>
          rewrite (@after_batch_half (set_H self (Some h1) n1)
                     (wrap q (T ys)) Unbound UnboundLocalError h1
                     (Hpre _ ys Hl) eq_refl eq_refl)
            by (simpl; rewrite !Hsh; lia)
      end.
      unfold acc. simpl.
      rewrite !Hsh, length_app.
      replace (nsamples self + length xs + length ys)%nat
        with (nsamples self + (length xs + length ys))%nat by lia.
      assert (Ha : INR (nsamples self + length xs) <> 0)
        by (apply not_0_INR; lia).
      assert (Hb : INR (nsamples self + (length xs + length ys)) <> 0)
        by (apply not_0_INR; lia).
      field. split; assumption.
Qed.

(** From a fresh accumulator one batch gives [2/N] times the sum of the
    per-sample Gram matrices. *)
Lemma batching_fresh (self : GPTQ) (q : bool) (xs : list A) (g i j : nat) :
  layer self = l ->
  H self = Some zeros3 -> nsamples self = 0%nat ->
  (forall b, preprocess l (T b) = Returns (Stacked (fun g => cols g b) None)) ->
  (0 < length xs)%nat ->
  acc (after_batch self (wrap q (T xs))) g i j
  = 2 / INR (length xs) * bmm_transpose (cols g xs) i j.
Proof.
  intros Hl Hh Hn HP Hlen.
  destruct (@after_batch_updated self (wrap q (T xs))
              (Stacked (fun g => cols g xs) None)
              (fun g => cols g xs) zeros3)
    as (h1 & E1 & F1).
  - now rewrite hook_tensor_wrap, Hl, HP by apply T_ndim.
  - reflexivity.
  - exact Hh.
  - rewrite hook_tensor_wrap, T_shape by apply T_ndim. lia.
  - rewrite E1. unfold acc. simpl. rewrite F1.
    rewrite hook_tensor_wrap, T_shape, Hn by apply T_ndim.
    unfold zeros3. simpl. lra.
Qed.

End Batching.

Lemma preprocess_3d (l : Layer) :
  (exists e, forall b, preprocess l (Tensor3D b) = Raises e)
  \/ (forall b, preprocess l (Tensor3D b)
                = Returns (Stacked (fun _ => concat b) None))
  \/ (forall b, preprocess l (Tensor3D b) = Returns Unbound).
Proof.
  unfold preprocess. destruct (kind l).
  - right. now left.
  - left. now exists RuntimeError.
  - right. now right.
Qed.

Lemma preprocess_4d (l : Layer) :
  (exists e, forall b, preprocess l (Tensor4D b) = Raises e)
  \/ (forall b, preprocess l (Tensor4D b)
                = Returns (Stacked (fun g => flat_map (unfold_group l g) b)
                                   None))
  \/ (forall b, preprocess l (Tensor4D b) = Returns Unbound).
Proof.
  unfold preprocess. destruct (kind l).
  - left. now exists RuntimeError.
  - right. now left.
  - right. now right.
Qed.

Lemma init_fresh (l : Layer) (nm : string) (nb : nat) (ao : bool) (self : GPTQ) :
  init l nm nb ao = Returns self ->
  layer self = l /\ H self = Some zeros3 /\ nsamples self = 0%nat
  /\ act_order self = ao /\ num_blocks self = nb /\ name self = nm.
Proof.
  unfold init. destruct (nb =? 0)%nat; [discriminate|].
  intros Heq. injection Heq as <-. simpl. auto 6.
Qed.

(** C1.  The accumulator does not depend on how the samples are batched:
    from every layer state, observing the samples [xs ++ ys] as one batch
    or as the two batches [xs] and [ys] gives the same accumulator, both for
    [B, S, F] inputs and for [B, C, H, W] inputs; and from a freshly
    initialised state, two batches of [N/2 > 0] samples leave [2/N] times
    the sum over the samples of the Gram matrix of the sample's processed
    input, per group.  (The batch size is [inp.shape[0]] after the
    promotion of a two-dimensional input to one sample.) *)
Theorem update_batch_batching_invariance :
  forall (self : GPTQ) (q : bool) (g i j : nat),
    (forall xs ys : list (list Vec),
        acc (after_batches self [wrap q (Tensor3D xs); wrap q (Tensor3D ys)])
            g i j
        = acc (after_batch self (wrap q (Tensor3D (xs ++ ys)))) g i j)
    /\ (forall xs ys : list Image,
        acc (after_batches self [wrap q (Tensor4D xs); wrap q (Tensor4D ys)])
            g i j
        = acc (after_batch self (wrap q (Tensor4D (xs ++ ys)))) g i j)
    /\ (forall l nm nb ao,
        init l nm nb ao = Returns self ->
        (kind l = QuantLinear ->
         forall xs ys : list (list Vec),
           length xs = length ys -> (0 < length xs)%nat ->
           acc (after_batches self
                  [wrap q (Tensor3D xs); wrap q (Tensor3D ys)]) g i j
           = 2 / INR (length (xs ++ ys))
             * lsum (map (fun s => bmm_transpose s i j) (xs ++ ys)))
        /\ (kind l = QuantConv2d ->
            forall xs ys : list Image,
              length xs = length ys -> (0 < length xs)%nat ->
              acc (after_batches self
                     [wrap q (Tensor4D xs); wrap q (Tensor4D ys)]) g i j
              = 2 / INR (length (xs ++ ys))
                * lsum (map (fun x => bmm_transpose (unfold_group l g x) i j)
                            (xs ++ ys)))).
Proof.
  intros self q g i j.
  assert (H3 : forall xs ys : list (list Vec),
             acc (after_batches self
                    [wrap q (Tensor3D xs); wrap q (Tensor3D ys)]) g i j
             = acc (after_batch self (wrap q (Tensor3D (xs ++ ys)))) g i j).
  { intros xs ys.
    apply (@batching_any_state _ Tensor3D (layer self)
             (fun _ b => concat b)); auto using concat_app, preprocess_3d. }
  assert (H4 : forall xs ys : list Image,
             acc (after_batches self
                    [wrap q (Tensor4D xs); wrap q (Tensor4D ys)]) g i j
             = acc (after_batch self (wrap q (Tensor4D (xs ++ ys)))) g i j).
  { intros xs ys.
    apply (@batching_any_state _ Tensor4D (layer self)
             (fun g b => flat_map (unfold_group (layer self) g) b));
      auto using flat_map_app, preprocess_4d. }
  split; [exact H3|]. split; [exact H4|].
  intros l nm nb ao Hinit.
  destruct (init_fresh _ _ _ _ Hinit) as (Hl & Hh & Hn & _).
  split.
  - intros Hk xs ys Hlen Hpos. rewrite H3.
    rewrite (@batching_fresh _ Tensor3D l (fun _ b => concat b)); auto.
    + now rewrite bmm_transpose_concat.
    + intros b. unfold preprocess. now rewrite Hk.
    + rewrite length_app. lia.
  - intros Hk xs ys Hlen Hpos. rewrite H4.
    rewrite (@batching_fresh _ Tensor4D l
               (fun g b => flat_map (unfold_group l g) b)); auto.
    + now rewrite bmm_transpose_flat_map.
    + intros b. unfold preprocess. now rewrite Hk.
    + rewrite length_app. lia.
Qed.

Lemma update_batch_batching_invariance_witness :
  acc (after_batches
         (set_H {| layer := Fixtures.linear 1 1 (Fixtures.const_mat 1)
                                            Fixtures.round_half;
                   name := "fc"; num_blocks := 4; act_order := false;
                   groups := 1; rows := 1; columns := 1;
                   blocksize := ceil_div 1 4;
                   H := None; nsamples := 0 |} (Some zeros3) 0)
         [wrap false (Tensor3D [[Fixtures.const_vec 1]]);
          wrap false (Tensor3D [[Fixtures.const_vec 3]])]) 0 0 0
  = 2 / INR 2
    * lsum (map (fun s => bmm_transpose s 0%nat 0%nat)
                [[Fixtures.const_vec 1]; [Fixtures.const_vec 3]]).
Proof.
  destruct (update_batch_batching_invariance
              (set_H {| layer := Fixtures.linear 1 1 (Fixtures.const_mat 1)
                                                 Fixtures.round_half;
                        name := "fc"; num_blocks := 4; act_order := false;
                        groups := 1; rows := 1; columns := 1;
                        blocksize := ceil_div 1 4;
                        H := None; nsamples := 0 |} (Some zeros3) 0)
              false 0 0 0) as (_ & _ & Hfresh).
  destruct (Hfresh (Fixtures.linear 1 1 (Fixtures.const_mat 1)
                                    Fixtures.round_half)
                   "fc"%string 4%nat false eq_refl) as [Hlin _].
  exact (Hlin eq_refl [[Fixtures.const_vec 1]] [[Fixtures.const_vec 3]]
              eq_refl (le_n 1)).
Defined.

(** ** The accumulator invariant *)

Lemma init_symmetric_nonneg (l : Layer) (nm : string) (nb : nat) (ao : bool)
      (self : GPTQ) :
  init l nm nb ao = Returns self -> symmetric_nonneg self.
Proof.
  intros Hinit. destruct (init_fresh _ _ _ _ Hinit) as (_ & Hh & _).
  intros g i j. unfold acc. rewrite Hh. unfold zeros3. split; lra.
Qed.

Lemma update_batch_symmetric_nonneg (self : GPTQ) (input : Activation)
      (cl : LayerHandler) :
  symmetric_nonneg self ->
  symmetric_nonneg (fst (fst (update_batch self input cl))).
Proof.
  intros Hinv.
  destruct (update_batch_cases self input cl)
    as [[Heq _]|(p & h & Hp & Hh & Hn & [[P HP]|[e HP]])].
  - now rewrite Heq.
  - destruct (@update_batch_ok self input cl p P h Hp HP Hh Hn)
      as (h' & Heq & Hh').
    rewrite Heq. simpl. intros g i j. unfold acc. simpl. rewrite !Hh'.
    destruct (Hinv g i j) as [Hs Hd]. unfold acc in Hs, Hd.
    rewrite Hh in Hs, Hd.
    set (n' := (nsamples self + shape0 (hook_tensor input))%nat) in *.
    assert (Hn' : 0 < INR n') by (apply lt_0_INR; lia).
    assert (Hc : 0 <= INR (nsamples self) / INR n').
    { apply Rmult_le_pos; [apply pos_INR|]. left. now apply Rinv_0_lt_compat. }
    assert (H2 : 0 < 2 / INR n') by (apply Rdiv_lt_0_compat; lra).
    split.
    + rewrite Hs. now rewrite (bmm_transpose_sym (P g) i j).
    + pose proof (bmm_transpose_diag_nonneg (P g) i) as HG.
      apply Rplus_le_le_0_compat; apply Rmult_le_pos; lra.
  - rewrite (@update_batch_half self input cl p e h Hp HP Hh Hn).
    simpl. intros g i j. unfold acc. simpl.
    destruct (Hinv g i j) as [Hs Hd]. unfold acc in Hs, Hd.
    rewrite Hh in Hs, Hd.
    set (n' := (nsamples self + shape0 (hook_tensor input))%nat) in *.
    assert (Hn' : 0 < INR n') by (apply lt_0_INR; lia).
    assert (Hc : 0 <= INR (nsamples self) / INR n').
    { apply Rmult_le_pos; [apply pos_INR|]. left. now apply Rinv_0_lt_compat. }
    split; [now rewrite Hs|now apply Rmult_le_pos].
Qed.

Lemma after_batches_symmetric_nonneg (inputs : list Activation) (self : GPTQ) :
  symmetric_nonneg self -> symmetric_nonneg (after_batches self inputs).
Proof.
  revert self. induction inputs as [|x inputs IH]; intros self Hinv.
  - exact Hinv.
  - unfold after_batches. simpl. apply IH. unfold after_batch.
    now apply update_batch_symmetric_nonneg.
Qed.

(** C7.  The accumulator is symmetric in its last two dimensions and has a
    non-negative diagonal after initialisation, the property is kept by
    every call of [update_batch] (whatever its input and however it ends),
    and therefore holds after every sequence of calls. *)
Theorem accumulator_symmetric_nonneg :
  (forall l nm nb ao self,
      init l nm nb ao = Returns self ->
      symmetric_nonneg self
      /\ forall inputs, symmetric_nonneg (after_batches self inputs))
  /\ (forall self input cl,
         symmetric_nonneg self ->
         symmetric_nonneg (fst (fst (update_batch self input cl)))).
Proof.
  split.
  - intros l nm nb ao self Hinit.
    pose proof (init_symmetric_nonneg _ _ _ _ Hinit) as H0.
    split; [exact H0|].
    intros inputs. now apply after_batches_symmetric_nonneg.
  - intros self input cl. apply update_batch_symmetric_nonneg.
Qed.

Lemma accumulator_symmetric_nonneg_witness :
  symmetric_nonneg
    (after_batches
       (set_H {| layer := Fixtures.linear 1 1 (Fixtures.const_mat 1)
                                          Fixtures.round_half;
                 name := "fc"; num_blocks := 4; act_order := false;
                 groups := 1; rows := 1; columns := 1;
                 blocksize := ceil_div 1 4;
                 H := None; nsamples := 0 |} (Some zeros3) 0)
       [wrap false (Tensor3D [[Fixtures.const_vec 1]])]).
Proof.
  exact (proj2 (proj1 accumulator_symmetric_nonneg
                      (Fixtures.linear 1 1 (Fixtures.const_mat 1)
                                       Fixtures.round_half)
                      "fc"%string 4%nat false _ eq_refl)
               [wrap false (Tensor3D [[Fixtures.const_vec 1]])]).
Defined.

(** ** Loops *)

Lemma for_range_S (S : Type) (n : nat) (body : nat -> S -> S) (s : S) :
  for_range (Datatypes.S n) body s = body n (for_range n body s).
Proof.
  unfold for_range. rewrite seq_S, fold_left_app. reflexivity.
Qed.

Lemma for_range_0 (S : Type) (body : nat -> S -> S) (s : S) :
  for_range 0 body s = s.
Proof. reflexivity. Qed.

(** An invariant that holds at the start and is kept by every iteration
    holds at the end. *)
Lemma for_range_ind (S : Type) (P : nat -> S -> Prop) (n : nat)
      (body : nat -> S -> S) (s : S) :
  P 0%nat s ->
  (forall k st, (k < n)%nat -> P k st -> P (Datatypes.S k) (body k st)) ->
  P n (for_range n body s).
Proof.
  intros H0 Hstep.
  assert (forall k, (k <= n)%nat -> P k (for_range k body s)) as Hall.
  { induction k as [|k IH]; intros Hk.
    - exact H0.
    - rewrite for_range_S. apply Hstep; [lia|]. apply IH. lia. }
  apply Hall. lia.
Qed.

(** ** [argsort]: a permutation in descending order *)

Lemma insert_desc_perm (key : nat -> R) (k : nat) (l : list nat) :
  Permutation (insert_desc key k l) (k :: l).
Proof.
  induction l as [|x l IH]; simpl.
  - reflexivity.
  - destruct (Rle_dec (key x) (key k)).
    + reflexivity.
    + rewrite IH. apply perm_swap.
Qed.

Lemma argsort_desc_perm (d : list R) :
  Permutation (argsort_desc d) (seq 0 (length d)).
Proof.
  unfold argsort_desc. induction (seq 0 (length d)) as [|k l IH]; simpl.
  - reflexivity.
  - rewrite insert_desc_perm. now constructor.
Qed.

Lemma argsort_desc_length (d : list R) :
  length (argsort_desc d) = length d.
Proof.
  rewrite (Permutation_length (argsort_desc_perm d)). apply length_seq.
Qed.

Lemma argsort_desc_NoDup (d : list R) : NoDup (argsort_desc d).
Proof.
  eapply Permutation_NoDup; [symmetry; apply argsort_desc_perm|].
  apply seq_NoDup.
Qed.

Lemma insert_desc_sorted (key : nat -> R) (k : nat) (l : list nat) :
  desc_sorted key l -> desc_sorted key (insert_desc key k l).
Proof.
  induction 1 as [|x l Hx Hl IH]; simpl.
  - constructor; [intros y []|constructor].
  - destruct (Rle_dec (key x) (key k)) as [Hle|Hgt].
    + constructor.
      * intros y [<-|Hy]; [exact Hle|]. specialize (Hx y Hy). lra.
      * now constructor.
    + constructor; [|exact IH].
      intros y Hy.
      apply (Permutation_in _ (insert_desc_perm key k l)) in Hy.
      destruct Hy as [<-|Hy]; [lra|auto].
Qed.

Lemma argsort_desc_sorted (d : list R) :
  desc_sorted (fun k => nth k d 0) (argsort_desc d).
Proof.
  unfold argsort_desc. induction (seq 0 (length d)) as [|k l IH]; simpl.
  - constructor.
  - now apply insert_desc_sorted.
Qed.

Lemma desc_sorted_descending (key : nat -> R) (l : list nat) :
  desc_sorted key l -> descending key l.
Proof.
  induction 1 as [|x l Hx Hl IH]; intros a b Hab; simpl in Hab.
  - lia.
  - destruct b as [|b]; [lia|]. destruct a as [|a]; simpl.
    + apply Hx. apply nth_In. lia.
    + apply IH. lia.
Qed.

Lemma argsort_desc_descending (d : list R) :
  descending (fun k => nth k d 0) (argsort_desc d).
Proof. apply desc_sorted_descending, argsort_desc_sorted. Qed.

Lemma diag_length (n : nat) (A : Mat) : length (diag n A) = n.
Proof. unfold diag. now rewrite length_map, length_seq. Qed.

Lemma nth_map_seq (f : nat -> R) (n a k : nat) (d : R) :
  (k < n)%nat -> nth k (map f (seq a n)) d = f (a + k)%nat.
Proof.
  revert a k. induction n as [|n IH]; intros a k Hk; [lia|].
  destruct k as [|k]; simpl.
  - now rewrite Nat.add_0_r.
  - rewrite IH by lia. f_equal. lia.
Qed.

Lemma diag_nth (n : nat) (A : Mat) (k : nat) :
  (k < n)%nat -> nth k (diag n A) 0 = A k k.
Proof. intros Hk. unfold diag. now rewrite nth_map_seq. Qed.

(** ** The permutations of [single_layer_update] *)

Lemma group_perm_permutation (self : GPTQ) (A : Mat) :
  Permutation (group_perm self A) (seq 0 (columns self)).
Proof.
  unfold group_perm. destruct (act_order self); [|reflexivity].
  pose proof (argsort_desc_perm
                (diag (columns self) (fix_dead (columns self) A))) as Hp.
  now rewrite diag_length in Hp.
Qed.

Lemma group_perm_length (self : GPTQ) (A : Mat) :
  length (group_perm self A) = columns self.
Proof.
  rewrite (Permutation_length (group_perm_permutation self A)).
  apply length_seq.
Qed.

Lemma group_perm_NoDup (self : GPTQ) (A : Mat) : NoDup (group_perm self A).
Proof.
  eapply Permutation_NoDup; [symmetry; apply group_perm_permutation|].
  apply seq_NoDup.
Qed.

Lemma group_perm_bound (self : GPTQ) (A : Mat) (p : nat) :
  (p < columns self)%nat -> (nth p (group_perm self A) 0 < columns self)%nat.
Proof.
  intros Hp.
  assert (Hin : In (nth p (group_perm self A) 0%nat) (group_perm self A))
    by (apply nth_In; now rewrite group_perm_length).
  apply (Permutation_in _ (group_perm_permutation self A)) in Hin.
  apply in_seq in Hin. lia.
Qed.

Lemma group_perm_identity (self : GPTQ) (A : Mat) :
  act_order self = false -> group_perm self A = seq 0 (columns self).
Proof. intros Hao. unfold group_perm. now rewrite Hao. Qed.

Lemma group_perm_descending (self : GPTQ) (A : Mat) :
  act_order self = true ->
  descending (fun k => fix_dead (columns self) A k k) (group_perm self A).
Proof.
  intros Hao a b Hab.
  pose proof (group_perm_length self A) as Hlen.
  assert (Ha := @group_perm_bound self A a ltac:(lia)).
  assert (Hb := @group_perm_bound self A b ltac:(lia)).
  unfold group_perm in *. rewrite Hao in *.
  pose proof (@argsort_desc_descending
                (diag (columns self) (fix_dead (columns self) A)) a b Hab)
    as Hd.
  cbv beta in Hd. now rewrite !diag_nth in Hd.
Qed.

Lemma set_group_same (T : Tensor3) (i : nat) (A : Mat) : set_group T i A i = A.
Proof. unfold set_group. now rewrite Nat.eqb_refl. Qed.

Lemma set_group_other (T : Tensor3) (i g : nat) (A : Mat) :
  g <> i -> set_group T i A g = T g.
Proof.
  intros Hg. unfold set_group. apply Nat.eqb_neq in Hg. now rewrite Hg.
Qed.

(** What one iteration of the loop over groups computes. *)
Lemma prepare_group_spec (self : GPTQ) (i : nat) (st : Prepared) :
  permutation_list (prepare_group self i st)
  = permutation_list st ++ [group_perm self (p_H st i)]
  /\ p_perm (prepare_group self i st) = group_perm self (p_H st i)
  /\ p_H (prepare_group self i st) i = group_H self (p_H st i)
  /\ (forall g, g <> i -> p_H (prepare_group self i st) g = p_H st g)
  /\ p_weight (prepare_group self i st)
     = fun r c => if (r =? i)%nat && dead_mask (columns self) (p_H st i) c
                  then 0 else p_weight st r c.
Proof.
  unfold prepare_group, group_H, group_perm, fix_dead.
  destruct (act_order self); simpl; rewrite ?set_group_same;
    (split; [reflexivity|]); (split; [reflexivity|]);
    (split; [reflexivity|]); (split; [|reflexivity]);
    intros g Hg; now rewrite ?set_group_other by exact Hg.
Qed.

Lemma prepare_groups_spec (self : GPTQ) (h : Tensor3) (W : Mat) (k : nat) :
  let st := for_range k (prepare_group self)
                      {| p_H := h; p_weight := W;
                         permutation_list := []; p_perm := [] |} in
  permutation_list st = map (fun g => group_perm self (h g)) (seq 0 k)
  /\ p_perm st = last (permutation_list st) []
  /\ (forall g, p_H st g = if (g <? k)%nat then group_H self (h g) else h g)
  /\ (forall r c, p_weight st r c
                  = if (r <? k)%nat && dead_mask (columns self) (h r) c
                    then 0 else W r c).
Proof.
  induction k as [|k IH]; cbv zeta.
  - rewrite for_range_0. simpl. auto.
  - rewrite for_range_S. cbv zeta in IH.
    set (st := for_range k (prepare_group self) _) in *.
    destruct IH as (Hpl & Hpv & HH & HW).
    destruct (prepare_group_spec self k st) as (Epl & Epv & EHk & EHo & EW).
    assert (Hk : p_H st k = h k) by (rewrite HH, Nat.ltb_irrefl; reflexivity).
    rewrite Hk in *.
    repeat split.
    + rewrite Epl, Hpl, seq_S, map_app. reflexivity.
    + rewrite Epv, Epl, last_last. reflexivity.
    + intros g. destruct (Nat.eq_dec g k) as [->|Hg].
      * rewrite EHk. assert (Hlt : (k <? S k)%nat = true)
          by (apply Nat.ltb_lt; lia). now rewrite Hlt.
      * rewrite EHo, HH by exact Hg.
        destruct (g <? k)%nat eqn:E1, (g <? S k)%nat eqn:E2; try reflexivity;
          apply Nat.ltb_lt in E1 || apply Nat.ltb_ge in E1;
          apply Nat.ltb_lt in E2 || apply Nat.ltb_ge in E2; lia.
    + intros r c. rewrite EW, HW.
      destruct (Nat.eq_dec r k) as [->|Hr].
      * rewrite Nat.eqb_refl, Nat.ltb_irrefl.
        assert (Hlt : (k <? S k)%nat = true) by (apply Nat.ltb_lt; lia).
        rewrite Hlt. simpl. reflexivity.
      * apply Nat.eqb_neq in Hr. rewrite Hr. simpl.
        apply Nat.eqb_neq in Hr.
        destruct (r <? k)%nat eqn:E1, (r <? S k)%nat eqn:E2; try reflexivity;
          apply Nat.ltb_lt in E1 || apply Nat.ltb_ge in E1;
          apply Nat.ltb_lt in E2 || apply Nat.ltb_ge in E2; lia.
Qed.

(** The first part of [single_layer_update] in closed form. *)
Lemma prepare_spec (self : GPTQ) (h : Tensor3) :
  let pr := prepare self h in
  permutation_list pr
  = map (fun g => group_perm self (h g))
        (seq 0 (if (1 <? groups self)%nat then groups self else 1%nat))
  /\ p_perm pr = last (permutation_list pr) []
  /\ (forall g, (g < (if (1 <? groups self)%nat then groups self else 1))%nat
                -> p_H pr g = group_H self (h g))
  /\ (forall r c, p_weight pr r c = dead_zeroed self h (weight (layer self)) r c).
Proof.
  cbv zeta. unfold prepare, dead_zeroed.
  destruct (1 <? groups self)%nat eqn:Hg.
  - destruct (prepare_groups_spec self h (weight (layer self)) (groups self))
      as (Hpl & Hpv & HH & HW).
    repeat split; auto.
    intros g Hlt. rewrite HH. apply Nat.ltb_lt in Hlt. now rewrite Hlt.
  - unfold prepare_single, group_H, group_perm, fix_dead.
    destruct (act_order self); simpl; repeat split; try reflexivity;
      intros g Hlt; assert (g = 0%nat) as -> by lia;
      now rewrite ?set_group_same.
Qed.

(** C6.  [permutation_list] holds one permutation for each group the
    loops run over ([groups] of them for a grouped layer, one otherwise),
    and each is a permutation of [0, columns).  With [act_order] it lists
    the indices in descending order of the accumulator's diagonal as
    [argsort] reads it, that is after the dead-channel step has set the
    zero entries to 1 (the diagonal of the accumulator itself on the
    columns that are not dead); without [act_order] it is the identity
    [0, 1, ..., columns - 1]. *)
Theorem permutation_list_valid :
  forall (self : GPTQ) (h : Tensor3),
    H self = Some h ->
    length (permutation_list (prepare self h)) = ngroups self
    /\ forall g,
        (g < ngroups self)%nat ->
        let perm := nth g (permutation_list (prepare self h)) [] in
        Permutation perm (seq 0 (columns self))
        /\ (act_order self = true ->
            descending (fun k => fix_dead (columns self) (h g) k k) perm
            /\ forall k, h g k k <> 0 ->
                         fix_dead (columns self) (h g) k k = h g k k)
        /\ (act_order self = false -> perm = seq 0 (columns self)).
Proof.
  intros self h _.
  destruct (prepare_spec self h) as (Hpl & _).
  fold (ngroups self) in Hpl.
  split; [now rewrite Hpl, length_map, length_seq|].
  intros g Hg. cbv zeta. rewrite Hpl.
  rewrite (nth_indep _ [] (group_perm self (h 0%nat)))
    by (now rewrite length_map, length_seq).
  rewrite (map_nth (fun g => group_perm self (h g))), seq_nth by exact Hg.
  simpl. split; [apply group_perm_permutation|].
  split; [|apply group_perm_identity].
  intros Hao. split; [now apply group_perm_descending|].
  intros k Hk. unfold fix_dead, set_diag_where, dead_mask.
  destruct (Req_dec_T (h g k k) 0) as [E|_]; [contradiction|].
  now rewrite andb_false_r, andb_false_r.
Qed.

(** ** The entry-point wrapper *)

Import GptqMode.

Lemma call_catch_stopfwd (engine : Engine) (orig : Forward) (args : Activation)
      (s : Session) :
  call_forward engine (CatchStopFwd orig) args s
  = match call_forward engine orig args s with
    | (s', Returns _) => (s', Returns None)
    | (s', Raises StopFwdException) => (s', Returns None)
    | (s', Raises e) => (s', Raises e)
    end.
Proof. reflexivity. Qed.

(** [catch_stopfwd] never ends with the abort signal, whatever is bound
    underneath. *)
Lemma catch_stopfwd_no_escape (engine : Engine) (s : Session) (args : Activation) :
  snd (catch_stopfwd engine s args) <> Raises StopFwdException.
Proof.
  unfold catch_stopfwd. rewrite call_catch_stopfwd.
  destruct (call_forward engine (orig_forward s) args s) as [s' [v|e]];
    [discriminate|].
  destruct e; simpl; discriminate.
Qed.

(** C10.  Whenever the wrapped entry point returns, it returns [None]: the
    output of the underlying forward pass is discarded also when that pass
    completes without the abort signal. *)
Theorem catch_stopfwd_returns_none :
  forall (engine : Engine) (s : Session) (args : Activation),
    (forall v, snd (catch_stopfwd engine s args) = Returns v -> v = None)
    /\ (forall t,
           snd (call_forward engine (orig_forward s) args s) = Returns t ->
           snd (catch_stopfwd engine s args) = Returns None)
    /\ (snd (call_forward engine (orig_forward s) args s)
        = Raises StopFwdException ->
        snd (catch_stopfwd engine s args) = Returns None).
Proof.
  intros engine s args. unfold catch_stopfwd. rewrite call_catch_stopfwd.
  destruct (call_forward engine (orig_forward s) args s) as [s' [v|e]]; simpl.
  - repeat split; try reflexivity. intros v' Hv. now injection Hv as <-.
  - destruct e; simpl; repeat split; try discriminate; try reflexivity;
      intros v' Hv; now injection Hv as <-.
Qed.

Lemma gram_cols_width (n w : nat) (P : nat -> list Vec) :
  (exists Q, gram_cols n (Stacked P (Some w)) = Returns Q)
  <-> (w =? n)%nat || (w =? 1)%nat = true.
Proof.
  unfold gram_cols.
  destruct (w =? n)%nat; [split; [reflexivity|intros _; now eexists]|].
  destruct (w =? 1)%nat; [split; [reflexivity|intros _; now eexists]|].
  split; [intros [Q HQ]; discriminate|discriminate].
Qed.

Lemma accumulates_spec (self : GPTQ) (t : Tensor) :
  accumulates self t = true
  <-> exists p P, preprocess (layer self) t = Returns p
                  /\ gram_cols (columns self) p = Returns P.
Proof.
  assert (Hex : forall (p : Processed),
             (exists p' P, Returns p = Returns p'
                           /\ gram_cols (columns self) p' = Returns P)
             <-> exists P, gram_cols (columns self) p = Returns P).
  { intros p. split.
    - intros (p' & P & Hp & HP). injection Hp as <-. now exists P.
    - intros [P HP]. now exists p, P. }
  unfold accumulates, preprocess.
  destruct (kind (layer self)), t as [m|b|b|v|w m|w b];
    rewrite ?Hex, ?gram_cols_width; try reflexivity;
    try (split; [intros _; now eexists|reflexivity]);
    try (split; [discriminate|intros [P HP]; discriminate]);
    split; try discriminate; intros (p & P & Hp & _); discriminate.
Qed.

(** C8, as amended.  [update_batch] ends with [StopFwdException] exactly
    when the input is one whose Gram matrix can be added (a dense layer fed
    [B, S, F] or [S, F] with [F] its number of columns, or 1; a convolution
    fed a [B, C, H, W] input with its channels, the only four-dimensional
    inputs considered), the accumulator is live and
    [nsamples + batch_size > 0]; it has then replaced the accumulator by
    [H * n / (n + b) + 2 / (n + b) * X X^T] and added [b] to the sample
    count, and the shared handler names the layer.  It never returns
    normally.  [catch_stopfwd] returns normally exactly when the wrapped
    forward raises [StopFwdException] or returns, hands every other
    exception on unchanged, leaves the state as the wrapped forward left
    it, and never ends with the abort signal. *)
Theorem update_batch_stops_and_wrapper_catches :
  (forall (self : GPTQ) (input : Activation) (cl : LayerHandler)
          (h : Tensor3),
      accumulates self (hook_tensor input) = true ->
      H self = Some h ->
      (0 < nsamples self + shape0 (hook_tensor input))%nat ->
      snd (update_batch self input cl) = Raises StopFwdException
      /\ snd (fst (update_batch self input cl))
         = {| layer_name := Some (name self) |}
      /\ nsamples (fst (fst (update_batch self input cl)))
         = (nsamples self + shape0 (hook_tensor input))%nat
      /\ exists p P,
          preprocess (layer self) (hook_tensor input) = Returns p
          /\ gram_cols (columns self) p = Returns P
          /\ forall g i j,
              acc (fst (fst (update_batch self input cl))) g i j
              = h g i j * (INR (nsamples self)
                           / INR (nsamples self + shape0 (hook_tensor input)))
                + 2 / INR (nsamples self + shape0 (hook_tensor input))
                  * bmm_transpose (P g) i j)
  /\ (forall (self : GPTQ) (input : Activation) (cl : LayerHandler),
         snd (update_batch self input cl) = Raises StopFwdException ->
         accumulates self (hook_tensor input) = true
         /\ H self <> None
         /\ (0 < nsamples self + shape0 (hook_tensor input))%nat)
  /\ (forall (self : GPTQ) (input : Activation) (cl : LayerHandler) (u : unit),
         snd (update_batch self input cl) <> Returns u)
  /\ (forall (engine : Engine) (s : Session) (args : Activation),
         let inner := call_forward engine (orig_forward s) args s in
         let outer := catch_stopfwd engine s args in
         fst outer = fst inner
         /\ (snd outer = Returns None <->
             snd inner = Raises StopFwdException
             \/ exists t, snd inner = Returns t)
         /\ (forall e, e <> StopFwdException ->
                       snd inner = Raises e -> snd outer = Raises e)
         /\ snd outer <> Raises StopFwdException).
Proof.
  split; [|split; [|split]].
  - intros self input cl h Hacc Hh Hn.
    apply accumulates_spec in Hacc as (p & P & Hp & HP).
    destruct (@update_batch_ok self input cl p P h Hp HP Hh) as (h' & Heq & Hh');
      [lia|].
    rewrite Heq. cbn [fst snd nsamples set_H].
    split; [reflexivity|]. split; [reflexivity|]. split; [reflexivity|].
    exists p, P. split; [exact Hp|]. split; [exact HP|].
    intros g i j. unfold acc. simpl. apply Hh'.
  - intros self input cl Hstop.
    destruct (update_batch_cases self input cl)
      as [(_ & Hne & _)|(p & h & Hp & Hh & Hn & [[P HP]|[e HP]])].
    + contradiction.
    + split; [apply accumulates_spec; eauto|]. split; [congruence|lia].
    + rewrite (@update_batch_half self input cl p e h Hp HP Hh Hn) in Hstop.
      simpl in Hstop. injection Hstop as ->.
      apply gram_cols_error in HP. destruct HP as [HP|[HP|HP]]; discriminate.
  - intros self input cl u. unfold update_batch.
    destruct (preprocess _ _); [|discriminate].
    destruct (H self); [|discriminate].
    destruct (_ =? 0)%nat; [discriminate|].
    destruct (gram_cols _ _); discriminate.
  - intros engine s args. cbv zeta.
    split; [|split; [|split]].
    + unfold catch_stopfwd. rewrite call_catch_stopfwd.
      destruct (call_forward engine (orig_forward s) args s) as [s' [v|e]];
        [reflexivity|]. now destruct e.
    + unfold catch_stopfwd. rewrite call_catch_stopfwd.
      destruct (call_forward engine (orig_forward s) args s) as [s' [v|e]];
        simpl.
      * split; [intros _; right; now exists v|reflexivity].
      * destruct e; simpl; split; intros Hx;
          try discriminate; try reflexivity; try (now left);
          destruct Hx as [Hx|[t Hx]]; discriminate.
    + intros e He. unfold catch_stopfwd. rewrite call_catch_stopfwd.
      destruct (call_forward engine (orig_forward s) args s) as [s' [v|e']];
        simpl; [discriminate|].
      intros Hx. injection Hx as ->. now destruct e.
    + apply catch_stopfwd_no_escape.
Qed.

Lemma catch_stopfwd_returns_none_witness :
  snd (catch_stopfwd Fixtures.hooked_engine
         (GptqMode.init Fixtures.one_layer_model true true 4 false)
         (PlainTensor (Tensor3D [[Fixtures.const_vec 1]])))
  = Returns None.
Proof.
  apply (proj1 (proj2 (catch_stopfwd_returns_none
                         Fixtures.hooked_engine
                         (GptqMode.init Fixtures.one_layer_model true true 4 false)
                         (PlainTensor (Tensor3D [[Fixtures.const_vec 1]]))))
               (Some (Tensor3D [[Fixtures.const_vec 1]]))).
  reflexivity.
Defined.

Lemma update_batch_stops_and_wrapper_catches_witness :
  snd (update_batch
         (Fixtures.gptq (Fixtures.linear 1 1 (Fixtures.const_mat 1)
                                         Fixtures.round_half)
                        "fc" 4 false zeros3 0)
         (PlainTensor (Tensor3D [[Fixtures.const_vec 1]]))
         {| layer_name := None |})
  = Raises StopFwdException.
Proof.
  apply (proj1 update_batch_stops_and_wrapper_catches
               (Fixtures.gptq (Fixtures.linear 1 1 (Fixtures.const_mat 1)
                                               Fixtures.round_half)
                              "fc" 4 false zeros3 0)
               (PlainTensor (Tensor3D [[Fixtures.const_vec 1]]))
               {| layer_name := None |}
               zeros3 eq_refl eq_refl (le_n 1)).
Defined.

(** On a fresh object an empty batch ends [update_batch] with
    [ZeroDivisionError], before the accumulator and the sample count are
    touched. *)
Lemma update_batch_empty_first_batch :
  let self := Fixtures.gptq (Fixtures.linear 1 1 (Fixtures.const_mat 1)
                                             Fixtures.round_half)
                            "fc" 4 false zeros3 0 in
  let out := update_batch self (PlainTensor (Tensor3D []))
                          {| layer_name := None |} in
  snd out = Raises ZeroDivisionError
  /\ snd out <> Raises StopFwdException
  /\ fst (fst out) = self.
Proof.
  cbv zeta. split; [reflexivity|]. split; [discriminate|reflexivity].
Qed.

(** ** Leaving the scope *)

Lemma enter_keeps_entry (s : Session) :
  orig_forward (fst (fst (enter s))) = orig_forward s
  /\ forward (model (fst (fst (enter s)))) = forward (model s)
  /\ use_quant_activations (fst (fst (enter s))) = use_quant_activations s.
Proof.
  unfold enter.
  destruct (enter_modules _ _ _ _ _ _ _) as [[[[ms hd] gl] warns] r].
  destruct r; simpl; [|auto].
  destruct (use_quant_activations s); auto.
Qed.

Lemma update_keeps_entry (s : Session) :
  orig_forward (fst (fst (update s))) = orig_forward s
  /\ forward (model (fst (fst (update s)))) = forward (model s)
  /\ use_quant_activations (fst (fst (update s))) = use_quant_activations s.
Proof.
  unfold update.
  destruct (layer_name (current_layer s)) as [nm|]; [|auto].
  destruct (dict_get (gptq_layers s) nm) as [g|]; [|auto].
  destruct (single_layer_update g default_percdamp) as [[g' warns] r].
  destruct r; [|auto].
  destruct (dict_get (hook_dict s) nm); auto.
Qed.

Lemma call_forward_keeps_entry (engine : Engine) (f : Forward)
      (args : Activation) (s : Session) :
  engine_keeps_entry engine ->
  orig_forward (fst (call_forward engine f args s)) = orig_forward s
  /\ forward (model (fst (call_forward engine f args s))) = forward (model s)
  /\ use_quant_activations (fst (call_forward engine f args s))
     = use_quant_activations s.
Proof.
  intros Hk. induction f as [id|orig IH]; simpl.
  - specialize (Hk id args s).
    destruct (engine id args s) as [s' [t|e]]; exact Hk.
  - destruct (call_forward engine orig args s) as [s' [v|e]]; [exact IH|].
    destruct e; exact IH.
Qed.

Lemma run_ops_keeps_entry (engine : Engine) (ops : list Op) (s : Session) :
  engine_keeps_entry engine ->
  orig_forward (run_ops engine s ops) = orig_forward s
  /\ forward (model (run_ops engine s ops)) = forward (model s)
  /\ use_quant_activations (run_ops engine s ops) = use_quant_activations s.
Proof.
  intros Hk. revert s. induction ops as [|o ops IH]; intros s.
  - auto.
  - unfold run_ops in *. simpl.
    destruct (IH (run_op engine s o)) as (-> & -> & ->).
    destruct o; simpl.
    + apply enter_keeps_entry.
    + apply update_keeps_entry.
    + now apply call_forward_keeps_entry.
Qed.

(** C9, as amended.  On exit, however the scope is left, the model's
    forward entry point is the function saved at construction (also after
    any sequence of [__enter__], [update] and forward calls), activation
    and bias quantization are switched on if [use_quant_activations] was
    false and are left as they were otherwise, and the modules keep the
    forward hooks they had when the scope was left: [__exit__] removes
    none, a hook is removed only by [update]. *)
Theorem exit_restores_entry_point :
  forall (engine : Engine) (m : Model) (inplace uqa : bool) (nb : nat)
         (ao : bool) (ops : list Op) (exc : option exn),
    engine_keeps_entry engine ->
    let s := run_ops engine (GptqMode.init m inplace uqa nb ao) ops in
    forward (model (exit s exc)) = forward m
    /\ orig_forward s = forward m
    /\ use_quant_activations s = uqa
    /\ (uqa = false ->
        act_quant_enabled (model (exit s exc)) = true
        /\ bias_quant_enabled (model (exit s exc)) = true)
    /\ (uqa = true ->
        act_quant_enabled (model (exit s exc)) = act_quant_enabled (model s)
        /\ bias_quant_enabled (model (exit s exc))
           = bias_quant_enabled (model s))
    /\ named_modules (model (exit s exc)) = named_modules (model s).
Proof.
  intros engine m inplace uqa nb ao ops exc Hk s.
  destruct (run_ops_keeps_entry ops (GptqMode.init m inplace uqa nb ao) Hk)
    as (Ho & _ & Hu).
  fold s in Ho, Hu. simpl in Ho, Hu.
  unfold exit. rewrite Hu, Ho.
  destruct uqa; simpl; repeat split; try reflexivity; discriminate.
Qed.

Lemma run_hooks_keeps_entry (hooks : list Hook) (args : Activation)
      (s : Session) :
  orig_forward (fst (Fixtures.run_hooks hooks args s)) = orig_forward s
  /\ model (fst (Fixtures.run_hooks hooks args s)) = model s
  /\ use_quant_activations (fst (Fixtures.run_hooks hooks args s))
     = use_quant_activations s.
Proof.
  revert s. induction hooks as [|h hooks IH]; intros s; simpl.
  - auto.
  - destruct h as [id|nm]; [apply IH|].
    destruct (dict_get (gptq_layers s) nm) as [g|]; [|auto].
    destruct (update_batch g args (current_layer s)) as [[g' cl] r].
    destruct r as [u|e]; [|simpl; auto].
    match goal with |- context [Fixtures.run_hooks hooks args ?s1] =>
      destruct (IH s1) as (-> & -> & ->) end.
    simpl. auto.
Qed.

Lemma hooked_engine_keeps_entry : engine_keeps_entry Fixtures.hooked_engine.
Proof.
  intros id args s. unfold Fixtures.hooked_engine.
  match goal with |- context [Fixtures.run_hooks ?hs args s] =>
    destruct (run_hooks_keeps_entry hs args s) as (Ho & Hm & Hu);
    destruct (Fixtures.run_hooks hs args s) as [s' [u|e]] end;
    simpl in *; rewrite Ho, Hm, Hu; auto.
Qed.

Lemma exit_restores_entry_point_witness :
  forward (model (exit (run_ops Fixtures.hooked_engine
                          (GptqMode.init Fixtures.one_layer_model
                                         true false 4 false)
                          [OpEnter;
                           OpForward (PlainTensor
                                        (Tensor3D [[Fixtures.const_vec 1]]));
                           OpUpdate])
                       (Some (UserError "interrupted"))))
  = UserForward 0.
Proof.
  exact (proj1 (exit_restores_entry_point
                  Fixtures.one_layer_model true false 4 false
                  [OpEnter;
                   OpForward (PlainTensor (Tensor3D [[Fixtures.const_vec 1]]));
                   OpUpdate]
                  (Some (UserError "interrupted"))
                  hooked_engine_keeps_entry)).
Defined.

(** Leaving the scope right after entering it: the entry point is restored,
    yet the hook installed on the layer is still there, and a forward pass
    of the model now ends with [StopFwdException] at the caller. *)
Lemma exit_leaves_hooks :
  let s := exit (run_ops Fixtures.hooked_engine
                   (GptqMode.init Fixtures.one_layer_model true true 4 false)
                   [OpEnter]) None in
  forward (model s) = forward Fixtures.one_layer_model
  /\ all_forward_hooks (model s) = [("fc"%string, [GptqHook "fc"])]
  /\ all_forward_hooks (model s) <> all_forward_hooks Fixtures.one_layer_model
  /\ snd (call_forward Fixtures.hooked_engine (forward (model s))
                       (PlainTensor (Tensor3D [[Fixtures.const_vec 1]])) s)
     = Raises StopFwdException.
Proof.
  cbv zeta. split; [reflexivity|]. split; [reflexivity|].
  split; [discriminate|reflexivity].
Qed.

(** ** [single_layer_update] when the inversion fails *)

Lemma single_layer_update_failure (self : GPTQ) (h : Tensor3) (pd : R) :
  H self = Some h ->
  invert_groups pd (columns self) (seq 0 (groups self)) (p_H (prepare self h))
  = None ->
  single_layer_update self pd
  = (set_H (set_weight self (p_weight (prepare self h))) None (nsamples self),
     [warning self], Returns tt).
Proof.
  intros Hh Hinv. unfold single_layer_update. rewrite Hh. simpl.
  now rewrite Hinv.
Qed.

Lemma dead_zeroed_live_cols (self : GPTQ) (h : Tensor3) (W : Mat) (r c : nat) :
  (forall g k, (k < columns self)%nat -> h g k k <> 0) ->
  dead_zeroed self h W r c = W r c.
Proof.
  intros Hlive.
  assert (Hm : forall g, dead_mask (columns self) (h g) c = false).
  { intros g. unfold dead_mask.
    destruct (c <? columns self)%nat eqn:Hc; [|reflexivity].
    apply Nat.ltb_lt in Hc.
    destruct (Req_dec_T (h g c c) 0) as [E|_]; [now elim (Hlive g c)|].
    reflexivity. }
  unfold dead_zeroed.
  destruct (1 <? groups self)%nat; rewrite Hm; [|reflexivity].
  now rewrite andb_false_r.
Qed.

(** ** Dictionaries and the modules of the session *)

Lemma dict_get_set_same (A : Type) (d : list (string * A)) (k : string)
      (v : A) :
  dict_get (dict_set d k v) k = Some v.
Proof.
  induction d as [|[k' v'] t IH]; simpl.
  - now rewrite String.eqb_refl.
  - destruct (String.eqb k' k) eqn:E; simpl; rewrite E; auto.
Qed.

Lemma dict_get_set_other (A : Type) (d : list (string * A)) (k k' : string)
      (v : A) :
  k' <> k -> dict_get (dict_set d k v) k' = dict_get d k'.
Proof.
  intros Hne. induction d as [|[k0 v0] t IH]; simpl.
  - destruct (String.eqb k k') eqn:E; [|reflexivity].
    apply String.eqb_eq in E. congruence.
  - destruct (String.eqb k0 k) eqn:E; simpl; [|now rewrite IH].
    apply String.eqb_eq in E. subst k0.
    destruct (String.eqb k k') eqn:E'; [|reflexivity].
    apply String.eqb_eq in E'. congruence.
Qed.

Lemma dict_get_store_layer (ms : list (string * ModuleState)) (nm k : string)
      (l : Layer) :
  dict_get (store_layer ms nm l) k
  = if String.eqb nm k
    then option_map (fun md => detached md l (_forward_hooks md))
                    (dict_get ms k)
    else dict_get ms k.
Proof.
  induction ms as [|[k0 md] t IH]; simpl.
  - now destruct (String.eqb nm k).
  - destruct (String.eqb k0 nm) eqn:E; simpl.
    + apply String.eqb_eq in E. subst k0.
      now destruct (String.eqb nm k).
    + rewrite IH. destruct (String.eqb k0 k) eqn:E'; [|reflexivity].
      apply String.eqb_eq in E'. subst k0. now rewrite String.eqb_sym, E.
Qed.

Lemma dict_get_remove_hook (ms : list (string * ModuleState)) (nm k : string) :
  dict_get (remove_hook ms nm (GptqHook nm)) k
  = if String.eqb nm k
    then option_map
           (fun md => detached md (m_layer md)
                        (filter (fun h' => match h' with
                                           | GptqHook b => negb (String.eqb nm b)
                                           | UserHook _ => true
                                           end) (_forward_hooks md)))
           (dict_get ms k)
    else dict_get ms k.
Proof.
  induction ms as [|[k0 md] t IH]; simpl.
  - now destruct (String.eqb nm k).
  - destruct (String.eqb k0 nm) eqn:E; simpl.
    + apply String.eqb_eq in E. subst k0.
      now destruct (String.eqb nm k).
    + rewrite IH. destruct (String.eqb k0 k) eqn:E'; [|reflexivity].
      apply String.eqb_eq in E'. subst k0. now rewrite String.eqb_sym, E.
Qed.

Lemma store_layer_names (ms : list (string * ModuleState)) (nm : string)
      (l : Layer) :
  map fst (store_layer ms nm l) = map fst ms.
Proof.
  induction ms as [|[k0 md] t IH]; simpl; [reflexivity|].
  destruct (String.eqb k0 nm); simpl; [reflexivity|now rewrite IH].
Qed.

Lemma remove_hook_names (ms : list (string * ModuleState)) (nm : string)
      (h : Hook) :
  map fst (remove_hook ms nm h) = map fst ms.
Proof.
  induction ms as [|[k0 md] t IH]; simpl; [reflexivity|].
  destruct (String.eqb k0 nm); simpl; [reflexivity|now rewrite IH].
Qed.

Lemma filter_last_hook (nm : string) (hs : list Hook) :
  ~ In (GptqHook nm) hs ->
  filter (fun h' => match h' with
                    | GptqHook b => negb (String.eqb nm b)
                    | UserHook _ => true
                    end) (hs ++ [GptqHook nm])
  = hs.
Proof.
  intros Hn. rewrite filter_app. simpl. rewrite String.eqb_refl. simpl.
  rewrite app_nil_r. induction hs as [|x t IH]; simpl; [reflexivity|].
  simpl in Hn. destruct x as [id|b].
  - rewrite IH; tauto.
  - destruct (String.eqb nm b) eqn:E.
    + apply String.eqb_eq in E. subst b. tauto.
    + simpl. rewrite IH; tauto.
Qed.

(** What a call of [update] that gets through [single_layer_update] does to
    the session, when the hook of the layer is the last forward hook of
    its module. *)
Lemma update_detaches (s : Session) (nm : string) (g : GPTQ)
      (md : ModuleState) (hs : list Hook) :
  layer_name (current_layer s) = Some nm ->
  dict_get (gptq_layers s) nm = Some g ->
  dict_get (hook_dict s) nm = Some (GptqHook nm) ->
  dict_get (named_modules (model s)) nm = Some md ->
  _forward_hooks md = hs ++ [GptqHook nm] -> ~ In (GptqHook nm) hs ->
  snd (single_layer_update g default_percdamp) = Returns tt ->
  let g' := fst (fst (single_layer_update g default_percdamp)) in
  let s' := fst (fst (update s)) in
  snd (update s) = Returns tt
  /\ snd (fst (update s)) = snd (fst (single_layer_update g default_percdamp))
  /\ dict_get (named_modules (model s')) nm
     = Some (detached md (layer g') hs)
  /\ (forall k, k <> nm ->
                dict_get (named_modules (model s')) k
                = dict_get (named_modules (model s)) k)
  /\ map fst (named_modules (model s')) = map fst (named_modules (model s))
  /\ dict_get (gptq_layers s') nm = Some g'
  /\ (forall k, k <> nm ->
                dict_get (gptq_layers s') k = dict_get (gptq_layers s) k)
  /\ hook_dict s' = hook_dict s /\ num_layers s' = num_layers s
  /\ current_layer s' = current_layer s.
Proof.
  intros Hcl Hg Hhk Hmd Hhooks Hnin Hret. cbv zeta.
  unfold update. rewrite Hcl, Hg.
  destruct (single_layer_update g default_percdamp) as [[g' ws] r].
  cbn [fst snd] in Hret |- *. subst r. rewrite Hhk.
  cbn [fst snd current_layer gptq_layers set_model model set_modules
       named_modules hook_dict num_layers].
  split; [reflexivity|]. split; [reflexivity|].
  split; [|split; [|split; [|split; [|split; [|auto]]]]].
  - rewrite dict_get_remove_hook, dict_get_store_layer, String.eqb_refl, Hmd.
    cbn [option_map]. unfold detached.
    cbn [m_layer _forward_hooks _forward_pre_hooks].
    now rewrite Hhooks, (@filter_last_hook nm hs Hnin).
  - intros k Hk. rewrite dict_get_remove_hook, dict_get_store_layer.
    destruct (String.eqb nm k) eqn:E; [|reflexivity].
    apply String.eqb_eq in E. congruence.
  - now rewrite remove_hook_names, store_layer_names.
  - apply dict_get_set_same.
  - intros k Hk. now apply dict_get_set_other.
Qed.

(** C2, as amended.  When the inversion fails for some group, the call
    returns without raising, one warning naming the layer is emitted, the
    accumulator is released, and the layer's weight is its value before the
    call with the dead columns (zero accumulator diagonal) set to zero: it
    is unchanged when no column is dead.  [gptq_mode.update] then returns
    normally too, with that warning, and detaches the layer's hook: the
    module of the layer has the forward hooks it had before the GPTQ hook
    was registered, and every other module and GPTQ object of the session
    is as it was, so the session goes on with the other layers. *)
Theorem single_layer_update_failure_keeps_live_weights :
  forall (self : GPTQ) (h : Tensor3) (pd : R),
    H self = Some h ->
    invert_groups pd (columns self) (seq 0 (groups self))
                  (p_H (prepare self h)) = None ->
    let out := single_layer_update self pd in
    snd out = Returns tt
    /\ snd (fst out) = [warning self]
    /\ H (fst (fst out)) = None
    /\ (forall r c,
           weight (layer (fst (fst out))) r c
           = dead_zeroed self h (weight (layer self)) r c)
    /\ ((forall g k, (k < columns self)%nat -> h g k k <> 0) ->
        forall r c, weight (layer (fst (fst out))) r c = weight (layer self) r c)
    /\ (forall (s : Session) (nm : string) (md : ModuleState)
               (hs : list Hook),
           pd = default_percdamp ->
           layer_name (current_layer s) = Some nm ->
           dict_get (gptq_layers s) nm = Some self ->
           dict_get (hook_dict s) nm = Some (GptqHook nm) ->
           dict_get (named_modules (model s)) nm = Some md ->
           _forward_hooks md = hs ++ [GptqHook nm] ->
           ~ In (GptqHook nm) hs ->
           let s' := fst (fst (update s)) in
           snd (update s) = Returns tt
           /\ snd (fst (update s)) = [warning self]
           /\ dict_get (named_modules (model s')) nm
              = Some (detached md (layer (fst (fst out))) hs)
           /\ dict_get (gptq_layers s') nm = Some (fst (fst out))
           /\ forall k, k <> nm ->
                        dict_get (named_modules (model s')) k
                        = dict_get (named_modules (model s)) k
                        /\ dict_get (gptq_layers s') k
                           = dict_get (gptq_layers s) k).
Proof.
  intros self h pd Hh Hinv. cbv zeta.
  pose proof (single_layer_update_failure self pd Hh Hinv) as Hfail.
  destruct (prepare_spec self h) as (_ & _ & _ & HW).
  split; [now rewrite Hfail|]. split; [now rewrite Hfail|].
  split; [now rewrite Hfail|].
  split; [intros r c; rewrite Hfail; apply HW|].
  split.
  - intros Hlive r c. rewrite Hfail.
    cbn [fst layer weight set_H set_weight set_layer with_weight].
    rewrite HW. now apply dead_zeroed_live_cols.
  - intros s nm md hs -> Hcl Hg Hhk Hmd Hhooks Hnin. cbv zeta.
    destruct (@update_detaches s nm self md hs Hcl Hg Hhk Hmd Hhooks Hnin)
      as (Hret & Hw & Hmod & Hother & _ & Hgl & Hglo & _).
    { now rewrite Hfail. }
    split; [exact Hret|]. split; [now rewrite Hw, Hfail|].
    split; [exact Hmod|]. split; [exact Hgl|].
    intros k Hk. split; [now apply Hother|now apply Hglo].
Qed.

(** ** Cholesky: failure *)

Ltac decide_R :=
  repeat match goal with
  | |- context [Req_dec_T ?a ?b] => destruct (Req_dec_T a b); try lra
  | |- context [Rlt_dec ?a ?b] => destruct (Rlt_dec a b); try lra
  | |- context [Rle_dec ?a ?b] => destruct (Rle_dec a b); try lra
  end.

Lemma chol_rows_None_le (A : Mat) (k n : nat) :
  (k <= n)%nat -> chol_rows A k = None -> chol_rows A n = None.
Proof.
  intros Hle Hk. induction Hle as [|n Hle IH]; [exact Hk|].
  simpl. now rewrite IH.
Qed.

Lemma invert_group_fails (pd : R) (n k : nat) (A : Mat) :
  (k <= n)%nat ->
  chol_rows (add_damping pd n A) k = None ->
  invert_group pd n A = None.
Proof.
  intros Hle Hk. unfold invert_group, cholesky.
  now rewrite (chol_rows_None_le _ Hle Hk).
Qed.

(** The second pivot of the factorisation is not positive. *)
Lemma chol_rows_second_pivot (A : Mat) :
  0 < A 0%nat 0%nat ->
  A 1%nat 1%nat * A 0%nat 0%nat <= A 1%nat 0%nat * A 1%nat 0%nat ->
  chol_rows A 2 = None.
Proof.
  intros H0 H1. simpl.
  destruct (Rlt_dec 0 (A 0%nat 0%nat - 0)) as [_|Hn]; [|exfalso; lra].
  simpl.
  match goal with
  | |- (if Rlt_dec 0 ?p then _ else _) = _ =>
      destruct (Rlt_dec 0 p) as [Hp|_]
  end; [|reflexivity].
  exfalso. rewrite !Rminus_0_r, Rplus_0_l in Hp.
  pose proof (sqrt_lt_R0 _ H0) as Hs.
  pose proof (sqrt_sqrt _ (Rlt_le _ _ H0)) as Hss.
  set (s := sqrt (A 0%nat 0%nat)) in *.
  replace (A 1%nat 0%nat / s * (A 1%nat 0%nat / s))
    with (A 1%nat 0%nat * A 1%nat 0%nat / A 0%nat 0%nat) in Hp
    by (rewrite <- Hss; field; lra).
  assert (Hq : A 1%nat 0%nat * A 1%nat 0%nat / A 0%nat 0%nat
               >= A 1%nat 1%nat).
  { apply Rle_ge. apply (Rmult_le_reg_r (A 0%nat 0%nat)); [exact H0|].
    replace (A 1%nat 0%nat * A 1%nat 0%nat / A 0%nat 0%nat * A 0%nat 0%nat)
      with (A 1%nat 0%nat * A 1%nat 0%nat) by (field; lra).
    exact H1. }
  lra.
Qed.

Lemma ill_fix_dead_entries :
  let M := fix_dead 3 Fixtures.indefinite_with_dead_column in
  M 0%nat 0%nat = 1 /\ M 1%nat 1%nat = 1 /\ M 2%nat 2%nat = 1
  /\ M 1%nat 0%nat = 2.
Proof.
  cbv zeta. unfold fix_dead, set_diag_where, dead_mask,
    Fixtures.indefinite_with_dead_column, Fixtures.mat_of.
  simpl. decide_R; auto.
Qed.

(** The damped accumulator of [ill_conditioned] is not positive-definite:
    the second pivot of its factorisation is negative. *)
Lemma ill_conditioned_inversion_fails :
  invert_groups default_percdamp (columns Fixtures.ill_conditioned)
                (seq 0 (groups Fixtures.ill_conditioned))
                (p_H (prepare Fixtures.ill_conditioned
                        (Fixtures.one_group
                           Fixtures.indefinite_with_dead_column)))
  = None.
Proof.
  destruct (prepare_spec Fixtures.ill_conditioned
              (Fixtures.one_group Fixtures.indefinite_with_dead_column))
    as (_ & _ & HH & _).
  change (seq 0 (groups Fixtures.ill_conditioned)) with [0%nat].
  unfold invert_groups.
  rewrite (HH 0%nat) by (simpl; lia).
  unfold group_H. change (act_order Fixtures.ill_conditioned) with false.
  cbv iota. change (columns Fixtures.ill_conditioned) with 3%nat.
  unfold Fixtures.one_group.
  rewrite (@invert_group_fails default_percdamp 3 2); [reflexivity|lia|].
  destruct ill_fix_dead_entries as (E00 & E11 & E22 & E10).
  apply chol_rows_second_pivot;
    unfold add_damping, mean, diag, default_percdamp;
    simpl; rewrite ?E00, ?E11, ?E22, ?E10; lra.
Qed.

(** The accumulator [update_batch] has built for [rank_one]: every entry
    is 4. *)
Lemma rank_one_accumulator :
  exists h, H Fixtures.rank_one = Some h /\ forall g i j, h g i j = 4.
Proof.
  destruct (@after_batch_updated
              (Fixtures.gptq (Fixtures.linear 1 2 (Fixtures.const_mat 1)
                                              Fixtures.round_half)
                             "fc" 4 false zeros3 0)
              (PlainTensor (Tensor3D [[Fixtures.const_vec 2];
                                      [Fixtures.const_vec 0]]))
              (Stacked (fun _ => concat [[Fixtures.const_vec 2];
                                         [Fixtures.const_vec 0]]) None)
              (fun _ => concat [[Fixtures.const_vec 2];
                                [Fixtures.const_vec 0]])
              zeros3 eq_refl eq_refl eq_refl)
    as (h & E & Hval); [discriminate|].
  exists h. unfold Fixtures.rank_one. rewrite E. split; [reflexivity|].
  intros g i j. rewrite Hval.
  unfold zeros3, bmm_transpose, Fixtures.const_vec. simpl. lra.
Qed.

(** Without damping the accumulator of [rank_one] is singular: the second
    pivot of its factorisation is zero. *)
Lemma rank_one_inversion_fails (h : Tensor3) :
  (forall g i j, h g i j = 4) ->
  invert_groups 0 (columns Fixtures.rank_one)
                (seq 0 (groups Fixtures.rank_one))
                (p_H (prepare Fixtures.rank_one h))
  = None.
Proof.
  intros Hval.
  destruct (prepare_spec Fixtures.rank_one h) as (_ & _ & HH & _).
  change (seq 0 (groups Fixtures.rank_one)) with [0%nat].
  unfold invert_groups.
  rewrite (HH 0%nat) by (simpl; lia).
  unfold group_H. change (act_order Fixtures.rank_one) with false.
  cbv iota. change (columns Fixtures.rank_one) with 2%nat.
  rewrite (@invert_group_fails 0 2 2); [reflexivity|lia|].
  assert (Hfix : forall r c, fix_dead 2 (h 0%nat) r c = 4).
  { intros r c. unfold fix_dead, set_diag_where, dead_mask.
    rewrite !Hval. destruct (Req_dec_T 4 0) as [E|_]; [lra|].
    now rewrite !andb_false_r. }
  apply chol_rows_second_pivot; unfold add_damping; simpl;
    rewrite !Hfix; lra.
Qed.

Lemma single_layer_update_failure_keeps_live_weights_witness :
  (snd (single_layer_update Fixtures.rank_one 0) = Returns tt
   /\ weight (layer (fst (fst (single_layer_update Fixtures.rank_one 0))))
             0%nat 1%nat
      = weight (layer Fixtures.rank_one) 0%nat 1%nat)
  /\ snd (single_layer_update Fixtures.ill_conditioned default_percdamp)
     = Returns tt.
Proof.
  split.
  - destruct rank_one_accumulator as (h & Hh & Hval).
    destruct (@single_layer_update_failure_keeps_live_weights
                Fixtures.rank_one h 0 Hh (rank_one_inversion_fails h Hval))
      as (Hret & _ & _ & _ & Hlive & _).
    split; [exact Hret|].
    apply Hlive. intros g k _. rewrite Hval. lra.
  - exact (proj1 (single_layer_update_failure_keeps_live_weights
                    Fixtures.ill_conditioned default_percdamp
                    eq_refl ill_conditioned_inversion_fails)).
Defined.

(** The inversion fails for [ill_conditioned], the call returns with the
    warning, and the weight of the dead third column has gone from 1 to 0. *)
Lemma failure_zeroes_dead_column :
  let out := single_layer_update Fixtures.ill_conditioned default_percdamp in
  snd out = Returns tt
  /\ snd (fst out) = [warning Fixtures.ill_conditioned]
  /\ weight (layer Fixtures.ill_conditioned) 0%nat 2%nat = 1
  /\ weight (layer (fst (fst out))) 0%nat 2%nat = 0
  /\ weight (layer (fst (fst out))) 0%nat 2%nat
     <> weight (layer Fixtures.ill_conditioned) 0%nat 2%nat.
Proof.
  cbv zeta.
  rewrite (single_layer_update_failure Fixtures.ill_conditioned
             default_percdamp eq_refl ill_conditioned_inversion_fails).
  destruct (prepare_spec Fixtures.ill_conditioned
              (Fixtures.one_group Fixtures.indefinite_with_dead_column))
    as (_ & _ & _ & HW).
  assert (E : p_weight (prepare Fixtures.ill_conditioned
                          (Fixtures.one_group
                             Fixtures.indefinite_with_dead_column))
                       0%nat 2%nat = 0).
  { rewrite HW. unfold dead_zeroed, dead_mask. simpl.
    unfold Fixtures.one_group, Fixtures.indefinite_with_dead_column,
      Fixtures.mat_of. simpl. decide_R; auto. }
  cbn [fst snd layer weight set_H set_weight set_layer with_weight].
  rewrite E. unfold Fixtures.ill_conditioned, Fixtures.gptq, Fixtures.linear,
    Fixtures.const_mat.
  cbn [layer weight].
  repeat split; try reflexivity. lra.
Qed.

(** ** Writing columns through an index list *)

Lemma put_cols_fold_other (sel : nat -> bool) (idx : list nat)
      (V : nat -> nat -> R) (ps : list nat) (W : Mat) (r c : nat) :
  sel r = false \/ (forall p, In p ps -> nth p idx 0%nat <> c) ->
  fold_left
    (fun (W : Mat) (p : nat) =>
       fun r c => if sel r && (c =? nth p idx 0%nat)%nat then V r p else W r c)
    ps W r c
  = W r c.
Proof.
  revert W. induction ps as [|p ps IH]; intros W Hc; simpl.
  - reflexivity.
  - rewrite IH.
    + destruct Hc as [Hs|Hc].
      * now rewrite Hs.
      * assert (Hn : nth p idx 0%nat <> c) by (apply Hc; now left).
        assert (E : (c =? nth p idx 0%nat)%nat = false)
          by (apply Nat.eqb_neq; congruence).
        now rewrite E, andb_false_r.
    + destruct Hc as [Hs|Hc]; [now left|right].
      intros p' Hp'. apply Hc. now right.
Qed.

Lemma put_cols_other (sel : nat -> bool) (idx : list nat)
      (V : nat -> nat -> R) (W : Mat) (r c : nat) :
  sel r = false \/ ~ In c idx ->
  put_cols sel idx V W r c = W r c.
Proof.
  intros Hc. unfold put_cols. apply put_cols_fold_other.
  destruct Hc as [Hs|Hc]; [now left|right].
  intros p Hp Heq. apply Hc. rewrite <- Heq. apply nth_In.
  apply in_seq in Hp. lia.
Qed.

Lemma put_cols_hit (sel : nat -> bool) (idx : list nat)
      (V : nat -> nat -> R) (W : Mat) (r p : nat) :
  NoDup idx -> (p < length idx)%nat -> sel r = true ->
  put_cols sel idx V W r (nth p idx 0%nat) = V r p.
Proof.
  intros Hnd Hp Hs. unfold put_cols.
  assert (Hsplit : seq 0 (length idx)
                   = seq 0 p ++ p :: seq (S p) (length idx - S p)).
  { replace (length idx) with (p + S (length idx - S p))%nat at 1 by lia.
    rewrite seq_app. simpl. reflexivity. }
  rewrite Hsplit, fold_left_app. simpl.
  rewrite put_cols_fold_other.
  - now rewrite Hs, Nat.eqb_refl.
  - right. intros p' Hp' Heq. apply in_seq in Hp'.
    apply (proj1 (NoDup_nth idx 0%nat) Hnd) in Heq; lia.
Qed.

Lemma sub_cols_other (sel : nat -> bool) (idx : list nat)
      (D : nat -> nat -> R) (W : Mat) (r c : nat) :
  sel r = false \/ ~ In c idx ->
  sub_cols sel idx D W r c = W r c.
Proof. apply put_cols_other. Qed.

(** ** Slices of a list without repetition *)

Lemma slice_length (A : Type) (a b : nat) (l : list A) :
  (b <= length l)%nat -> length (slice a b l) = (b - a)%nat.
Proof.
  intros Hb. unfold slice. rewrite length_firstn, length_skipn. lia.
Qed.

Lemma nth_skipn (A : Type) (k p : nat) (l : list A) (d : A) :
  nth p (skipn k l) d = nth (k + p) l d.
Proof.
  revert l. induction k as [|k IH]; intros l; simpl.
  - reflexivity.
  - destruct l as [|x l]; simpl; [now destruct p|apply IH].
Qed.

Lemma nth_firstn (A : Type) (k p : nat) (l : list A) (d : A) :
  (p < k)%nat -> nth p (firstn k l) d = nth p l d.
Proof.
  revert p l. induction k as [|k IH]; intros p l Hp; [lia|].
  destruct l as [|x l]; simpl; [reflexivity|].
  destruct p as [|p]; [reflexivity|]. apply IH. lia.
Qed.

Lemma nth_slice (a b p : nat) (l : list nat) :
  (p < b - a)%nat -> nth p (slice a b l) 0%nat = nth (a + p) l 0%nat.
Proof.
  intros Hp. unfold slice. now rewrite nth_firstn, nth_skipn.
Qed.

Lemma NoDup_skipn (A : Type) (k : nat) (l : list A) :
  NoDup l -> NoDup (skipn k l).
Proof.
  intros Hnd. rewrite <- (firstn_skipn k l) in Hnd.
  now apply NoDup_app_remove_l in Hnd.
Qed.

Lemma NoDup_firstn (A : Type) (k : nat) (l : list A) :
  NoDup l -> NoDup (firstn k l).
Proof.
  intros Hnd. rewrite <- (firstn_skipn k l) in Hnd.
  now apply NoDup_app_remove_r in Hnd.
Qed.

Lemma NoDup_slice (A : Type) (a b : nat) (l : list A) :
  NoDup l -> NoDup (slice a b l).
Proof. intros Hnd. unfold slice. now apply NoDup_firstn, NoDup_skipn. Qed.

(** An element at a position below [k] is not among the elements from
    position [k] on. *)
Lemma NoDup_nth_not_in_skipn (k p : nat) (l : list nat) :
  NoDup l -> (p < k)%nat -> (p < length l)%nat ->
  ~ In (nth p l 0%nat) (skipn k l).
Proof.
  intros Hnd Hpk Hpl Hin.
  apply (In_nth _ _ 0%nat) in Hin. destruct Hin as (p' & Hp' & Heq).
  rewrite nth_skipn in Heq. rewrite length_skipn in Hp'.
  apply (proj1 (NoDup_nth l 0%nat) Hnd) in Heq; lia.
Qed.

(** ** The block loop drives each processed column to the quantized value *)

Lemma uniform_nth (pl : list (list nat)) (pv : list nat) (r : nat) :
  uniform pl pv -> (r < length pl)%nat -> nth r pl [] = pv.
Proof. intros [_ Hall] Hr. apply Hall. now apply nth_In. Qed.

Lemma uniform_nth0 (pl : list (list nat)) (pv : list nat) :
  uniform pl pv -> nth 0 pl [] = pv.
Proof.
  intros Hu. apply (uniform_nth Hu). destruct Hu as [Hne _].
  destruct pl; [congruence|simpl; lia].
Qed.

Lemma uniform_last (pl : list (list nat)) (pv d : list nat) :
  uniform pl pv -> last pl d = pv.
Proof.
  intros [Hne Hall]. apply Hall.
  destruct (exists_last Hne) as (l' & x & ->).
  rewrite last_last. apply in_or_app. right. now left.
Qed.

Section BlockLoop.

Variable self : GPTQ.
Variable h_inv : Tensor3.
Variable pr : Prepared.
Variable pv : list nat.

Let pl := permutation_list pr.

Hypothesis Huni : uniform pl pv.
Hypothesis Hnd : NoDup pv.
Hypothesis Hlen : length pv = columns self.
Hypothesis Hdiag :
  forall g p, (g < ngroups self)%nat -> (p < columns self)%nat ->
              h_inv g p p <> 0.

Lemma block_end_le_columns (b : nat) : (block_end self b <= columns self)%nat.
Proof. unfold block_end. lia. Qed.

Lemma block_end_le_next (b k : nat) :
  (b < k)%nat -> (block_end self b <= block_start self k)%nat.
Proof. unfold block_end, block_start. nia. Qed.

Lemma column_step_perm (i1 i2 i : nat) (st : LoopState) :
  ls_perm (column_step self h_inv pl i1 i2 i st) = ls_perm st.
Proof. reflexivity. Qed.

Lemma block_enter_perm (b : nat) (st : LoopState) :
  ls_perm (block_enter self pl b st) = pv.
Proof.
  unfold block_enter. destruct (groups self =? 1)%nat; simpl.
  - now apply uniform_nth0.
  - now apply uniform_last.
Qed.

Lemma block_enter_weight (b : nat) (st : LoopState) :
  ls_weight (block_enter self pl b st) = ls_weight st.
Proof. unfold block_enter. now destruct (groups self =? 1)%nat. Qed.

Lemma block_columns_perm (b k : nat) (st : LoopState) :
  ls_perm (block_columns self h_inv pl b k st) = pv.
Proof.
  unfold block_columns. induction k as [|k IH].
  - rewrite for_range_0. apply block_enter_perm.
  - rewrite for_range_S, column_step_perm. exact IH.
Qed.

Lemma column_step_hit (i1 i2 i r : nat) (st : LoopState) :
  ls_perm st = pv -> (i2 <= columns self)%nat -> (i1 + i < i2)%nat ->
  row_ok self r ->
  ls_weight (column_step self h_inv pl i1 i2 i st) r (nth (i1 + i) pv 0%nat)
  = get_quant_weights self (ls_weight st) i i1 i2 pl r.
Proof.
  intros Hp Hi2 Hi Hr. unfold column_step. cbn [ls_weight]. rewrite Hp.
  set (idx := skipn i (slice i1 i2 pv)).
  assert (Hidx0 : nth (i1 + i) pv 0%nat = nth 0 idx 0%nat).
  { unfold idx. rewrite nth_skipn, Nat.add_0_r, nth_slice by lia.
    reflexivity. }
  assert (Hidxlen : (0 < length idx)%nat).
  { unfold idx. rewrite length_skipn, slice_length by lia. lia. }
  rewrite Hidx0, put_cols_hit; [|now apply NoDup_skipn, NoDup_slice
                                |exact Hidxlen|reflexivity].
  rewrite Nat.add_0_r.
  set (q := get_quant_weights self (ls_weight st) i i1 i2 pl).
  assert (Hle : (i <=? i)%nat = true) by (apply Nat.leb_le; lia).
  assert (Hlt : (i <? i2 - i1)%nat = true) by (apply Nat.ltb_lt; lia).
  unfold row_ok in Hr.
  destruct (1 <? groups self)%nat eqn:Hg.
  - assert (Hrg : (r <? groups self)%nat = true)
      by (apply Nat.ltb_lt; auto).
    rewrite Hrg, Hle, Hlt. simpl.
    assert (Hd : h_inv r (i1 + i)%nat (i1 + i)%nat <> 0).
    { apply Hdiag; [|lia]. unfold ngroups. rewrite Hg.
      now apply Nat.ltb_lt. }
    field. exact Hd.
  - rewrite Hle, Hlt. simpl.
    assert (Hd : h_inv 0%nat (i1 + i)%nat (i1 + i)%nat <> 0).
    { apply Hdiag; [|lia]. unfold ngroups. rewrite Hg. lia. }
    field. exact Hd.
Qed.

Lemma column_step_other (i1 i2 i r c : nat) (st : LoopState) :
  ls_perm st = pv -> ~ In c (skipn i (slice i1 i2 pv)) ->
  ls_weight (column_step self h_inv pl i1 i2 i st) r c = ls_weight st r c.
Proof.
  intros Hp Hc. unfold column_step. cbn [ls_weight]. rewrite Hp.
  apply put_cols_other. now right.
Qed.

Lemma in_skipn (A : Type) (k : nat) (l : list A) (x : A) :
  In x (skipn k l) -> In x l.
Proof.
  intros Hin. rewrite <- (firstn_skipn k l). apply in_or_app. now right.
Qed.

Lemma in_slice (a b : nat) (l : list nat) (x : nat) :
  In x (slice a b l) -> In x (skipn a l).
Proof.
  unfold slice. intros Hin.
  rewrite <- (firstn_skipn (b - a) (skipn a l)). apply in_or_app. now left.
Qed.

(** The columns outside the block's slice are not touched by its loop
    over columns. *)
Lemma block_columns_other (b k r c : nat) (st : LoopState) :
  ~ In c (slice (block_start self b) (block_end self b) pv) ->
  ls_weight (block_columns self h_inv pl b k st) r c = ls_weight st r c.
Proof.
  intros Hc. induction k as [|k IH].
  - unfold block_columns. rewrite for_range_0.
    now rewrite block_enter_weight.
  - unfold block_columns in *. rewrite for_range_S.
    rewrite column_step_other; [exact IH|apply block_columns_perm|].
    intros Hin. apply Hc. now apply in_skipn in Hin.
Qed.

(** After [k] columns of block [b], each of them holds the quantized
    value read for it. *)
Lemma block_columns_hit (b k i r : nat) (st : LoopState) :
  (i < k)%nat -> (k <= block_end self b - block_start self b)%nat ->
  row_ok self r ->
  ls_weight (block_columns self h_inv pl b k st) r
            (nth (block_start self b + i) pv 0%nat)
  = get_quant_weights self
      (ls_weight (block_columns self h_inv pl b i st))
      i (block_start self b) (block_end self b) pl r.
Proof.
  intros Hik Hk Hr. induction k as [|k IH]; [lia|].
  pose proof (block_end_le_columns b) as Hcols.
  change (block_columns self h_inv pl b (S k) st)
    with (for_range (S k)
            (column_step self h_inv pl (block_start self b)
                         (block_end self b))
            (block_enter self pl b st)).
  rewrite for_range_S.
  fold (block_columns self h_inv pl b k st).
  destruct (Nat.eq_dec i k) as [->|Hne].
  - apply column_step_hit; [apply block_columns_perm|exact Hcols|lia|exact Hr].
  - rewrite column_step_other; [apply IH; lia|apply block_columns_perm|].
    rewrite <- (@nth_slice (block_start self b) (block_end self b) i pv)
      by lia.
    apply NoDup_nth_not_in_skipn;
      [now apply NoDup_slice|lia|rewrite slice_length; lia].
Qed.

(** The propagation at the end of a block writes only columns after the
    block. *)
Lemma block_finish_other (b r c : nat) (st : LoopState) :
  ~ In c (skipn (block_end self b) pv) ->
  ls_weight (block_finish self h_inv pl b st) r c = ls_weight st r c.
Proof.
  intros Hc. unfold block_finish.
  destruct (1 <? groups self)%nat; cbn [ls_weight].
  - destruct Huni as [_ Hall].
    assert (Hgen : forall (es : list (nat * list nat)) (W : Mat),
               (forall e, In e es -> snd e = pv) ->
               fold_left
                 (fun W (e : nat * list nat) =>
                    let (ii, perm) := e in
                    sub_cols (fun r => (r =? ii)%nat)
                             (skipn (block_end self b) perm)
                             (fun r p =>
                                rsum (block_end self b - block_start self b)
                                     (fun k =>
                                        ls_error st r k
                                        * h_inv ii (block_start self b + k)%nat
                                                (block_end self b + p)%nat))
                             W) es W r c
               = W r c).
    { induction es as [|[ii perm] es IHes]; intros W Hes; simpl.
      - reflexivity.
      - rewrite IHes by (intros e He; apply Hes; now right).
        apply sub_cols_other. right.
        assert (Hperm : perm = pv) by (apply (Hes (ii, perm)); now left).
        now rewrite Hperm. }
    apply Hgen. intros [ii perm] He. simpl.
    apply in_combine_r in He. now apply Hall.
  - apply sub_cols_other. right. now rewrite (uniform_nth0 Huni).
Qed.

Lemma block_step_hit (b i r : nat) (st : LoopState) :
  (i < block_end self b - block_start self b)%nat -> row_ok self r ->
  ls_weight (block_step self h_inv pl b st) r
            (nth (block_start self b + i) pv 0%nat)
  = get_quant_weights self
      (ls_weight (block_columns self h_inv pl b i st))
      i (block_start self b) (block_end self b) pl r.
Proof.
  intros Hi Hr. unfold block_step.
  pose proof (block_end_le_columns b) as Hcols.
  rewrite block_finish_other.
  - apply block_columns_hit; [exact Hi|lia|exact Hr].
  - apply NoDup_nth_not_in_skipn; [exact Hnd|lia|lia].
Qed.

(** A block leaves the columns of the earlier positions alone. *)
Lemma block_step_earlier (b p r : nat) (st : LoopState) :
  (p < block_start self b)%nat -> (p < columns self)%nat ->
  ls_weight (block_step self h_inv pl b st) r (nth p pv 0%nat)
  = ls_weight st r (nth p pv 0%nat).
Proof.
  intros Hp Hpc. unfold block_step.
  pose proof (block_end_le_columns b) as Hcols.
  assert (Hle : (p < block_end self b)%nat) by (unfold block_end; lia).
  rewrite block_finish_other.
  - apply block_columns_other. intros Hin. apply in_slice in Hin.
    revert Hin. apply NoDup_nth_not_in_skipn; [exact Hnd|lia|lia].
  - apply NoDup_nth_not_in_skipn; [exact Hnd|lia|lia].
Qed.

(** After [k] blocks, every column of these blocks holds the quantized
    value read for it when it was processed. *)
Theorem blocks_done_hit (k b i r : nat) :
  (b < k)%nat -> (i < block_end self b - block_start self b)%nat ->
  row_ok self r ->
  ls_weight (blocks_done self h_inv pr k) r
            (nth (block_start self b + i) pv 0%nat)
  = quant_read self h_inv pr b i r.
Proof.
  intros Hb Hi Hr. unfold quant_read. fold pl.
  induction k as [|k IH]; [lia|].
  unfold blocks_done. rewrite for_range_S.
  fold (blocks_done self h_inv pr k). fold pl.
  destruct (Nat.eq_dec b k) as [->|Hne].
  - now apply block_step_hit.
  - pose proof (block_end_le_columns b) as Hcols.
    pose proof (@block_end_le_next b k ltac:(lia)) as Hnext.
    rewrite block_step_earlier by lia.
    apply IH. lia.
Qed.

End BlockLoop.

(** ** Cholesky: a factor that exists has a positive diagonal *)

Lemma chol_rows_diag_pos (A : Mat) (n : nat) :
  forall L, chol_rows A n = Some L -> forall k, (k < n)%nat -> 0 < L k k.
Proof.
  induction n as [|n IH]; intros L HL k Hk; [lia|].
  simpl in HL. destruct (chol_rows A n) as [L0|]; [|discriminate].
  match type of HL with
  | (if Rlt_dec 0 ?p then _ else _) = _ => destruct (Rlt_dec 0 p) as [Hp|]
  end; [|discriminate].
  injection HL as <-.
  destruct (Nat.eq_dec k n) as [->|Hne].
  - rewrite Nat.eqb_refl. now apply sqrt_lt_R0.
  - apply Nat.eqb_neq in Hne. rewrite Hne. apply Nat.eqb_neq in Hne.
    apply IH; [reflexivity|lia].
Qed.

Lemma cholesky_diag_pos (u : bool) (n : nat) (A U : Mat) :
  cholesky u n A = Some U -> forall k, (k < n)%nat -> 0 < U k k.
Proof.
  unfold cholesky. destruct (chol_rows A n) as [L|] eqn:HL; [|discriminate].
  intros HU k Hk. injection HU as <-.
  destruct u; eapply chol_rows_diag_pos; eauto.
Qed.

Lemma invert_group_diag (pd : R) (n : nat) (A U : Mat) :
  invert_group pd n A = Some U -> forall k, (k < n)%nat -> U k k <> 0.
Proof.
  unfold invert_group.
  destruct (cholesky false n (add_damping pd n A)) as [L|]; [|discriminate].
  intros HU k Hk.
  assert (0 < U k k) by (eapply cholesky_diag_pos; eauto). lra.
Qed.

Lemma invert_groups_spec (pd : R) (n : nat) (gs : list nat) :
  NoDup gs ->
  forall h h', invert_groups pd n gs h = Some h' ->
    (forall g, In g gs -> invert_group pd n (h g) = Some (h' g))
    /\ (forall g, ~ In g gs -> h' g = h g).
Proof.
  induction 1 as [|i gs Hi Hnd IH]; intros h h' Hinv; simpl in Hinv.
  - injection Hinv as <-. split; [intros g []|reflexivity].
  - destruct (invert_group pd n (h i)) as [U|] eqn:HU; [|discriminate].
    destruct (IH _ _ Hinv) as [Hin Hout].
    split.
    + intros g [<-|Hg].
      * rewrite (Hout i Hi), set_group_same. exact HU.
      * rewrite <- (Hin g Hg). f_equal.
        rewrite set_group_other; [reflexivity|]. intros ->. contradiction.
    + intros g Hg. rewrite Hout by (intros Hx; apply Hg; now right).
      apply set_group_other. intros ->. apply Hg. now left.
Qed.

Lemma invert_groups_diag (pd : R) (n G : nat) (h h' : Tensor3) :
  invert_groups pd n (seq 0 G) h = Some h' ->
  forall g k, (g < G)%nat -> (k < n)%nat -> h' g k k <> 0.
Proof.
  intros Hinv g k Hg Hk.
  destruct (@invert_groups_spec pd n (seq 0 G) (seq_NoDup G 0) h h' Hinv)
    as [Hin _].
  eapply invert_group_diag; [apply (Hin g); apply in_seq; lia|exact Hk].
Qed.

(** ** [single_layer_update] when the inversion succeeds *)

(** The object as the block loop sees it. *)
Lemma single_layer_update_success (self : GPTQ) (h h_inv : Tensor3) (pd : R) :
  H self = Some h ->
  invert_groups pd (columns self) (seq 0 (groups self)) (p_H (prepare self h))
  = Some h_inv ->
  blocksize self <> 0%nat ->
  let self' := set_H (set_weight self (p_weight (prepare self h))) None
                     (nsamples self) in
  single_layer_update self pd
  = (set_weight self'
       (ls_weight (blocks_done self' h_inv (prepare self h)
                               (ceil_div (columns self) (blocksize self)))),
     [], Returns tt).
Proof.
  intros Hh Hinv Hbs. unfold single_layer_update. rewrite Hh. simpl.
  rewrite Hinv. apply Nat.eqb_neq in Hbs. now rewrite Hbs.
Qed.

Lemma ceil_div_gt (a b p : nat) :
  (0 < b)%nat -> (p < a)%nat -> (p / b < ceil_div a b)%nat.
Proof.
  intros Hb Hp. unfold ceil_div.
  replace (a + b - 1)%nat with ((a - 1) + 1 * b)%nat by lia.
  rewrite Nat.div_add by lia.
  assert (p / b <= (a - 1) / b)%nat by (apply Nat.Div0.div_le_mono; lia).
  lia.
Qed.

Lemma block_index (self : GPTQ) (p : nat) :
  (0 < blocksize self)%nat -> (p < columns self)%nat ->
  (p / blocksize self < ceil_div (columns self) (blocksize self))%nat
  /\ (block_start self (p / blocksize self) + p mod blocksize self)%nat = p
  /\ (p mod blocksize self
      < block_end self (p / blocksize self)
        - block_start self (p / blocksize self))%nat.
Proof.
  intros Hb Hp. split; [now apply ceil_div_gt|].
  pose proof (Nat.div_mod_eq p (blocksize self)) as Hdm.
  pose proof (Nat.mod_upper_bound p (blocksize self) ltac:(lia)) as Hm.
  unfold block_end, block_start. split; nia.
Qed.

(** The permutations agree when there is one group or no activation
    order. *)
Lemma prepare_uniform (self : GPTQ) (h : Tensor3) :
  (1 <= groups self)%nat ->
  groups self = 1%nat \/ act_order self = false ->
  uniform (permutation_list (prepare self h)) (group_perm self (h 0%nat)).
Proof.
  intros Hg Hc. destruct (prepare_spec self h) as (Hpl & _).
  rewrite Hpl. split.
  - destruct (1 <? groups self)%nat; [|discriminate].
    destruct (groups self); [lia|discriminate].
  - intros perm Hin. apply in_map_iff in Hin. destruct Hin as (g & <- & Hin).
    destruct Hc as [Hc|Hc].
    + rewrite Hc in Hin. simpl in Hin. destruct Hin as [<-|[]]. reflexivity.
    + now rewrite !group_perm_identity.
Qed.

(** With one group, or without activation order, every column ends as the
    quantized value read for it when it was processed. *)
Lemma updated_weight_hit (self : GPTQ) (h h_inv : Tensor3) (pd : R)
      (pv : list nat) (p r : nat) :
  H self = Some h ->
  invert_groups pd (columns self) (seq 0 (groups self)) (p_H (prepare self h))
  = Some h_inv ->
  (0 < blocksize self)%nat ->
  (1 <= groups self)%nat ->
  uniform (permutation_list (prepare self h)) pv ->
  NoDup pv -> length pv = columns self ->
  (p < columns self)%nat -> row_ok self r ->
  updated_weight self pd r (nth p pv 0%nat)
  = quant_read (set_H (set_weight self (p_weight (prepare self h))) None
                      (nsamples self))
               h_inv (prepare self h)
               (p / blocksize self) (p mod blocksize self) r.
Proof.
  intros Hh Hinv Hbs Hg Huni Hnd Hlen Hp Hr.
  unfold updated_weight.
  rewrite (single_layer_update_success self pd Hh Hinv) by lia.
  cbn [fst layer weight set_weight set_layer with_weight].
  set (self' := set_H (set_weight self (p_weight (prepare self h))) None
                      (nsamples self)).
  destruct (@block_index self' p Hbs Hp) as (Hb & Hpos & Hi).
  rewrite <- Hpos at 1.
  apply (@blocks_done_hit self' h_inv (prepare self h) pv); auto.
  intros g k Hgk Hk.
  eapply invert_groups_diag; [exact Hinv| |exact Hk].
  unfold ngroups in Hgk. cbn [groups self' set_H set_weight set_layer] in Hgk.
  destruct (1 <? groups self)%nat; lia.
Qed.

Lemma dead_mask_true (n : nat) (A : Mat) (j : nat) :
  (j < n)%nat -> A j j = 0 -> dead_mask n A j = true.
Proof.
  intros Hj Hz. unfold dead_mask. apply Nat.ltb_lt in Hj. rewrite Hj.
  now destruct (Req_dec_T (A j j) 0).
Qed.

Lemma fix_dead_dead (n : nat) (A : Mat) (j : nat) :
  (j < n)%nat -> A j j = 0 -> fix_dead n A j j = 1.
Proof.
  intros Hj Hz. unfold fix_dead, set_diag_where.
  now rewrite Nat.eqb_refl, dead_mask_true.
Qed.

Lemma group_perm_position (self : GPTQ) (A : Mat) (j : nat) :
  (j < columns self)%nat ->
  exists p, (p < columns self)%nat /\ nth p (group_perm self A) 0%nat = j.
Proof.
  intros Hj.
  assert (Hin : In j (group_perm self A)).
  { apply (Permutation_in _ (Permutation_sym (group_perm_permutation self A))).
    apply in_seq. lia. }
  apply (In_nth _ _ 0%nat) in Hin. destruct Hin as (p & Hp & Heq).
  rewrite group_perm_length in Hp. now exists p.
Qed.

Lemma group_H_diag (self : GPTQ) (A : Mat) (p : nat) :
  (p < columns self)%nat ->
  group_H self A p p
  = fix_dead (columns self) A (nth p (group_perm self A) 0%nat)
             (nth p (group_perm self A) 0%nat).
Proof.
  intros Hp. unfold group_H, group_perm.
  destruct (act_order self); [reflexivity|].
  now rewrite seq_nth.
Qed.

Lemma dead_zeroed_dead (self : GPTQ) (h : Tensor3) (W : Mat) (g j r : nat) :
  (g < ngroups self)%nat -> (j < columns self)%nat -> h g j j = 0 ->
  ((1 <? groups self)%nat = true -> r = g) ->
  dead_zeroed self h W r j = 0.
Proof.
  intros Hg Hj Hz Hr. unfold dead_zeroed, ngroups in *.
  destruct (1 <? groups self)%nat.
  - rewrite (Hr eq_refl).
    apply Nat.ltb_lt in Hg. now rewrite Hg, dead_mask_true.
  - assert (g = 0%nat) as -> by lia. now rewrite dead_mask_true.
Qed.

(** C4, as amended.  For a column [j] whose accumulator diagonal entry is
    exactly zero when [single_layer_update] starts (in group [g]): the
    dead-channel step sets the weight column (the entry of the group's row
    for a grouped layer) to zero and the diagonal entry to 1 before the
    inversion; when the inversion fails, the column is zero on return; when
    it succeeds, with one group or without activation order, the column
    holds on return the quantized value read for it when it was processed
    (zero exactly when the layer's quantizer returns zero there). *)
Theorem dead_channel_handling :
  forall (self : GPTQ) (h : Tensor3) (pd : R) (g j : nat),
    H self = Some h ->
    (1 <= groups self)%nat ->
    (g < ngroups self)%nat -> (j < columns self)%nat ->
    h g j j = 0 ->
    let pr := prepare self h in
    let dead_row := fun r => (1 <? groups self)%nat = true -> r = g in
    (forall r, dead_row r -> p_weight pr r j = 0)
    /\ (exists p, (p < columns self)%nat
                  /\ nth p (nth g (permutation_list pr) []) 0%nat = j
                  /\ p_H pr g p p = 1)
    /\ (invert_groups pd (columns self) (seq 0 (groups self)) (p_H pr) = None ->
        forall r, dead_row r -> updated_weight self pd r j = 0)
    /\ (forall h_inv,
           invert_groups pd (columns self) (seq 0 (groups self)) (p_H pr)
           = Some h_inv ->
           (0 < blocksize self)%nat ->
           groups self = 1%nat \/ act_order self = false ->
           exists p, (p < columns self)%nat
                     /\ nth p (group_perm self (h 0%nat)) 0%nat = j
                     /\ forall r, row_ok self r ->
                          updated_weight self pd r j
                          = quant_read
                              (set_H (set_weight self (p_weight pr)) None
                                     (nsamples self))
                              h_inv pr
                              (p / blocksize self) (p mod blocksize self) r).
Proof.
  intros self h pd g j Hh Hgs Hg Hj Hz. cbv zeta.
  destruct (prepare_spec self h) as (Hpl & _ & HH & HW).
  split; [|split; [|split]].
  - intros r Hr. rewrite HW. now apply (dead_zeroed_dead self h _ Hg).
  - destruct (@group_perm_position self (h g) j Hj) as (p & Hp & Hpj).
    exists p. split; [exact Hp|].
    rewrite Hpl.
    rewrite (nth_indep _ [] (group_perm self (h 0%nat)))
      by (rewrite length_map, length_seq; exact Hg).
    rewrite (map_nth (fun g => group_perm self (h g))), seq_nth by exact Hg.
    simpl. split; [exact Hpj|].
    rewrite (HH g Hg), group_H_diag, Hpj by exact Hp.
    now apply fix_dead_dead.
  - intros Hinv r Hr. unfold updated_weight.
    rewrite (single_layer_update_failure self pd Hh Hinv).
    cbn [fst layer weight set_H set_weight set_layer with_weight].
    rewrite HW. now apply (dead_zeroed_dead self h _ Hg).
  - intros h_inv Hinv Hbs Hc.
    destruct (@group_perm_position self (h 0%nat) j Hj) as (p & Hp & Hpj).
    exists p. split; [exact Hp|]. split; [exact Hpj|].
    intros r Hr. rewrite <- Hpj.
    apply updated_weight_hit; auto.
    + now apply prepare_uniform.
    + apply group_perm_NoDup.
    + apply group_perm_length.
Qed.

(** ** Cholesky on a diagonal matrix *)

Lemma rsum_zero (n : nat) (f : nat -> R) :
  (forall k, (k < n)%nat -> f k = 0) -> rsum n f = 0.
Proof.
  induction n as [|n IH]; intros Hf; simpl.
  - reflexivity.
  - rewrite IH by (intros k Hk; apply Hf; lia).
    rewrite Hf by lia. lra.
Qed.

Lemma rsum_single (n a : nat) (f : nat -> R) :
  (a < n)%nat -> (forall k, (k < n)%nat -> k <> a -> f k = 0) ->
  rsum n f = f a.
Proof.
  induction n as [|n IH]; intros Ha Hf; [lia|]. simpl.
  destruct (Nat.eq_dec a n) as [->|Hne].
  - rewrite rsum_zero by (intros k Hk; apply Hf; lia). lra.
  - rewrite IH by (try lia; intros k Hk Hka; apply Hf; lia).
    rewrite (Hf n) by lia. lra.
Qed.

Lemma chol_row_zero (A L : Mat) (i j : nat) :
  (forall c, (c < j)%nat -> A i c = 0) ->
  forall c, chol_row A L i j c = 0.
Proof.
  induction j as [|j IH]; intros HA c; simpl.
  - reflexivity.
  - assert (Hrow : forall c, chol_row A L i j c = 0)
      by (apply IH; intros c' Hc'; apply HA; lia).
    destruct (c =? j)%nat; [|apply Hrow].
    rewrite HA by lia.
    rewrite rsum_zero by (intros k _; rewrite Hrow; lra).
    unfold Rdiv. lra.
Qed.

Lemma chol_rows_diagonal (A : Mat) (n : nat) :
  diagonal_below n A ->
  (forall k, (k < n)%nat -> 0 < A k k) ->
  exists L, chol_rows A n = Some L
            /\ forall r c, L r c = if (r =? c)%nat && (r <? n)%nat
                                   then sqrt (A r r) else 0.
Proof.
  induction n as [|n IH]; intros Hd Hp.
  - exists zeros2. split; [reflexivity|]. intros r c.
    now rewrite andb_false_r.
  - destruct IH as (L0 & HL0 & HL0v).
    { intros r c Hr Hc. apply Hd; lia. }
    { intros k Hk. apply Hp. lia. }
    simpl. rewrite HL0.
    assert (Hrow : forall c, chol_row A L0 n n c = 0).
    { apply chol_row_zero. intros c Hc. apply Hd; lia. }
    assert (Hpiv : A n n - rsum n (fun k => chol_row A L0 n n k
                                            * chol_row A L0 n n k) = A n n).
    { rewrite rsum_zero by (intros k _; rewrite Hrow; lra). lra. }
    rewrite Hpiv.
    destruct (Rlt_dec 0 (A n n)) as [_|Hn];
      [|exfalso; apply Hn, Hp; lia].
    eexists. split; [reflexivity|].
    intros r c. cbv beta.
    destruct (Nat.eq_dec r n) as [->|Hrn].
    + rewrite Nat.eqb_refl.
      assert (Hlt : (n <? S n)%nat = true) by (apply Nat.ltb_lt; lia).
      rewrite Hlt, andb_true_r.
      rewrite (Nat.eqb_sym n c).
      destruct (c =? n)%nat eqn:Hc.
      * apply Nat.eqb_eq in Hc. subst c. reflexivity.
      * apply Hrow.
    + apply Nat.eqb_neq in Hrn. rewrite Hrn. apply Nat.eqb_neq in Hrn.
      rewrite HL0v.
      destruct (r <? n)%nat eqn:E1, (r <? S n)%nat eqn:E2; try reflexivity;
        apply Nat.ltb_lt in E1 || apply Nat.ltb_ge in E1;
        apply Nat.ltb_lt in E2 || apply Nat.ltb_ge in E2; lia.
Qed.

Lemma tri_inv_diagonal (L : Mat) (n : nat) :
  diagonal_below n L ->
  forall r c, tri_inv L n r c
              = if (r =? c)%nat && (r <? n)%nat then / L r r else 0.
Proof.
  induction n as [|n IH]; intros Hd r c; simpl.
  - now rewrite andb_false_r.
  - assert (IH' : forall r c, tri_inv L n r c
                              = if (r =? c)%nat && (r <? n)%nat
                                then / L r r else 0).
    { apply IH. intros r' c' Hr Hc. apply Hd; lia. }
    destruct (Nat.eq_dec r n) as [->|Hrn].
    + rewrite Nat.eqb_refl.
      assert (Hlt : (n <? S n)%nat = true) by (apply Nat.ltb_lt; lia).
      rewrite Hlt, andb_true_r. rewrite (Nat.eqb_sym n c).
      destruct (c =? n)%nat; [reflexivity|].
      destruct (c <? n)%nat eqn:Hc; [|reflexivity].
      rewrite rsum_zero.
      * unfold Rdiv. lra.
      * intros k Hk. rewrite (Hd n k) by lia. lra.
    + apply Nat.eqb_neq in Hrn. rewrite Hrn. apply Nat.eqb_neq in Hrn.
      rewrite IH'.
      destruct (r <? n)%nat eqn:E1, (r <? S n)%nat eqn:E2; try reflexivity;
        apply Nat.ltb_lt in E1 || apply Nat.ltb_ge in E1;
        apply Nat.ltb_lt in E2 || apply Nat.ltb_ge in E2; lia.
Qed.

Lemma cholesky_inverse_diagonal (L : Mat) (n : nat) :
  diagonal_below n L ->
  forall a b, (a < n)%nat -> (b < n)%nat ->
    cholesky_inverse n L a b
    = if (a =? b)%nat then / L a a * / L a a else 0.
Proof.
  intros Hd a b Ha Hb. unfold cholesky_inverse.
  pose proof (tri_inv_diagonal Hd) as HX.
  destruct (a =? b)%nat eqn:Hab.
  - apply Nat.eqb_eq in Hab. subst b.
    rewrite (@rsum_single n a) by
        (try exact Ha; intros k Hk Hka; rewrite HX;
         apply Nat.eqb_neq in Hka; rewrite Hka; simpl; lra).
    rewrite HX, Nat.eqb_refl.
    apply Nat.ltb_lt in Ha. now rewrite Ha.
  - apply Nat.eqb_neq in Hab. apply rsum_zero. intros k Hk.
    rewrite !HX.
    destruct (Nat.eq_dec k a) as [->|Hka].
    + apply Nat.eqb_neq in Hab. rewrite Hab. simpl. lra.
    + apply Nat.eqb_neq in Hka. rewrite Hka. simpl. lra.
Qed.

(** The stabilised inversion succeeds on a diagonal accumulator whose
    damped diagonal is positive, and its result is diagonal. *)
Lemma invert_group_diagonal (pd : R) (n : nat) (A : Mat) :
  diagonal_below n A ->
  (forall k, (k < n)%nat -> 0 < A k k + pd * mean (diag n A)) ->
  exists U, invert_group pd n A = Some U /\ diagonal_below n U.
Proof.
  intros Hd Hp. unfold invert_group.
  destruct (@chol_rows_diagonal (add_damping pd n A) n) as (L & HL & HLv).
  { intros r c Hr Hc Hrc. unfold add_damping.
    apply Nat.eqb_neq in Hrc. rewrite Hrc. simpl. apply Nat.eqb_neq in Hrc.
    now apply Hd. }
  { intros k Hk. unfold add_damping. rewrite Nat.eqb_refl.
    apply Nat.ltb_lt in Hk. rewrite Hk. simpl. apply Hp.
    now apply Nat.ltb_lt. }
  unfold cholesky. rewrite HL.
  assert (HdL : diagonal_below n L).
  { intros r c Hr Hc Hrc. rewrite HLv.
    apply Nat.eqb_neq in Hrc. now rewrite Hrc. }
  assert (HLpos : forall k, (k < n)%nat -> 0 < L k k)
    by (intros k Hk; eapply chol_rows_diag_pos; eauto).
  destruct (@chol_rows_diagonal (cholesky_inverse n L) n) as (U & HU & HUv).
  { intros r c Hr Hc Hrc. rewrite cholesky_inverse_diagonal by assumption.
    apply Nat.eqb_neq in Hrc. now rewrite Hrc. }
  { intros k Hk. rewrite cholesky_inverse_diagonal by assumption.
    rewrite Nat.eqb_refl.
    pose proof (Rinv_0_lt_compat _ (HLpos k Hk)) as Hi. nra. }
  rewrite HU. eexists. split; [reflexivity|].
  intros r c Hr Hc Hrc. cbv beta. rewrite HUv.
  assert (Hcr : (c =? r)%nat = false) by (apply Nat.eqb_neq; congruence).
  now rewrite Hcr.
Qed.

Lemma invert_groups_succeeds (pd : R) (n : nat) (gs : list nat) :
  NoDup gs ->
  forall h,
    (forall g, In g gs -> exists U, invert_group pd n (h g) = Some U) ->
    exists h', invert_groups pd n gs h = Some h'.
Proof.
  induction 1 as [|i gs Hi Hnd IH]; intros h Hall; simpl.
  - now exists h.
  - destruct (Hall i (or_introl eq_refl)) as (U & HU). rewrite HU.
    apply IH. intros g Hg.
    rewrite set_group_other by (intros ->; contradiction).
    apply Hall. now right.
Qed.

(** ** A layer that has seen no sample *)

Lemma lsum_const (A : Type) (l : list A) (v : R) :
  lsum (map (fun _ => v) l) = INR (length l) * v.
Proof.
  induction l as [|x l IH].
  - simpl. lra.
  - cbn [map lsum]. rewrite IH.
    change (length (x :: l)) with (S (length l)). rewrite S_INR. lra.
Qed.

Lemma fix_dead_zeros (n r c : nat) :
  fix_dead n zeros2 r c = if (r =? c)%nat && (r <? n)%nat then 1 else 0.
Proof.
  unfold fix_dead, set_diag_where, dead_mask, zeros2.
  destruct (Req_dec_T 0 0) as [_|Hn]; [|now elim Hn].
  now rewrite andb_true_r.
Qed.

(** The accumulator of a group that has seen nothing is the identity
    when the [try] block is entered, whatever the order [argsort] gives to
    its equal diagonal entries. *)
Lemma group_H_zeros (self : GPTQ) (r c : nat) :
  (r < columns self)%nat -> (c < columns self)%nat ->
  group_H self zeros2 r c = if (r =? c)%nat then 1 else 0.
Proof.
  intros Hr Hc. unfold group_H.
  destruct (act_order self) eqn:Hao.
  - unfold permute2. rewrite fix_dead_zeros.
    pose proof (@group_perm_bound self zeros2 r Hr) as Hbr.
    apply Nat.ltb_lt in Hbr. rewrite Hbr, andb_true_r.
    destruct (Nat.eq_dec r c) as [->|Hne].
    + now rewrite !Nat.eqb_refl.
    + assert (Hn : nth r (group_perm self zeros2) 0%nat
                   <> nth c (group_perm self zeros2) 0%nat).
      { intros Heq. apply Hne.
        apply (proj1 (NoDup_nth (group_perm self zeros2) 0%nat)
                     (group_perm_NoDup self zeros2));
          rewrite ?group_perm_length; assumption. }
      apply Nat.eqb_neq in Hn, Hne. now rewrite Hn, Hne.
  - assert (Hlt : (r <? columns self)%nat = true) by now apply Nat.ltb_lt.
    now rewrite fix_dead_zeros, Hlt, andb_true_r.
Qed.

Lemma mean_diag_ones (n : nat) (A : Mat) :
  (0 < n)%nat -> (forall k, (k < n)%nat -> A k k = 1) ->
  mean (diag n A) = 1.
Proof.
  intros Hn HA. unfold mean, diag.
  rewrite (map_ext_in _ (fun _ => 1))
    by (intros k Hk; apply in_seq in Hk; apply HA; lia).
  rewrite lsum_const, length_map, length_seq.
  apply lt_0_INR in Hn. field. lra.
Qed.

(** What [single_layer_update] does to a layer whose accumulator is all
    zeros. *)
Lemma zero_sample_update_spec (self : GPTQ) (pd : R) :
  H self = Some zeros3 ->
  (1 <= groups self)%nat -> (0 < columns self)%nat ->
  (0 < blocksize self)%nat -> 0 <= pd ->
  let pr := prepare self zeros3 in
  let perm := group_perm self zeros2 in
  (forall r c, row_ok self r -> (c < columns self)%nat ->
               p_weight pr r c = 0)
  /\ (forall g k, (g < ngroups self)%nat -> (k < columns self)%nat ->
                  p_H pr g k k = 1)
  /\ exists h_inv,
      invert_groups pd (columns self) (seq 0 (groups self)) (p_H pr)
      = Some h_inv
      /\ (forall g k, (g < groups self)%nat -> (k < columns self)%nat ->
                      h_inv g k k <> 0)
      /\ snd (single_layer_update self pd) = Returns tt
      /\ (forall r p, row_ok self r -> (p < columns self)%nat ->
                      updated_weight self pd r (nth p perm 0%nat)
                      = quant_read
                          (set_H (set_weight self (p_weight pr)) None
                                 (nsamples self))
                          h_inv pr
                          (p / blocksize self) (p mod blocksize self) r).
Proof.
  intros Hh Hg Hcols Hbs Hpd. cbv zeta.
  destruct (prepare_spec self zeros3) as (Hpl & _ & HH & HW).
  fold (ngroups self) in Hpl, HH.
  assert (Hng : forall g, (g < groups self)%nat -> (g < ngroups self)%nat).
  { intros g Hlt. unfold ngroups.
    destruct (1 <? groups self)%nat eqn:E; [exact Hlt|].
    apply Nat.ltb_ge in E. lia. }
  split; [|split].
  - intros r c Hr Hc. rewrite HW. unfold dead_zeroed.
    assert (Hdead : forall g, dead_mask (columns self) (zeros3 g) c = true)
      by (intros g; now apply dead_mask_true).
    unfold row_ok in Hr.
    destruct (1 <? groups self)%nat.
    + rewrite Hdead. assert (Hrg : (r <? groups self)%nat = true)
        by (apply Nat.ltb_lt; auto). now rewrite Hrg.
    + now rewrite Hdead.
  - intros g k Hgk Hk. rewrite (HH g Hgk). change (zeros3 g) with zeros2.
    now rewrite group_H_zeros, Nat.eqb_refl.
  - destruct (@invert_groups_succeeds pd (columns self) (seq 0 (groups self))
                (seq_NoDup _ 0) (p_H (prepare self zeros3)))
      as (h_inv & Hinv).
    { intros g Hgin. apply in_seq in Hgin.
      rewrite (HH g) by (apply Hng; lia).
      destruct (@invert_group_diagonal pd (columns self)
                  (group_H self (zeros3 g))) as (U & HU & _).
      - intros r c Hr Hc Hrc. change (zeros3 g) with zeros2.
        rewrite group_H_zeros by assumption.
        apply Nat.eqb_neq in Hrc. now rewrite Hrc.
      - intros k Hk. change (zeros3 g) with zeros2.
        rewrite mean_diag_ones;
          [|exact Hcols
           |intros k' Hk'; rewrite group_H_zeros by assumption;
            now rewrite Nat.eqb_refl].
        rewrite group_H_zeros, Nat.eqb_refl by assumption. lra.
      - now exists U. }
    exists h_inv. split; [exact Hinv|].
    split; [intros g k Hgk Hk; eapply invert_groups_diag; eauto|].
    split.
    { rewrite (single_layer_update_success self pd Hh Hinv) by lia.
      reflexivity. }
    intros r p Hr Hp.
    apply updated_weight_hit; auto.
    + rewrite Hpl. split.
      * unfold ngroups. destruct (1 <? groups self)%nat; [|discriminate].
        destruct (groups self); [lia|discriminate].
      * intros perm Hin. apply in_map_iff in Hin.
        destruct Hin as (g & <- & _). reflexivity.
    + apply group_perm_NoDup.
    + apply group_perm_length.
Qed.

(** C3, as amended.  For a layer that has seen no sample (accumulator all
    zeros), [single_layer_update] is not skipped and does not keep the
    weight: every column is dead, so every weight entry is set to zero and
    every diagonal entry of the accumulator to 1; the inversion succeeds
    and every divisor [d] it yields is non-zero (no division by zero); the
    call returns normally; and each column, taken in the order [perm] in
    which the columns are processed (a permutation of [0, columns), the
    identity without [act_order]), ends as the quantized value
    [get_quant_weights] read for it when it was processed. *)
Theorem zero_sample_layer_is_zeroed :
  forall (self : GPTQ) (pd : R),
    H self = Some zeros3 -> nsamples self = 0%nat ->
    (1 <= groups self)%nat -> (0 < columns self)%nat ->
    (0 < blocksize self)%nat -> 0 <= pd ->
    let pr := prepare self zeros3 in
    let perm := group_perm self zeros2 in
    (forall r c, row_ok self r -> (c < columns self)%nat ->
                 p_weight pr r c = 0)
    /\ (forall g k, (g < ngroups self)%nat -> (k < columns self)%nat ->
                    p_H pr g k k = 1)
    /\ (forall g, (g < ngroups self)%nat ->
                  nth g (permutation_list pr) [] = perm)
    /\ Permutation perm (seq 0 (columns self))
    /\ (act_order self = false -> perm = seq 0 (columns self))
    /\ exists h_inv,
        invert_groups pd (columns self) (seq 0 (groups self)) (p_H pr)
        = Some h_inv
        /\ (forall g k, (g < groups self)%nat -> (k < columns self)%nat ->
                        h_inv g k k <> 0)
        /\ snd (single_layer_update self pd) = Returns tt
        /\ (forall r p, row_ok self r -> (p < columns self)%nat ->
                        updated_weight self pd r (nth p perm 0%nat)
                        = quant_read
                            (set_H (set_weight self (p_weight pr)) None
                                   (nsamples self))
                            h_inv pr
                            (p / blocksize self) (p mod blocksize self) r).
Proof.
  intros self pd Hh _ Hg Hc Hbs Hpd. cbv zeta.
  destruct (@zero_sample_update_spec self pd Hh Hg Hc Hbs Hpd)
    as (Hzero & Hdiag & Hex).
  split; [exact Hzero|]. split; [exact Hdiag|].
  split; [|split; [apply group_perm_permutation|
                   split; [apply group_perm_identity|exact Hex]]].
  intros g Hgk. destruct (prepare_spec self zeros3) as (Hpl & _).
  fold (ngroups self) in Hpl. rewrite Hpl.
  rewrite (nth_indep _ [] (group_perm self (zeros3 0%nat)))
    by (now rewrite length_map, length_seq).
  now rewrite (map_nth (fun g => group_perm self (zeros3 g))), seq_nth.
Qed.

Lemma default_percdamp_nonneg : 0 <= default_percdamp.
Proof. unfold default_percdamp. lra. Qed.

Lemma zero_sample_layer_is_zeroed_witness :
  p_weight (prepare Fixtures.unseen zeros3) 0%nat 0%nat = 0.
Proof.
  exact (proj1 (@zero_sample_layer_is_zeroed
                  Fixtures.unseen default_percdamp
                  eq_refl eq_refl (le_n 1) (le_n 1) (le_n 1)
                  default_percdamp_nonneg)
               0%nat 0%nat
               (fun Hx => False_ind _ (Bool.diff_false_true Hx))
               (le_n 1)).
Defined.

Lemma round_half_zero (W : Mat) (r c : nat) :
  W r c = 0 -> Fixtures.round_half W r c = 0.
Proof.
  intros Hz. unfold Fixtures.round_half. rewrite Hz.
  rewrite <- (tech_up (2 * 0 - / 2) 0); simpl; lra.
Qed.

(** The layer [unseen] has weight 1 and has seen no sample; after
    [single_layer_update] its weight is 0. *)
Lemma zero_sample_weight_changes :
  nsamples Fixtures.unseen = 0%nat
  /\ snd (single_layer_update Fixtures.unseen default_percdamp) = Returns tt
  /\ weight (layer Fixtures.unseen) 0%nat 0%nat = 1
  /\ updated_weight Fixtures.unseen default_percdamp 0%nat 0%nat = 0
  /\ updated_weight Fixtures.unseen default_percdamp 0%nat 0%nat
     <> weight (layer Fixtures.unseen) 0%nat 0%nat.
Proof.
  destruct (@zero_sample_update_spec Fixtures.unseen default_percdamp
              eq_refl (le_n 1) (le_n 1) (le_n 1) default_percdamp_nonneg)
    as (Hzero & _ & h_inv & _ & _ & Hret & Hfinal).
  assert (Hrow : row_ok Fixtures.unseen 0) by (intros Hx; discriminate Hx).
  assert (E : updated_weight Fixtures.unseen default_percdamp 0%nat 0%nat = 0).
  { change 0%nat with (nth 0 (group_perm Fixtures.unseen zeros2) 0%nat) at 2.
    rewrite (Hfinal 0%nat 0%nat Hrow (le_n 1)).
    unfold quant_read, get_quant_weights.
    cbn [act_order set_H set_weight set_layer Fixtures.unseen Fixtures.gptq].
    cbn [layer quant_weight with_weight Fixtures.linear].
    apply round_half_zero.
    unfold block_columns. rewrite for_range_0.
    unfold block_enter, blocks_done. rewrite for_range_0.
    cbn [groups Fixtures.linear kind Nat.eqb ls_weight].
    apply (Hzero 0%nat 0%nat Hrow (le_n 1)). }
  split; [reflexivity|]. split; [exact Hret|].
  split; [reflexivity|]. split; [exact E|].
  rewrite E. unfold Fixtures.unseen, Fixtures.gptq, Fixtures.linear,
    Fixtures.const_mat. cbn [layer weight]. lra.
Qed.

Lemma permutation_list_valid_witness :
  length (permutation_list
               (prepare Fixtures.depthwise_act_order
                  (Fixtures.two_groups (Fixtures.mat_of [[1; 0]; [0; 4]])
                                       (Fixtures.mat_of [[4; 0]; [0; 1]]))))
  = 2%nat
  /\ Permutation
       (nth 1 (permutation_list
               (prepare Fixtures.depthwise_act_order
                  (Fixtures.two_groups (Fixtures.mat_of [[1; 0]; [0; 4]])
                                       (Fixtures.mat_of [[4; 0]; [0; 1]])))) [])
       (seq 0 2)
  /\ descending
       (fun k => fix_dead 2 (Fixtures.mat_of [[4; 0]; [0; 1]]) k k)
       (nth 1 (permutation_list
               (prepare Fixtures.depthwise_act_order
                  (Fixtures.two_groups (Fixtures.mat_of [[1; 0]; [0; 4]])
                                       (Fixtures.mat_of [[4; 0]; [0; 1]])))) []).
Proof.
  destruct (@permutation_list_valid
              Fixtures.depthwise_act_order
              (Fixtures.two_groups (Fixtures.mat_of [[1; 0]; [0; 4]])
                                   (Fixtures.mat_of [[4; 0]; [0; 1]]))
              eq_refl) as [Hlen Hperm].
  split; [exact Hlen|].
  split; [exact (proj1 (Hperm 1%nat (le_n 2)))|].
  exact (proj1 (proj1 (proj2 (Hperm 1%nat (le_n 2))) eq_refl)).
Defined.

(** ** Activation order on a grouped layer: the write-back uses one
    permutation for all rows *)

Lemma round_half_value (W : Mat) (r c : nat) (z : Z) :
  2 * W r c - / 2 < IZR z -> IZR z <= 2 * W r c + / 2 ->
  Fixtures.round_half W r c = IZR z / 2.
Proof.
  intros Hlo Hhi. unfold Fixtures.round_half.
  rewrite <- (tech_up (2 * W r c - / 2) z); [reflexivity|exact Hlo|lra].
Qed.

Lemma depthwise_act_order_perms :
  let h := Fixtures.two_groups (Fixtures.mat_of [[1; 0]; [0; 4]])
                               (Fixtures.mat_of [[4; 0]; [0; 1]]) in
  group_perm Fixtures.depthwise_act_order (h 0%nat) = [1; 0]%nat
  /\ group_perm Fixtures.depthwise_act_order (h 1%nat) = [0; 1]%nat.
Proof.
  cbv zeta.
  unfold group_perm, argsort_desc, diag, fix_dead, set_diag_where, dead_mask,
    Fixtures.two_groups, Fixtures.mat_of.
  simpl. decide_R; auto.
Qed.

Lemma depthwise_act_order_group_H (g : nat) :
  let h := Fixtures.two_groups (Fixtures.mat_of [[1; 0]; [0; 4]])
                               (Fixtures.mat_of [[4; 0]; [0; 1]]) in
  (g < 2)%nat ->
  diagonal_below 2 (group_H Fixtures.depthwise_act_order (h g))
  /\ forall k, (k < 2)%nat ->
               1 <= group_H Fixtures.depthwise_act_order (h g) k k.
Proof.
  cbv zeta. intros Hg. destruct depthwise_act_order_perms as [P0 P1].
  unfold group_H. change (act_order Fixtures.depthwise_act_order) with true.
  cbv iota.
  destruct g as [|[|g]]; try lia; rewrite ?P0, ?P1;
    (split; [intros r c Hr Hc Hrc | intros k Hk]).
  all: unfold permute2, fix_dead, set_diag_where, dead_mask,
         Fixtures.two_groups, Fixtures.mat_of.
  all: try (destruct r as [|[|r]], c as [|[|c]]; try lia;
            simpl; decide_R; auto).
  all: try (destruct k as [|[|k]]; try lia; simpl; decide_R; auto; try lra).
Qed.

Lemma depthwise_act_order_inversion :
  let h := Fixtures.two_groups (Fixtures.mat_of [[1; 0]; [0; 4]])
                               (Fixtures.mat_of [[4; 0]; [0; 1]]) in
  exists h_inv,
    invert_groups default_percdamp (columns Fixtures.depthwise_act_order)
                  (seq 0 (groups Fixtures.depthwise_act_order))
                  (p_H (prepare Fixtures.depthwise_act_order h))
    = Some h_inv
    /\ forall g, (g < 2)%nat ->
                 diagonal_below 2 (h_inv g)
                 /\ forall k, (k < 2)%nat -> h_inv g k k <> 0.
Proof.
  cbv zeta.
  set (h := Fixtures.two_groups (Fixtures.mat_of [[1; 0]; [0; 4]])
                                (Fixtures.mat_of [[4; 0]; [0; 1]])).
  destruct (prepare_spec Fixtures.depthwise_act_order h) as (_ & _ & HH & _).
  assert (Hone : forall g, (g < 2)%nat ->
            exists U, invert_group default_percdamp 2
                        (p_H (prepare Fixtures.depthwise_act_order h) g)
                      = Some U /\ diagonal_below 2 U).
  { intros g Hg. rewrite (HH g) by (simpl; lia).
    destruct (@depthwise_act_order_group_H g Hg) as [Hd Hp]. fold h in Hd, Hp.
    apply invert_group_diagonal; [exact Hd|].
    intros k Hk. unfold mean, diag, default_percdamp. simpl.
    pose proof (Hp 0%nat ltac:(lia)). pose proof (Hp 1%nat ltac:(lia)).
    pose proof (Hp k Hk). lra. }
  destruct (@invert_groups_succeeds default_percdamp 2 (seq 0 2)
              (seq_NoDup 2 0) (p_H (prepare Fixtures.depthwise_act_order h)))
    as (h_inv & Hinv).
  { intros g Hg. apply in_seq in Hg.
    destruct (Hone g ltac:(lia)) as (U & HU & _). now exists U. }
  exists h_inv. split; [exact Hinv|].
  intros g Hg.
  destruct (@invert_groups_spec default_percdamp 2 (seq 0 2) (seq_NoDup 2 0)
              _ _ Hinv) as [Hin _].
  specialize (Hin g ltac:(apply in_seq; lia)).
  destruct (Hone g Hg) as (U & HU & HdU).
  rewrite HU in Hin. injection Hin as ->.
  split; [exact HdU|].
  intros k Hk. eapply invert_groups_diag; [exact Hinv|lia|exact Hk].
Qed.

(** The first block of a two-group layer whose permutations are [1, 0] and
    [0, 1]: for row 0 the quantized value of column 1 is read, and written
    to column 0. *)
Lemma depthwise_first_block (h_inv : Tensor3) (Wl : Mat) (st : LoopState) :
  let self' := set_H (set_weight Fixtures.depthwise_act_order Wl) None 8 in
  let pl := [[1; 0]; [0; 1]]%nat in
  h_inv 0%nat 0%nat 0%nat <> 0 ->
  ls_weight (block_step self' h_inv pl 0 st) 0%nat 1%nat
  = ls_weight st 0%nat 1%nat
  /\ ls_weight (block_step self' h_inv pl 0 st) 0%nat 0%nat
     = Fixtures.round_half (ls_weight st) 0%nat 1%nat
       - (ls_weight st 0%nat 1%nat
          - Fixtures.round_half (ls_weight st) 0%nat 1%nat)
         / h_inv 0%nat 0%nat 0%nat * h_inv 0%nat 0%nat 1%nat
  /\ get_quant_weights self'
       (ls_weight (block_columns self' h_inv pl 0 0 st)) 0
       (block_start self' 0) (block_end self' 0) pl 0%nat
     = Fixtures.round_half (ls_weight st) 0%nat 1%nat.
Proof.
  cbv zeta. intros Hd.
  unfold block_step, block_finish, block_columns, block_end, block_start.
  simpl. unfold for_range. simpl.
  unfold column_step, sub_cols, put_cols, get_quant_weights. simpl.
  split; [reflexivity|]. split; [field; exact Hd|reflexivity].
Qed.

(** The second block of the same layer: row 0 reads the quantized value of
    column 0 and writes it to column 1; column 0 is left alone. *)
Lemma depthwise_second_block (h_inv : Tensor3) (Wl : Mat) (st : LoopState) :
  let self' := set_H (set_weight Fixtures.depthwise_act_order Wl) None 8 in
  let pl := [[1; 0]; [0; 1]]%nat in
  h_inv 0%nat 1%nat 1%nat <> 0 ->
  ls_weight (block_step self' h_inv pl 1 st) 0%nat 0%nat
  = ls_weight st 0%nat 0%nat
  /\ ls_weight (block_step self' h_inv pl 1 st) 0%nat 1%nat
     = Fixtures.round_half (ls_weight st) 0%nat 0%nat.
Proof.
  cbv zeta. intros Hd.
  unfold block_step, block_finish, block_columns, block_end, block_start.
  simpl. unfold for_range. simpl.
  unfold column_step, sub_cols, put_cols, get_quant_weights. simpl.
  split; [reflexivity|field; exact Hd].
Qed.

(** C5 (the code at the failing input).  A depthwise layer with two groups
    and activation order, whose groups order their columns as [1, 0] and
    [0, 1]; the accumulators are diagonal, so no correction is propagated
    between columns.  The first block processes, for row 0, the column
    [perm_0[0] = 1], whose weight is 3/10 and whose quantized value is 1/2.
    After the block that column still holds 3/10: the value 1/2 was written
    to column 0, over the weight 1, because the write-back indexes every
    row with the last group's permutation.  At the end row 0 is
    [(1/2, 1/2)], although its first weight, 1, was on the quantizer's
    grid. *)
Theorem stale_perm_write_back :
  let self := Fixtures.depthwise_act_order in
  let h := Fixtures.two_groups (Fixtures.mat_of [[1; 0]; [0; 4]])
                               (Fixtures.mat_of [[4; 0]; [0; 1]]) in
  let pr := prepare self h in
  let self' := set_H (set_weight self (p_weight pr)) None (nsamples self) in
  exists h_inv,
    invert_groups default_percdamp (columns self) (seq 0 (groups self))
                  (p_H pr) = Some h_inv
    /\ permutation_list pr = [[1; 0]; [0; 1]]%nat
    /\ quant_read self' h_inv pr 0 0 0%nat = 1 / 2
    /\ ls_weight (blocks_done self' h_inv pr 1) 0%nat 1%nat = 3 / 10
    /\ ls_weight (blocks_done self' h_inv pr 1) 0%nat 0%nat = 1 / 2
    /\ snd (single_layer_update self default_percdamp) = Returns tt
    /\ updated_weight self default_percdamp 0%nat 0%nat = 1 / 2
    /\ updated_weight self default_percdamp 0%nat 1%nat = 1 / 2
    /\ Fixtures.round_half (weight (layer self)) 0%nat 0%nat = 1.
Proof.
  cbv zeta.
  set (h := Fixtures.two_groups (Fixtures.mat_of [[1; 0]; [0; 4]])
                                (Fixtures.mat_of [[4; 0]; [0; 1]])).
  destruct depthwise_act_order_inversion as (h_inv & Hinv & Hdiag).
  fold h in Hinv.
  destruct (prepare_spec Fixtures.depthwise_act_order h) as (Hpl & _ & _ & HW).
  destruct depthwise_act_order_perms as [P0 P1]. fold h in P0, P1.
  assert (Epl : permutation_list (prepare Fixtures.depthwise_act_order h)
                = [[1; 0]; [0; 1]]%nat).
  { rewrite Hpl. simpl. now rewrite P0, P1. }
  assert (W00 : p_weight (prepare Fixtures.depthwise_act_order h) 0%nat 0%nat
                = 1).
  { rewrite HW. unfold dead_zeroed, dead_mask, h, Fixtures.two_groups,
      Fixtures.mat_of. simpl. decide_R; auto. }
  assert (W01 : p_weight (prepare Fixtures.depthwise_act_order h) 0%nat 1%nat
                = 3 / 10).
  { rewrite HW. unfold dead_zeroed, dead_mask, h, Fixtures.two_groups,
      Fixtures.mat_of. simpl. decide_R; auto. }
  destruct (Hdiag 0%nat ltac:(lia)) as [Hd0 Hnz0].
  assert (Hoff : h_inv 0%nat 0%nat 1%nat = 0) by (apply Hd0; lia).
  set (pr := prepare Fixtures.depthwise_act_order h) in *.
  set (st0 := {| ls_weight := p_weight pr; ls_block := zeros2;
                 ls_error := zeros2; ls_perm := p_perm pr |}).
  assert (Hq : Fixtures.round_half (p_weight pr) 0%nat 1%nat = 1 / 2).
  { rewrite (@round_half_value _ 0 1 1%Z); rewrite ?W01; lra. }
  destruct (@depthwise_first_block h_inv (p_weight pr) st0 (Hnz0 0%nat ltac:(lia)))
    as (B01 & B00 & Bq).
  cbn [ls_weight st0] in B01, B00, Bq.
  assert (Hb1 : blocks_done
                  (set_H (set_weight Fixtures.depthwise_act_order (p_weight pr))
                         None (nsamples Fixtures.depthwise_act_order))
                  h_inv pr 1
                = block_step
                    (set_H (set_weight Fixtures.depthwise_act_order
                                       (p_weight pr)) None 8)
                    h_inv [[1; 0]; [0; 1]]%nat 0 st0).
  { unfold blocks_done. rewrite for_range_S, for_range_0, Epl. reflexivity. }
  assert (E01 : ls_weight (block_step
                    (set_H (set_weight Fixtures.depthwise_act_order
                                       (p_weight pr)) None 8)
                    h_inv [[1; 0]; [0; 1]]%nat 0 st0) 0%nat 1%nat = 3 / 10)
    by (rewrite B01; exact W01).
  assert (E00 : ls_weight (block_step
                    (set_H (set_weight Fixtures.depthwise_act_order
                                       (p_weight pr)) None 8)
                    h_inv [[1; 0]; [0; 1]]%nat 0 st0) 0%nat 0%nat = 1 / 2).
  { rewrite B00, Hq, W01, Hoff. unfold Rdiv. lra. }
  exists h_inv. split; [exact Hinv|]. split; [exact Epl|].
  split.
  { unfold quant_read. rewrite Epl.
    change (blocks_done _ h_inv pr 0) with st0.
    change (nsamples Fixtures.depthwise_act_order) with 8%nat.
    rewrite Bq. exact Hq. }
  split; [rewrite Hb1; exact E01|]. split; [rewrite Hb1; exact E00|].
  assert (Hsucc := @single_layer_update_success Fixtures.depthwise_act_order
                     h h_inv default_percdamp eq_refl Hinv).
  cbv zeta in Hsucc. fold pr in Hsucc.
  specialize (Hsucc ltac:(simpl; lia)).
  split; [rewrite Hsucc; reflexivity|].
  assert (Hb2 : blocks_done
                  (set_H (set_weight Fixtures.depthwise_act_order (p_weight pr))
                         None (nsamples Fixtures.depthwise_act_order))
                  h_inv pr
                  (ceil_div (columns Fixtures.depthwise_act_order)
                            (blocksize Fixtures.depthwise_act_order))
                = block_step
                    (set_H (set_weight Fixtures.depthwise_act_order
                                       (p_weight pr)) None 8)
                    h_inv [[1; 0]; [0; 1]]%nat 1
                    (block_step
                       (set_H (set_weight Fixtures.depthwise_act_order
                                          (p_weight pr)) None 8)
                       h_inv [[1; 0]; [0; 1]]%nat 0 st0)).
  { change (ceil_div (columns Fixtures.depthwise_act_order)
                     (blocksize Fixtures.depthwise_act_order)) with 2%nat.
    unfold blocks_done. rewrite !for_range_S, for_range_0, Epl. reflexivity. }
  destruct (@depthwise_second_block h_inv (p_weight pr)
              (block_step
                 (set_H (set_weight Fixtures.depthwise_act_order (p_weight pr))
                        None 8)
                 h_inv [[1; 0]; [0; 1]]%nat 0 st0)
              (Hnz0 1%nat ltac:(lia))) as (C00 & C01).
  unfold updated_weight. rewrite Hsucc.
  cbn [fst layer weight set_weight set_layer with_weight].
  rewrite Hb2.
  split; [rewrite C00; exact E00|].
  split.
  - rewrite C01. rewrite (@round_half_value _ 0 0 1%Z); rewrite ?E00; lra.
  - rewrite (@round_half_value _ 0 0 2%Z);
      unfold Fixtures.depthwise_act_order, Fixtures.gptq, Fixtures.depthwise,
        Fixtures.mat_of; simpl; lra.
Qed.

(** ** A dead column under a one-bit quantizer *)

Lemma binary_sign_nonzero (W : Mat) (r c : nat) :
  Fixtures.binary_sign W r c <> 0.
Proof. unfold Fixtures.binary_sign. destruct (Rle_dec 0 (W r c)); lra. Qed.

Lemma dead_binary_fix_dead :
  let M := fix_dead 2 (Fixtures.mat_of [[1; 0]; [0; 0]]) in
  M 0%nat 0%nat = 1 /\ M 1%nat 1%nat = 1
  /\ M 0%nat 1%nat = 0 /\ M 1%nat 0%nat = 0.
Proof.
  cbv zeta. unfold fix_dead, set_diag_where, dead_mask, Fixtures.mat_of.
  simpl. decide_R; auto.
Qed.

Lemma dead_binary_inversion :
  exists h_inv,
    invert_groups default_percdamp (columns Fixtures.dead_binary)
                  (seq 0 (groups Fixtures.dead_binary))
                  (p_H (prepare Fixtures.dead_binary
                          (Fixtures.one_group
                             (Fixtures.mat_of [[1; 0]; [0; 0]]))))
    = Some h_inv.
Proof.
  destruct (prepare_spec Fixtures.dead_binary
              (Fixtures.one_group (Fixtures.mat_of [[1; 0]; [0; 0]])))
    as (_ & _ & HH & _).
  apply invert_groups_succeeds; [apply seq_NoDup|].
  intros g Hg. apply in_seq in Hg.
  change (groups Fixtures.dead_binary) with 1%nat in Hg.
  assert (g = 0%nat) as -> by lia.
  rewrite (HH 0%nat) by (simpl; lia).
  unfold group_H. change (act_order Fixtures.dead_binary) with false.
  cbv iota. change (columns Fixtures.dead_binary) with 2%nat.
  unfold Fixtures.one_group.
  destruct dead_binary_fix_dead as (E00 & E11 & E01 & E10).
  destruct (@invert_group_diagonal default_percdamp 2
              (fix_dead 2 (Fixtures.mat_of [[1; 0]; [0; 0]])))
    as (U & HU & _).
  - intros r c Hr Hc Hrc.
    destruct r as [|[|r]], c as [|[|c]]; try lia; assumption.
  - intros k Hk. unfold mean, diag, default_percdamp. simpl.
    rewrite E00, E11.
    destruct k as [|[|k]]; try lia; rewrite ?E00, ?E11; lra.
  - now exists U.
Qed.

(** The second column of [dead_binary] is dead, the update succeeds, and
    the column ends as the sign the quantizer returns, which is not zero. *)
Lemma dead_column_not_zero :
  Fixtures.one_group (Fixtures.mat_of [[1; 0]; [0; 0]]) 0%nat 1%nat 1%nat = 0
  /\ snd (single_layer_update Fixtures.dead_binary default_percdamp)
     = Returns tt
  /\ updated_weight Fixtures.dead_binary default_percdamp 0%nat 1%nat <> 0.
Proof.
  destruct dead_binary_inversion as (h_inv & Hinv).
  split; [reflexivity|]. split.
  - rewrite (single_layer_update_success Fixtures.dead_binary
               default_percdamp eq_refl Hinv) by (simpl; lia).
    reflexivity.
  - assert (Hrow : row_ok Fixtures.dead_binary 0)
      by (intros Hx; discriminate Hx).
    pose proof (@updated_weight_hit Fixtures.dead_binary _ h_inv
                  default_percdamp (seq 0 2) 1 0 eq_refl Hinv
                  (le_n 1) (le_n 1)) as Hhit.
    pose proof (Hhit
                  (prepare_uniform Fixtures.dead_binary _ (le_n 1)
                                   (or_introl eq_refl))
                  (seq_NoDup 2 0) eq_refl (le_n 2) Hrow) as E.
    cbn [nth seq] in E. rewrite E.
    apply binary_sign_nonzero.
Qed.

Lemma dead_channel_handling_witness :
  p_weight (prepare Fixtures.dead_binary
              (Fixtures.one_group (Fixtures.mat_of [[1; 0]; [0; 0]])))
           0%nat 1%nat = 0.
Proof.
  exact (proj1 (@dead_channel_handling
                  Fixtures.dead_binary _ default_percdamp 0 1
                  eq_refl (le_n 1) (le_n 1) (le_n 2) eq_refl)
               0%nat (fun Hx => False_ind _ (Bool.diff_false_true Hx))).
Defined.

(* ================================================================== *)
(** * Part III: further properties of the code *)
(* ================================================================== *)

(** ** [GPTQ.__init__] *)

Lemma ceil_div_bounds (a b : nat) :
  (0 < b)%nat -> (a <= ceil_div a b * b /\ ceil_div a b * b < a + b)%nat.
Proof.
  intros Hb. unfold ceil_div.
  pose proof (Nat.div_mod_eq (a + b - 1) b) as Hdm.
  pose proof (Nat.mod_upper_bound (a + b - 1) b ltac:(lia)) as Hm.
  nia.
Qed.

(** X1.  [GPTQ.__init__] raises [ZeroDivisionError] exactly when
    [num_blocks] is 0.  Otherwise it builds an object with a zero
    accumulator and sample count 0, with [groups] taken from the layer for
    a convolution and 1 for every other layer, and whose [blocksize] is the
    ceiling of [columns / num_blocks]: the least [k] with
    [columns <= k * num_blocks]. *)
Theorem gptq_init_blocksize :
  forall (l : Layer) (nm : string) (nb : nat) (ao : bool),
    (nb = 0%nat <-> Gptq.init l nm nb ao = Raises ZeroDivisionError)
    /\ ((0 < nb)%nat ->
        exists self,
          Gptq.init l nm nb ao = Returns self
          /\ H self = Some zeros3 /\ nsamples self = 0%nat
          /\ groups self = (match kind l with
                            | QuantConv2d => conv_groups l
                            | _ => 1%nat
                            end)
          /\ rows self = weight_rows l /\ columns self = weight_cols l
          /\ (columns self <= blocksize self * nb)%nat
          /\ (forall k, (columns self <= k * nb)%nat ->
                        (blocksize self <= k)%nat)).
Proof.
  intros l nm nb ao. split.
  - unfold Gptq.init. destruct nb as [|nb]; simpl.
    + split; reflexivity.
    + split; [lia|discriminate].
  - intros Hnb. unfold Gptq.init.
    assert (E : (nb =? 0)%nat = false) by (apply Nat.eqb_neq; lia).
    rewrite E. eexists. split; [reflexivity|]. cbn [H nsamples groups rows
      columns blocksize].
    destruct (ceil_div_bounds (weight_cols l) Hnb) as [Hlo Hhi].
    repeat split; try reflexivity; try assumption.
    intros k Hk. nia.
Qed.

Lemma gptq_init_blocksize_witness :
  exists self,
    Gptq.init (Fixtures.linear 1 3 (Fixtures.const_mat 1) Fixtures.round_half)
              "fc" 2 false = Returns self
    /\ blocksize self = 2%nat.
Proof.
  destruct (proj2 (gptq_init_blocksize
                     (Fixtures.linear 1 3 (Fixtures.const_mat 1)
                                      Fixtures.round_half)
                     "fc" 2 false) (le_S _ _ (le_n 1)))
    as (self & Hinit & _).
  exists self. split; [exact Hinit|].
  injection Hinit as <-. reflexivity.
Defined.

(** ** The blocks of [single_layer_update] *)

(** X2.  The loop [for i1 in range(0, columns, blocksize)] with
    [i2 = min(i1 + blocksize, columns)] cuts the columns into consecutive,
    non-empty blocks of at most [blocksize] columns: the first starts at 0,
    each one ends where the next starts, the last ends at [columns], and
    every column lies in exactly one block.  With the [blocksize] of
    [__init__] there are at most [num_blocks] blocks. *)
Theorem blocks_partition_columns :
  forall (self : GPTQ),
    (0 < blocksize self)%nat -> (0 < columns self)%nat ->
    let nblocks := ceil_div (columns self) (blocksize self) in
    block_start self 0 = 0%nat
    /\ (0 < nblocks)%nat
    /\ block_end self (nblocks - 1) = columns self
    /\ (forall b, (b < nblocks)%nat ->
          (block_start self b < block_end self b <= columns self)%nat
          /\ (block_end self b - block_start self b <= blocksize self)%nat
          /\ ((b + 1 < nblocks)%nat ->
              block_end self b = block_start self (b + 1)))
    /\ (forall p, (p < columns self)%nat ->
          exists b, (b < nblocks)%nat
                    /\ (block_start self b <= p < block_end self b)%nat
                    /\ forall b', (block_start self b' <= p
                                   < block_end self b')%nat -> b' = b)
    /\ (forall nb, (0 < nb)%nat ->
                   blocksize self = ceil_div (columns self) nb ->
                   (nblocks <= nb)%nat).
Proof.
  intros self Hbs Hc nblocks.
  destruct (ceil_div_bounds (columns self) Hbs) as [Hlo Hhi].
  fold nblocks in Hlo, Hhi.
  assert (Hidx : forall p, (p < columns self)%nat ->
                           (p / blocksize self < nblocks)%nat)
    by (intros p Hp; now apply ceil_div_gt).
  clearbody nblocks.
  assert (Hn : (0 < nblocks)%nat).
  { destruct nblocks; [simpl in Hlo; lia|lia]. }
  assert (Hlast : ((nblocks - 1) * blocksize self + blocksize self
                   = nblocks * blocksize self)%nat).
  { destruct nblocks; [lia|]. simpl. rewrite Nat.sub_0_r. lia. }
  unfold block_end, block_start.
  split; [reflexivity|]. split; [exact Hn|].
  split; [rewrite Hlast; apply Nat.min_r; exact Hlo|].
  split; [|split].
  - intros b Hb.
    assert (Hb1 : (b * blocksize self + blocksize self
                   <= nblocks * blocksize self)%nat) by nia.
    assert (Hb2 : (b * blocksize self < columns self)%nat) by nia.
    split; [lia|]. split; [lia|].
    intros Hnext.
    assert (((b + 1) * blocksize self < columns self)%nat) by nia.
    lia.
  - intros p Hp.
    pose proof (Nat.div_mod_eq p (blocksize self)) as Hdm.
    pose proof (Nat.mod_upper_bound p (blocksize self) ltac:(lia)) as Hm.
    exists (p / blocksize self)%nat. split; [now apply Hidx|].
    split; [nia|].
    intros b' Hb'.
    assert (Hlo' : (b' * blocksize self <= p)%nat) by lia.
    assert (Hhi' : (p < b' * blocksize self + blocksize self)%nat) by lia.
    set (q := (p / blocksize self)%nat) in *.
    destruct (Nat.lt_total b' q) as [Hlt|[Heq|Hgt]]; [|exact Heq|].
    + assert ((b' + 1) * blocksize self <= q * blocksize self)%nat
        by (apply Nat.mul_le_mono_r; lia).
      lia.
    + assert ((q + 1) * blocksize self <= b' * blocksize self)%nat
        by (apply Nat.mul_le_mono_r; lia).
      lia.
  - intros nb Hnb Hbsz.
    destruct (ceil_div_bounds (columns self) Hnb) as [Hlo' Hhi'].
    rewrite <- Hbsz in Hlo', Hhi'.
    assert (Hk : ((nblocks - 1) * blocksize self < columns self)%nat) by lia.
    destruct (Nat.le_gt_cases nblocks nb) as [Hle|Hgt]; [exact Hle|].
    assert ((nb * blocksize self <= (nblocks - 1) * blocksize self)%nat)
      by (apply Nat.mul_le_mono_r; lia).
    lia.
Qed.

Lemma blocks_partition_columns_witness :
  block_end Fixtures.ill_conditioned
            (ceil_div (columns Fixtures.ill_conditioned)
                      (blocksize Fixtures.ill_conditioned) - 1)
  = columns Fixtures.ill_conditioned.
Proof.
  exact (proj1 (proj2 (proj2 (@blocks_partition_columns
                                Fixtures.ill_conditioned
                                (le_n 1) (le_S _ _ (le_S _ _ (le_n 1))))))).
Defined.

(** ** [update_batch]: what every call does *)



Lemma after_batch_2d (self : GPTQ) (q : bool) (m : list Vec) :
  after_batch self (wrap q (Tensor2D m))
  = after_batch self (wrap q (Tensor3D [m])).
Proof. unfold after_batch, update_batch. now destruct q. Qed.

Lemma after_batch_nsamples (self : GPTQ) (input : Activation)
      (P : nat -> list Vec) (h : Tensor3) :
  preprocess (layer self) (hook_tensor input) = Returns (Stacked P None) ->
  H self = Some h ->
  (nsamples self + shape0 (hook_tensor input))%nat <> 0%nat ->
  nsamples (after_batch self input)
  = (nsamples self + shape0 (hook_tensor input))%nat.
Proof.
  intros HP Hh Hn.
  destruct (@after_batch_updated self input (Stacked P None) P h
              HP eq_refl Hh Hn) as (h' & E & _).
  now rewrite E.
Qed.

(** X4.  A two-dimensional input is one sample, whatever its number of
    rows: on a dense layer, [update_batch] treats [S, F] as [1, S, F].  So
    a fresh accumulator after one such input of rows [m1 ++ m2] is twice
    the Gram matrix of the rows (sample count 1), while after the two
    inputs [m1] and [m2] it is the Gram matrix itself (sample count 2):
    splitting a two-dimensional input halves the accumulator. *)
Theorem two_dimensional_input_is_one_sample :
  forall (self : GPTQ) (q : bool) (m1 m2 : list Vec) (g i j : nat),
    kind (layer self) = QuantLinear ->
    H self = Some zeros3 -> nsamples self = 0%nat ->
    after_batch self (wrap q (Tensor2D (m1 ++ m2)))
    = after_batch self (wrap q (Tensor3D [m1 ++ m2]))
    /\ nsamples (after_batch self (wrap q (Tensor2D (m1 ++ m2)))) = 1%nat
    /\ acc (after_batch self (wrap q (Tensor2D (m1 ++ m2)))) g i j
       = 2 * bmm_transpose (m1 ++ m2) i j
    /\ acc (after_batches self [wrap q (Tensor2D m1); wrap q (Tensor2D m2)])
           g i j
       = bmm_transpose (m1 ++ m2) i j.
Proof.
  intros self q m1 m2 g i j Hk Hh Hn.
  assert (HP : forall b, preprocess (layer self) (Tensor3D b)
                         = Returns (Stacked (fun _ => concat b) None))
    by (intros b; unfold preprocess; now rewrite Hk).
  split; [apply after_batch_2d|]. rewrite after_batch_2d. split; [|split].
  - rewrite (@after_batch_nsamples self _ (fun _ => concat [m1 ++ m2]) zeros3);
      rewrite ?hook_tensor_wrap by reflexivity; auto.
    + simpl. lia.
    + simpl. lia.
  - rewrite (@batching_fresh _ Tensor3D (layer self) (fun _ b => concat b));
      auto.
    simpl. rewrite app_nil_r. lra.
  - unfold after_batches. cbn [fold_left]. rewrite !after_batch_2d.
    change (after_batch (after_batch self (wrap q (Tensor3D [m1])))
                        (wrap q (Tensor3D [m2])))
      with (after_batches self [wrap q (Tensor3D [m1]);
                                wrap q (Tensor3D [m2])]).
    rewrite (@batching_any_state _ Tensor3D (layer self)
               (fun _ b => concat b)); auto using concat_app, preprocess_3d.
    rewrite (@batching_fresh _ Tensor3D (layer self) (fun _ b => concat b));
      auto; [|simpl; lia].
    simpl. rewrite app_nil_r. lra.
Qed.

Lemma two_dimensional_input_is_one_sample_witness :
  nsamples (after_batch Fixtures.unseen
              (wrap false (Tensor2D ([Fixtures.const_vec 1]
                                       ++ [Fixtures.const_vec 3]))))
  = 1%nat.
Proof.
  exact (proj1 (proj2 (@two_dimensional_input_is_one_sample
                         Fixtures.unseen false
                         [Fixtures.const_vec 1] [Fixtures.const_vec 3]
                         0 0 0 eq_refl eq_refl eq_refl))).
Defined.

(** ** Any number of batches *)

Section Accumulate.

Variable A : Type.
Variable T : list A -> Tensor.
Variable l : Layer.
Variable cols : nat -> list A -> list Vec.

Hypothesis T_ndim : forall b, (ndim (T b) =? 2)%nat = false.
Hypothesis T_shape : forall b, shape0 (T b) = length b.
Hypothesis cols_nil : forall g, cols g [] = [].
Hypothesis cols_app :
  forall g xs ys, cols g (xs ++ ys) = cols g xs ++ cols g ys.
Hypothesis preprocess_T :
  forall b, preprocess l (T b) = Returns (Stacked (fun g => cols g b) None).

(** The accumulator times the sample count is twice the Gram matrix of the
    samples seen so far; this is kept by every batch. *)
Lemma after_batches_running (q : bool) (bs : list (list A)) :
  forall (self : GPTQ) (seen : list A) (h : Tensor3),
    layer self = l -> H self = Some h -> nsamples self = length seen ->
    (forall g i j, h g i j * INR (length seen)
                   = 2 * bmm_transpose (cols g seen) i j) ->
    let st := after_batches self (map (fun b => wrap q (T b)) bs) in
    layer st = l
    /\ nsamples st = length (seen ++ concat bs)
    /\ exists h', H st = Some h'
                  /\ forall g i j,
                      h' g i j * INR (length (seen ++ concat bs))
                      = 2 * bmm_transpose (cols g (seen ++ concat bs)) i j.
Proof.
  induction bs as [|b bs IH]; intros self seen h Hl Hh Hn Hinv; cbv zeta.
  - simpl. rewrite app_nil_r. split; [exact Hl|]. split; [exact Hn|].
    now exists h.
  - unfold after_batches. cbn [map fold_left].
    fold (after_batches (after_batch self (wrap q (T b)))
                        (map (fun b => wrap q (T b)) bs)).
    assert (Hsh : shape0 (hook_tensor (wrap q (T b))) = length b)
      by (now rewrite hook_tensor_wrap, T_shape by apply T_ndim).
    destruct (Nat.eq_dec (nsamples self + length b) 0) as [Hz|Hnz].
    + rewrite (after_batch_unchanged self (wrap q (T b)))
        by (right; right; rewrite Hsh; exact Hz).
      assert (Hb : b = []) by (destruct b; simpl in *; [easy|lia]).
      subst b. simpl. now apply (IH self seen h).
    + destruct (@after_batch_updated self (wrap q (T b))
                  (Stacked (fun g => cols g b) None)
                  (fun g => cols g b) h) as (h1 & E1 & F1).
      { now rewrite hook_tensor_wrap, Hl, preprocess_T by apply T_ndim. }
      { reflexivity. }
      { exact Hh. }
      { rewrite Hsh. exact Hnz. }
      rewrite E1, Hsh.
      replace (seen ++ concat (b :: bs)) with ((seen ++ b) ++ concat bs)
        by (simpl; now rewrite app_assoc).
      apply (IH _ (seen ++ b) h1); try reflexivity.
      * exact Hl.
      * cbn [nsamples set_H]. rewrite length_app. lia.
      * intros g i j. rewrite F1, Hsh, cols_app, bmm_transpose_app.
        rewrite length_app, <- Hn.
        assert (Hne : INR (nsamples self + length b) <> 0)
          by (apply not_0_INR; exact Hnz).
        specialize (Hinv g i j). rewrite <- Hn in Hinv.
        replace (2 * (bmm_transpose (cols g seen) i j
                      + bmm_transpose (cols g b) i j))
          with (h g i j * INR (nsamples self)
                + 2 * bmm_transpose (cols g b) i j) by lra.
        field. exact Hne.
Qed.

Lemma after_batches_from_fresh (q : bool) (bs : list (list A)) (self : GPTQ)
      (g i j : nat) :
  layer self = l -> H self = Some zeros3 -> nsamples self = 0%nat ->
  (0 < length (concat bs))%nat ->
  nsamples (after_batches self (map (fun b => wrap q (T b)) bs))
  = length (concat bs)
  /\ acc (after_batches self (map (fun b => wrap q (T b)) bs)) g i j
     = 2 / INR (length (concat bs)) * bmm_transpose (cols g (concat bs)) i j.
Proof.
  intros Hl Hh Hn Hpos.
  destruct (@after_batches_running q bs self [] zeros3 Hl Hh Hn)
    as (_ & Hns & h' & Hh' & Hv).
  { intros g' i' j'. rewrite cols_nil. unfold zeros3, bmm_transpose.
    simpl. lra. }
  simpl in Hns, Hv. split; [exact Hns|].
  unfold acc. rewrite Hh'.
  assert (Hne : INR (length (concat bs)) <> 0)
    by (apply not_0_INR; lia).
  specialize (Hv g i j).
  apply (Rmult_eq_reg_r (INR (length (concat bs)))); [|exact Hne].
  rewrite Hv. field. exact Hne.
Qed.

End Accumulate.

(** X5.  After any sequence of batches on a freshly initialised object,
    with [N > 0] samples in all, the sample count is [N] and the
    accumulator is [2/N] times the sum of the Gram matrices of the
    processed samples: of the rows of each sample for a dense layer fed
    [B, S, F] inputs, of the unfolded patches of each sample for a
    convolution fed [B, C, H, W] inputs.  Empty batches change nothing. *)
Theorem accumulator_after_any_batches :
  forall (l : Layer) (nm : string) (nb : nat) (ao : bool) (self : GPTQ)
         (q : bool) (g i j : nat),
    Gptq.init l nm nb ao = Returns self ->
    (kind l = QuantLinear ->
     forall bs : list (list (list Vec)),
       (0 < length (concat bs))%nat ->
       let st := after_batches self (map (fun b => wrap q (Tensor3D b)) bs) in
       nsamples st = length (concat bs)
       /\ acc st g i j
          = 2 / INR (length (concat bs))
            * lsum (map (fun s => bmm_transpose s i j) (concat bs)))
    /\ (kind l = QuantConv2d ->
        forall bs : list (list Image),
          (0 < length (concat bs))%nat ->
          let st := after_batches self (map (fun b => wrap q (Tensor4D b)) bs) in
          nsamples st = length (concat bs)
          /\ acc st g i j
             = 2 / INR (length (concat bs))
               * lsum (map (fun x => bmm_transpose (unfold_group l g x) i j)
                           (concat bs))).
Proof.
  intros l nm nb ao self q g i j Hinit.
  destruct (init_fresh _ _ _ _ Hinit) as (Hl & Hh & Hn & _).
  split; intros Hk bs Hpos; cbv zeta.
  - rewrite <- bmm_transpose_concat.
    apply (@after_batches_from_fresh _ Tensor3D l (fun _ b => concat b));
      auto using concat_app.
    intros b. unfold preprocess. now rewrite Hk.
  - rewrite <- bmm_transpose_flat_map.
    apply (@after_batches_from_fresh _ Tensor4D l
             (fun g b => flat_map (unfold_group l g) b));
      auto using flat_map_app.
    intros b. unfold preprocess. now rewrite Hk.
Qed.

Lemma accumulator_after_any_batches_witness :
  nsamples (after_batches Fixtures.unseen
              (map (fun b => wrap false (Tensor3D b))
                   [[[Fixtures.const_vec 1]]; [];
                    [[Fixtures.const_vec 2]; [Fixtures.const_vec 3]]]))
  = 3%nat.
Proof.
  exact (proj1 (proj1 (@accumulator_after_any_batches
                         (Fixtures.linear 1 1 (Fixtures.const_mat 1)
                                          Fixtures.round_half)
                         "fc" 4 false Fixtures.unseen false 0 0 0 eq_refl)
                      eq_refl
                      [[[Fixtures.const_vec 1]]; [];
                       [[Fixtures.const_vec 2]; [Fixtures.const_vec 3]]]
                      (le_S _ _ (le_S _ _ (le_n 1))))).
Defined.

(** ** [single_layer_update]: the accumulator is released *)

Lemma single_layer_update_forms (self : GPTQ) (pd : R) :
  (H self = None
   /\ single_layer_update self pd = (self, [], Raises AttributeError))
  \/ (exists h W ws r,
         H self = Some h
         /\ single_layer_update self pd
            = (set_H (set_weight self W) None (nsamples self), ws, r)).
Proof.
  unfold single_layer_update. destruct (H self) as [h|]; [right|now left].
  exists h. cbn [columns groups nsamples set_weight set_layer blocksize set_H].
  destruct (invert_groups pd (columns self) (seq 0 (groups self))
                          (p_H (prepare self h))) as [h_inv|].
  - destruct (blocksize self =? 0)%nat.
    + now exists (p_weight (prepare self h)), [], (Raises ValueError).
    + eexists _, [], (Returns tt). split; reflexivity.
  - eexists (p_weight (prepare self h)), _, (Returns tt).
    split; reflexivity.
Qed.

(** X6.  [single_layer_update] deletes the accumulator on every path that
    gets past its first line ([del self.H] in the [finally] clause): after
    a call on an object with a live accumulator, [H] is gone whether the
    inversion failed or not.  The call changes nothing of the object but
    the layer's weight and [H].  A call on an object without accumulator,
    so in particular a second call, raises [AttributeError] and changes
    nothing. *)
Theorem single_layer_update_releases_accumulator :
  forall (self : GPTQ) (pd pd' : R),
    let out := single_layer_update self pd in
    H (fst (fst out)) = None
    /\ (H self = None -> out = (self, [], Raises AttributeError))
    /\ single_layer_update (fst (fst out)) pd'
       = (fst (fst out), [], Raises AttributeError)
    /\ nsamples (fst (fst out)) = nsamples self
    /\ name (fst (fst out)) = name self
    /\ groups (fst (fst out)) = groups self
    /\ columns (fst (fst out)) = columns self
    /\ blocksize (fst (fst out)) = blocksize self
    /\ act_order (fst (fst out)) = act_order self
    /\ quant_weight (layer (fst (fst out))) = quant_weight (layer self)
    /\ kind (layer (fst (fst out))) = kind (layer self).
Proof.
  intros self pd pd'. cbv zeta.
  assert (Hnone : forall st : GPTQ, H st = None ->
            single_layer_update st pd' = (st, [], Raises AttributeError)).
  { intros st Hst. unfold single_layer_update. now rewrite Hst. }
  destruct (single_layer_update_forms self pd)
    as [[Hh E]|(h & W & ws & r & Hh & E)]; rewrite E; cbn [fst snd].
  - repeat split; auto.
  - repeat split; try reflexivity; try congruence.
Qed.

Lemma single_layer_update_releases_accumulator_witness :
  H (fst (fst (single_layer_update Fixtures.ill_conditioned default_percdamp)))
  = None.
Proof.
  exact (proj1 (single_layer_update_releases_accumulator
                  Fixtures.ill_conditioned default_percdamp
                  default_percdamp)).
Defined.

(** ** The accumulator that enters the inversion *)

Lemma fix_dead_sym (n : nat) (A : Mat) (i j : nat) :
  A i j = A j i -> fix_dead n A i j = fix_dead n A j i.
Proof.
  intros Hs. unfold fix_dead, set_diag_where.
  destruct (Nat.eq_dec i j) as [->|Hne]; [reflexivity|].
  assert (E1 : (i =? j)%nat = false) by (apply Nat.eqb_neq; exact Hne).
  assert (E2 : (j =? i)%nat = false) by (apply Nat.eqb_neq; congruence).
  now rewrite E1, E2.
Qed.

Lemma fix_dead_diag_nonzero (n : nat) (A : Mat) (k : nat) :
  (k < n)%nat -> fix_dead n A k k <> 0.
Proof.
  intros Hk. unfold fix_dead, set_diag_where, dead_mask.
  rewrite Nat.eqb_refl. apply Nat.ltb_lt in Hk. rewrite Hk. simpl.
  destruct (Req_dec_T (A k k) 0); [lra|assumption].
Qed.

(** X7.  The accumulator of each group, as it enters the [try] block: no
    diagonal entry is zero (the dead-channel step has set the zero ones to
    1); it is symmetric if the accumulator was; with [act_order] its
    diagonal is in descending order, and the entry [(i, j)] is the entry
    [(perm[i], perm[j])] of the accumulator after the dead-channel step;
    without [act_order] only the dead diagonal entries differ from the
    accumulator before the call. *)
Theorem prepared_accumulator :
  forall (self : GPTQ) (h : Tensor3) (g : nat),
    (g < ngroups self)%nat ->
    let A := p_H (prepare self h) g in
    let perm := nth g (permutation_list (prepare self h)) [] in
    (forall p, (p < columns self)%nat -> A p p <> 0)
    /\ ((forall i j, h g i j = h g j i) -> forall i j, A i j = A j i)
    /\ (act_order self = true ->
        (forall a b, (a < b < columns self)%nat -> A b b <= A a a)
        /\ forall i j, A i j = fix_dead (columns self) (h g)
                                        (nth i perm 0%nat) (nth j perm 0%nat))
    /\ (act_order self = false ->
        forall i j, A i j = if (i =? j)%nat && dead_mask (columns self) (h g) i
                            then 1 else h g i j).
Proof.
  intros self h g Hg. cbv zeta.
  destruct (prepare_spec self h) as (Hpl & _ & HH & _).
  rewrite (HH g Hg). rewrite Hpl.
  rewrite (nth_indep _ [] (group_perm self (h 0%nat)))
    by (rewrite length_map, length_seq; exact Hg).
  rewrite (map_nth (fun g => group_perm self (h g))), seq_nth by exact Hg.
  cbn [plus].
  split; [|split; [|split]].
  - intros p Hp. rewrite group_H_diag by exact Hp.
    apply fix_dead_diag_nonzero. now apply group_perm_bound.
  - intros Hs i j. unfold group_H.
    destruct (act_order self); [unfold permute2|]; apply fix_dead_sym, Hs.
  - intros Hao. split.
    + intros a b Hab. rewrite !group_H_diag by lia.
      apply (@group_perm_descending self (h g) Hao a b).
      rewrite group_perm_length. exact Hab.
    + intros i j. unfold group_H. rewrite Hao. reflexivity.
  - intros Hao i j. unfold group_H. rewrite Hao. reflexivity.
Qed.

Lemma prepared_accumulator_witness :
  p_H (prepare Fixtures.on_grid
         (Fixtures.one_group (Fixtures.mat_of [[1; 0]; [0; 4]])))
      0%nat 1%nat 1%nat
  <= p_H (prepare Fixtures.on_grid
            (Fixtures.one_group (Fixtures.mat_of [[1; 0]; [0; 4]])))
         0%nat 0%nat 0%nat.
Proof.
  exact (proj1 (proj1 (proj2 (proj2 (@prepared_accumulator
                                       Fixtures.on_grid
                                       (Fixtures.one_group
                                          (Fixtures.mat_of [[1; 0]; [0; 4]]))
                                       0 (le_n 1))))
                      eq_refl)
               0%nat 1%nat (conj (le_n 1) (le_n 2))).
Defined.

(** ** The block loop with one permutation *)

Lemma on_grid_perm :
  group_perm Fixtures.on_grid (Fixtures.mat_of [[1; 0]; [0; 4]]) = [1; 0]%nat.
Proof.
  unfold group_perm, argsort_desc, diag, fix_dead, set_diag_where, dead_mask,
    Fixtures.mat_of.
  simpl. decide_R; auto.
Qed.

Lemma on_grid_inversion :
  exists h_inv,
    invert_groups default_percdamp (columns Fixtures.on_grid)
                  (seq 0 (groups Fixtures.on_grid))
                  (p_H (prepare Fixtures.on_grid
                          (Fixtures.one_group
                             (Fixtures.mat_of [[1; 0]; [0; 4]]))))
    = Some h_inv.
Proof.
  destruct (prepare_spec Fixtures.on_grid
              (Fixtures.one_group (Fixtures.mat_of [[1; 0]; [0; 4]])))
    as (_ & _ & HH & _).
  apply invert_groups_succeeds; [apply seq_NoDup|].
  intros g Hg. apply in_seq in Hg.
  change (groups Fixtures.on_grid) with 1%nat in Hg.
  assert (g = 0%nat) as -> by lia.
  rewrite (HH 0%nat) by (simpl; lia).
  unfold group_H. change (act_order Fixtures.on_grid) with true. cbv iota.
  unfold Fixtures.one_group. rewrite on_grid_perm.
  change (columns Fixtures.on_grid) with 2%nat.
  assert (Hd : diagonal_below 2
                 (permute2 [1; 0]%nat
                    (fix_dead 2 (Fixtures.mat_of [[1; 0]; [0; 4]])))).
  { intros r c Hr Hc Hrc.
    unfold permute2, fix_dead, set_diag_where, dead_mask, Fixtures.mat_of.
    destruct r as [|[|r]], c as [|[|c]]; try lia; simpl; decide_R; auto. }
  assert (Hp : forall k, (k < 2)%nat ->
             1 <= permute2 [1; 0]%nat
                    (fix_dead 2 (Fixtures.mat_of [[1; 0]; [0; 4]])) k k).
  { intros k Hk.
    unfold permute2, fix_dead, set_diag_where, dead_mask, Fixtures.mat_of.
    destruct k as [|[|k]]; try lia; simpl; decide_R; auto; lra. }
  destruct (@invert_group_diagonal default_percdamp 2 _ Hd) as (U & HU & _).
  - intros k Hk. unfold mean, diag, default_percdamp. simpl.
    pose proof (Hp 0%nat ltac:(lia)). pose proof (Hp 1%nat ltac:(lia)).
    pose proof (Hp k Hk). lra.
  - now exists U.
Qed.

(** X8.  With a single group, or without [act_order], a successful
    [single_layer_update] leaves every column (taken in the order of the
    permutation) equal to the quantized value [get_quant_weights] returned
    for it when the column was processed: the later columns of its block,
    the propagation at the end of the block and the later blocks do not
    touch it again. *)
Theorem processed_columns_hold_quantized_value :
  forall (self : GPTQ) (h h_inv : Tensor3) (pd : R) (p r : nat),
    H self = Some h ->
    invert_groups pd (columns self) (seq 0 (groups self))
                  (p_H (prepare self h)) = Some h_inv ->
    (0 < blocksize self)%nat -> (1 <= groups self)%nat ->
    groups self = 1%nat \/ act_order self = false ->
    (p < columns self)%nat -> row_ok self r ->
    updated_weight self pd r (nth p (group_perm self (h 0%nat)) 0%nat)
    = quant_read (set_H (set_weight self (p_weight (prepare self h))) None
                        (nsamples self))
                 h_inv (prepare self h)
                 (p / blocksize self) (p mod blocksize self) r.
Proof.
  intros self h h_inv pd p r Hh Hinv Hbs Hg Hc Hp Hr.
  apply updated_weight_hit; auto.
  - now apply prepare_uniform.
  - apply group_perm_NoDup.
  - apply group_perm_length.
Qed.

Lemma processed_columns_hold_quantized_value_witness :
  exists h_inv,
    updated_weight Fixtures.on_grid default_percdamp 0%nat
      (nth 0 (group_perm Fixtures.on_grid
                (Fixtures.one_group (Fixtures.mat_of [[1; 0]; [0; 4]]) 0%nat))
           0%nat)
    = quant_read
        (set_H (set_weight Fixtures.on_grid
                  (p_weight (prepare Fixtures.on_grid
                               (Fixtures.one_group
                                  (Fixtures.mat_of [[1; 0]; [0; 4]])))))
               None (nsamples Fixtures.on_grid))
        h_inv
        (prepare Fixtures.on_grid
           (Fixtures.one_group (Fixtures.mat_of [[1; 0]; [0; 4]])))
        (0 / blocksize Fixtures.on_grid) (0 mod blocksize Fixtures.on_grid)
        0%nat.
Proof.
  destruct on_grid_inversion as (h_inv & Hinv).
  exists h_inv.
  exact (@processed_columns_hold_quantized_value
           Fixtures.on_grid _ h_inv default_percdamp 0 0
           eq_refl Hinv (le_n 1) (le_n 1) (or_introl eq_refl)
           (le_S _ _ (le_n 1))
           (fun Hx => False_ind _ (Bool.diff_false_true Hx))).
Defined.

(** ** Weights that are already on the quantizer's grid *)

Section Grid.

Variable self : GPTQ.
Variable h_inv : Tensor3.
Variable pr : Prepared.
Variable pv : list nat.
Variable W0 : Mat.

Let pl := permutation_list pr.

Hypothesis Huni : uniform pl pv.
Hypothesis Hpllen : length pl = ngroups self.
Hypothesis Hgrp : (1 <= groups self)%nat.
Hypothesis Hnd : NoDup pv.
Hypothesis Hlen : length pv = columns self.
Hypothesis Hbound :
  forall p, (p < columns self)%nat -> (nth p pv 0 < columns self)%nat.
Hypothesis Hid : act_order self = false -> pv = seq 0 (columns self).
Hypothesis Hgrid : quantizer_fixes self W0.

Lemma grid_row_in_list (r : nat) :
  row_ok self r -> (groups self =? 1)%nat = false ->
  (r <? length pl)%nat = true.
Proof.
  intros Hr Hg1. apply Nat.eqb_neq in Hg1. apply Nat.ltb_lt.
  rewrite Hpllen. unfold ngroups, row_ok in *.
  destruct (1 <? groups self)%nat eqn:E.
  - now apply Hr.
  - apply Nat.ltb_ge in E. lia.
Qed.

Lemma grid_quant_read (W : Mat) (i1 i2 i r : nat) :
  weights_agree self W W0 -> (i1 + i < columns self)%nat -> row_ok self r ->
  get_quant_weights self W i i1 i2 pl r = W0 r (nth (i1 + i) pv 0%nat).
Proof.
  intros HW Hi Hr. unfold get_quant_weights.
  pose proof (Hgrid HW) as Hq.
  destruct (act_order self) eqn:Hao.
  - destruct (groups self =? 1)%nat eqn:Hg1.
    + rewrite (uniform_nth0 Huni). apply Hq; [exact Hr|now apply Hbound].
    + rewrite (grid_row_in_list Hr Hg1).
      rewrite (uniform_nth Huni)
        by (apply Nat.ltb_lt; now apply grid_row_in_list).
      apply Hq; [exact Hr|now apply Hbound].
  - rewrite (Hid eq_refl), seq_nth by exact Hi. simpl.
    now apply Hq.
Qed.

Lemma grid_block_enter (b : nat) (st : LoopState) :
  weights_agree self (ls_weight st) W0 ->
  grid_state self pv W0 (block_start self b)
             (block_end self b - block_start self b)
             (block_enter self pl b st).
Proof.
  intros HW. assert (Hcols : (block_end self b <= columns self)%nat)
    by (unfold block_end; apply Nat.le_min_r).
  unfold grid_state, block_enter.
  destruct (groups self =? 1)%nat eqn:Hg1; cbn [ls_perm ls_weight ls_block
                                               ls_error].
  - split; [now apply uniform_nth0|]. split; [exact HW|].
    split; [|reflexivity].
    intros r c Hr Hc. rewrite (uniform_nth0 Huni).
    apply HW; [exact Hr|apply Hbound; lia].
  - split; [now apply uniform_last|]. split; [exact HW|].
    split; [|reflexivity].
    intros r c Hr Hc. rewrite (grid_row_in_list Hr Hg1).
    rewrite (uniform_nth Huni)
      by (apply Nat.ltb_lt; now apply grid_row_in_list).
    apply HW; [exact Hr|apply Hbound; lia].
Qed.

Lemma grid_column_step (i1 i2 i : nat) (st : LoopState) :
  (i2 <= columns self)%nat -> (i1 + i < i2)%nat ->
  grid_state self pv W0 i1 (i2 - i1) st ->
  grid_state self pv W0 i1 (i2 - i1) (column_step self h_inv pl i1 i2 i st).
Proof.
  intros Hi2 Hi (Hp & HW & Hb & He).
  assert (Herr : forall r, row_ok self r ->
            (ls_block st r i
             - get_quant_weights self (ls_weight st) i i1 i2 pl r)
            / h_inv (if (1 <? groups self)%nat then r else 0%nat)
                    (i1 + i)%nat (i1 + i)%nat = 0).
  { intros r Hr. rewrite grid_quant_read by (auto; lia).
    rewrite Hb by (auto; lia). unfold Rdiv. ring. }
  assert (Hwb : forall r c, row_ok self r ->
            ls_block (column_step self h_inv pl i1 i2 i st) r c
            = ls_block st r c).
  { intros r c Hr. unfold column_step. cbn [ls_block].
    destruct (1 <? groups self)%nat eqn:Hg.
    - destruct ((r <? groups self)%nat && (i <=? c)%nat
                && (c <? i2 - i1)%nat); [|reflexivity].
      specialize (Herr r Hr). rewrite Herr. ring.
    - destruct ((i <=? c)%nat && (c <? i2 - i1)%nat); [|reflexivity].
      specialize (Herr r Hr). rewrite Herr. ring. }
  unfold grid_state. split; [exact Hp|]. split; [|split].
  - intros r c Hr Hc.
    change (ls_weight (column_step self h_inv pl i1 i2 i st))
      with (put_cols (fun _ => true) (skipn i (slice i1 i2 (ls_perm st)))
                     (fun r p =>
                        ls_block (column_step self h_inv pl i1 i2 i st) r
                                 (i + p)%nat)
                     (ls_weight st)).
    rewrite Hp.
    set (idx := skipn i (slice i1 i2 pv)).
    assert (Hidxlen : length idx = (i2 - i1 - i)%nat).
    { unfold idx. rewrite length_skipn, slice_length by lia. lia. }
    destruct (in_dec Nat.eq_dec c idx) as [Hin|Hnin].
    + apply (In_nth _ _ 0%nat) in Hin. destruct Hin as (p & Hpl & Hpc).
      rewrite <- Hpc.
      rewrite put_cols_hit;
        [|now apply NoDup_skipn, NoDup_slice|exact Hpl|reflexivity].
      rewrite Hwb by exact Hr. rewrite Hb by (auto; lia).
      f_equal. unfold idx. rewrite nth_skipn, nth_slice by lia.
      f_equal; lia.
    + rewrite put_cols_other by (now right). now apply HW.
  - intros r c Hr Hc. rewrite Hwb by exact Hr. now apply Hb.
  - intros r c Hr. unfold column_step. cbn [ls_error].
    destruct (c =? i)%nat; [now apply Herr|now apply He].
Qed.

Lemma grid_block_columns (b k : nat) (st : LoopState) :
  (k <= block_end self b - block_start self b)%nat ->
  weights_agree self (ls_weight st) W0 ->
  grid_state self pv W0 (block_start self b)
             (block_end self b - block_start self b)
             (block_columns self h_inv pl b k st).
Proof.
  intros Hk HW. assert (Hcols : (block_end self b <= columns self)%nat)
    by (unfold block_end; apply Nat.le_min_r).
  unfold block_columns. induction k as [|k IH].
  - rewrite for_range_0. now apply grid_block_enter.
  - rewrite for_range_S. apply grid_column_step; [exact Hcols|lia|].
    apply IH. lia.
Qed.

Lemma grid_sub_cols (sel : nat -> bool) (idx : list nat)
      (D : nat -> nat -> R) (W : Mat) :
  NoDup idx ->
  (forall r p, row_ok self r -> sel r = true -> D r p = 0) ->
  weights_agree self W W0 ->
  weights_agree self (sub_cols sel idx D W) W0.
Proof.
  intros Hndx HD HW r c Hr Hc.
  destruct (sel r) eqn:Hs.
  - destruct (in_dec Nat.eq_dec c idx) as [Hin|Hnin].
    + apply (In_nth _ _ 0%nat) in Hin. destruct Hin as (p & Hpl & Hpc).
      rewrite <- Hpc. unfold sub_cols.
      rewrite put_cols_hit by assumption.
      rewrite HD by assumption. rewrite Hpc, Rminus_0_r. now apply HW.
    + rewrite sub_cols_other by (now right). now apply HW.
  - rewrite sub_cols_other by (now left). now apply HW.
Qed.

Lemma grid_block_finish (b : nat) (st : LoopState) :
  grid_state self pv W0 (block_start self b)
             (block_end self b - block_start self b) st ->
  weights_agree self (ls_weight (block_finish self h_inv pl b st)) W0.
Proof.
  intros (Hp & HW & Hb & He).
  assert (HD : forall (g r p : nat), row_ok self r ->
            rsum (block_end self b - block_start self b)
                 (fun k => ls_error st r k
                           * h_inv g (block_start self b + k)%nat
                                   (block_end self b + p)%nat) = 0).
  { intros g r p Hr. apply rsum_zero. intros k _. rewrite He by exact Hr.
    ring. }
  unfold block_finish.
  destruct (1 <? groups self)%nat; cbn [ls_weight].
  - destruct Huni as [_ Hall].
    assert (Hgen : forall (es : list (nat * list nat)) (W : Mat),
               (forall e, In e es -> snd e = pv) ->
               weights_agree self W W0 ->
               weights_agree self
                 (fold_left
                    (fun W (e : nat * list nat) =>
                       let (ii, perm) := e in
                       sub_cols (fun r => (r =? ii)%nat)
                                (skipn (block_end self b) perm)
                                (fun r p =>
                                   rsum (block_end self b - block_start self b)
                                        (fun k =>
                                           ls_error st r k
                                           * h_inv ii
                                               (block_start self b + k)%nat
                                               (block_end self b + p)%nat))
                                W) es W) W0).
    { induction es as [|[ii perm] es IHes]; intros W Hes HW'; simpl.
      - exact HW'.
      - apply IHes; [intros e He'; apply Hes; now right|].
        assert (Hperm : perm = pv) by (apply (Hes (ii, perm)); now left).
        rewrite Hperm. apply grid_sub_cols; [now apply NoDup_skipn| |exact HW'].
        intros r p Hr _. now apply HD. }
    apply Hgen; [|exact HW].
    intros [ii perm] Hin. simpl. apply in_combine_r in Hin. now apply Hall.
  - rewrite (uniform_nth0 Huni).
    apply grid_sub_cols; [now apply NoDup_skipn| |exact HW].
    intros r p Hr _. now apply HD.
Qed.

Lemma grid_block_step (b : nat) (st : LoopState) :
  weights_agree self (ls_weight st) W0 ->
  weights_agree self (ls_weight (block_step self h_inv pl b st)) W0.
Proof.
  intros HW. unfold block_step. apply grid_block_finish.
  apply grid_block_columns; [lia|exact HW].
Qed.

Lemma grid_blocks_done (k : nat) :
  weights_agree self (p_weight pr) W0 ->
  weights_agree self (ls_weight (blocks_done self h_inv pr k)) W0.
Proof.
  intros HW. unfold blocks_done. induction k as [|k IH].
  - rewrite for_range_0. exact HW.
  - rewrite for_range_S. now apply grid_block_step.
Qed.

End Grid.

Lemma dead_zeroed_live_in (self : GPTQ) (h : Tensor3) (W : Mat) (r c : nat) :
  (forall g, h g c c <> 0) -> dead_zeroed self h W r c = W r c.
Proof.
  intros Hlive. unfold dead_zeroed, dead_mask.
  destruct (1 <? groups self)%nat.
  - destruct (Req_dec_T (h r c c) 0) as [E|_]; [now elim (Hlive r)|].
    now rewrite !andb_false_r.
  - destruct (Req_dec_T (h 0%nat c c) 0) as [E|_]; [now elim (Hlive 0%nat)|].
    now rewrite andb_false_r.
Qed.

(** X9.  Weights that are on the quantizer's grid are kept: with a single
    group, or without [act_order], if the quantizer returns the weight
    itself on the weight left by the dead-channel step, then a successful
    [single_layer_update] returns exactly that weight (every residual
    [(w - q) / d] is zero, nothing is propagated); with no dead column it
    is the weight the layer had before the call. *)
Theorem grid_weights_are_kept :
  forall (self : GPTQ) (h h_inv : Tensor3) (pd : R),
    H self = Some h ->
    invert_groups pd (columns self) (seq 0 (groups self))
                  (p_H (prepare self h)) = Some h_inv ->
    (0 < blocksize self)%nat -> (1 <= groups self)%nat ->
    groups self = 1%nat \/ act_order self = false ->
    quantizer_fixes self (dead_zeroed self h (weight (layer self))) ->
    weights_agree self (updated_weight self pd)
                  (dead_zeroed self h (weight (layer self)))
    /\ ((forall g k, (k < columns self)%nat -> h g k k <> 0) ->
        weights_agree self (updated_weight self pd) (weight (layer self))).
Proof.
  intros self h h_inv pd Hh Hinv Hbs Hg Hc Hgrid.
  destruct (prepare_spec self h) as (Hpl & _ & _ & HW).
  assert (Hmain : weights_agree self (updated_weight self pd)
                    (dead_zeroed self h (weight (layer self)))).
  { unfold updated_weight.
    rewrite (single_layer_update_success self pd Hh Hinv) by lia.
    cbn [fst layer weight set_weight set_layer with_weight].
    set (self' := set_H (set_weight self (p_weight (prepare self h))) None
                        (nsamples self)).
    assert (HG := @grid_blocks_done self' h_inv (prepare self h)
              (group_perm self (h 0%nat))
              (dead_zeroed self h (weight (layer self)))).
    unfold quantizer_fixes, weights_agree, row_ok, ngroups in HG, Hgrid |- *.
    subst self'.
    cbn [groups columns act_order layer quant_weight set_H set_weight
         set_layer with_weight] in HG |- *.
    apply HG.
    - now apply prepare_uniform.
    - rewrite Hpl, length_map, length_seq. reflexivity.
    - exact Hg.
    - apply group_perm_NoDup.
    - apply group_perm_length.
    - intros p Hp. now apply group_perm_bound.
    - intros Hao. now apply group_perm_identity.
    - exact Hgrid.
    - intros r c _ _. apply HW. }
  split; [exact Hmain|].
  intros Hlive r c Hr Hcc. rewrite (Hmain r c Hr Hcc).
  apply dead_zeroed_live_in. intros g. now apply Hlive.
Qed.

Lemma on_grid_fixed :
  quantizer_fixes Fixtures.on_grid
    (dead_zeroed Fixtures.on_grid
       (Fixtures.one_group (Fixtures.mat_of [[1; 0]; [0; 4]]))
       (weight (layer Fixtures.on_grid))).
Proof.
  intros W HW r c Hr Hc.
  change (quant_weight (layer Fixtures.on_grid)) with Fixtures.round_half.
  change (columns Fixtures.on_grid) with 2%nat in Hc.
  specialize (HW r c Hr Hc).
  assert (Hv : dead_zeroed Fixtures.on_grid
                 (Fixtures.one_group (Fixtures.mat_of [[1; 0]; [0; 4]]))
                 (weight (layer Fixtures.on_grid)) r c
               = Fixtures.mat_of [[1; 1 / 2]] r c).
  { unfold dead_zeroed, dead_mask, Fixtures.one_group, Fixtures.mat_of.
    destruct c as [|[|c]]; try lia; simpl; decide_R; auto. }
  rewrite Hv in *. unfold Fixtures.mat_of in *.
  destruct r as [|r], c as [|[|c]]; try lia; simpl in *.
  - rewrite (@round_half_value W 0 0 2%Z); rewrite ?HW; lra.
  - rewrite (@round_half_value W 0 1 1%Z); rewrite ?HW; lra.
  - destruct r; simpl in *;
      rewrite (@round_half_value W _ 0 0%Z); rewrite ?HW; lra.
  - destruct r; simpl in *;
      rewrite (@round_half_value W _ 1 0%Z); rewrite ?HW; lra.
Qed.

Lemma grid_weights_are_kept_witness :
  updated_weight Fixtures.on_grid default_percdamp 0%nat 1%nat
  = weight (layer Fixtures.on_grid) 0%nat 1%nat.
Proof.
  destruct on_grid_inversion as (h_inv & Hinv).
  refine (proj2 (@grid_weights_are_kept
                   Fixtures.on_grid _ h_inv default_percdamp
                   eq_refl Hinv (le_n 1) (le_n 1) (or_introl eq_refl)
                   on_grid_fixed)
                _ 0%nat 1%nat
                (fun Hx => False_ind _ (Bool.diff_false_true Hx))
                (le_n 2)).
  intros g k Hk. change (columns Fixtures.on_grid) with 2%nat in Hk.
  unfold Fixtures.one_group, Fixtures.mat_of.
  destruct k as [|[|k]]; simpl; try lra. lia.
Defined.

(** * Part IV: the calibration session *)

(** ** Dictionaries *)

Lemma dict_set_idem (A : Type) (d : list (string * A)) (k : string) (v : A) :
  dict_set (dict_set d k v) k v = dict_set d k v.
Proof.
  induction d as [|[k0 v0] t IH]; simpl.
  - now rewrite String.eqb_refl.
  - destruct (String.eqb k0 k) eqn:E; simpl; rewrite E; [reflexivity|].
    now rewrite IH.
Qed.

Lemma keys_set_new (A : Type) (d : list (string * A)) (k : string) (v : A) :
  ~ In k (keys d) -> keys (dict_set d k v) = keys d ++ [k].
Proof.
  unfold keys. induction d as [|[k0 v0] t IH]; simpl; intros Hn;
    [reflexivity|].
  destruct (String.eqb k0 k) eqn:E.
  - apply String.eqb_eq in E. tauto.
  - simpl. rewrite IH; tauto.
Qed.

Lemma dict_get_not_key (A : Type) (d : list (string * A)) (k : string) :
  ~ In k (keys d) -> dict_get d k = None.
Proof.
  unfold keys. induction d as [|[k0 v0] t IH]; simpl; intros Hn;
    [reflexivity|].
  destruct (String.eqb k0 k) eqn:E.
  - apply String.eqb_eq in E. tauto.
  - apply IH. tauto.
Qed.

(** ** Filling a dictionary from the modules *)

Lemma register_keys (A : Type) (val : string * ModuleState -> option A)
      (todo : list (string * ModuleState)) :
  forall d,
    NoDup (keys d ++ map fst todo) ->
    keys (fold_left (register val) todo d)
    = keys d ++ map fst (filter (fun e => match val e with Some _ => true | None => false end) todo).
Proof.
  induction todo as [|e rest IH]; intros d Hnd; simpl.
  - now rewrite app_nil_r.
  - simpl in Hnd. unfold register at 2.
    destruct (val e) as [v|].
    + assert (Hn : ~ In (fst e) (keys d)).
      { apply NoDup_remove_2 in Hnd. intros Hin. apply Hnd.
        apply in_or_app. now left. }
      rewrite IH; rewrite (@keys_set_new _ d (fst e) v Hn).
      * simpl. now rewrite <- app_assoc.
      * rewrite <- app_assoc. exact Hnd.
    + apply IH. now apply NoDup_remove_1 in Hnd.
Qed.

Lemma register_get_other (A : Type) (val : string * ModuleState -> option A)
      (todo : list (string * ModuleState)) (k : string) :
  ~ In k (map fst todo) ->
  forall d, dict_get (fold_left (register val) todo d) k = dict_get d k.
Proof.
  induction todo as [|e rest IH]; intros Hn d; simpl; [reflexivity|].
  simpl in Hn. rewrite IH by tauto. unfold register.
  destruct (val e); [|reflexivity].
  apply dict_get_set_other. intros ->. tauto.
Qed.

Lemma register_get (A : Type) (val : string * ModuleState -> option A)
      (todo : list (string * ModuleState)) (e : string * ModuleState) (v : A) :
  NoDup (map fst todo) -> In e todo -> val e = Some v ->
  forall d, dict_get (fold_left (register val) todo d) (fst e) = Some v.
Proof.
  induction todo as [|e0 rest IH]; intros Hnd Hin Hv d; [destruct Hin|].
  simpl in Hnd. inversion Hnd as [|x l Hx Hnd']. subst x l.
  destruct Hin as [->|Hin].
  - simpl. rewrite register_get_other by exact Hx.
    unfold register. rewrite Hv. apply dict_get_set_same.
  - simpl. now apply IH.
Qed.

Lemma register_hook_get (todo : list (string * ModuleState)) (k : string) :
  forall d,
    dict_get (fold_left (register hook_of) todo d) k
    = if existsb (fun e => String.eqb (fst e) k && supported e) todo
      then Some (GptqHook k) else dict_get d k.
Proof.
  induction todo as [|e rest IH]; intros d; simpl; [reflexivity|].
  rewrite IH. unfold register, hook_of.
  destruct (existsb _ rest); [now rewrite orb_true_r|].
  rewrite orb_false_r.
  destruct (supported e); [|now rewrite andb_false_r].
  rewrite andb_true_r.
  destruct (String.eqb (fst e) k) eqn:E.
  - apply String.eqb_eq in E. subst k. apply dict_get_set_same.
  - apply dict_get_set_other. intros ->. now rewrite String.eqb_refl in E.
Qed.

(** ** [gptq_mode.__enter__] *)

Lemma init_returns (l : Layer) (nm : string) (nb : nat) (ao : bool) :
  nb <> 0%nat ->
  Gptq.init l nm nb ao = Returns (Fixtures.gptq l nm nb ao zeros3 0).
Proof.
  intros Hnb. unfold Gptq.init, Fixtures.gptq.
  apply Nat.eqb_neq in Hnb. now rewrite Hnb.
Qed.

Lemma enter_modules_cons (nb : nat) (ao : bool) (nm : string)
      (md : ModuleState) (rest done : list (string * ModuleState))
      (hd : list (string * Hook)) (gl : list (string * GPTQ))
      (w : list string) :
  enter_modules nb ao ((nm, md) :: rest) done hd gl w
  = let w' := w ++ (if has_hooks (nm, md) then [hooks_warning] else []) in
    if supported (nm, md)
    then match Gptq.init (m_layer md) nm nb ao with
         | Raises e => (done ++ (nm, md) :: rest, hd, gl, w', Raises e)
         | Returns gptq =>
             enter_modules nb ao rest (done ++ [hooked (nm, md)])
                           (dict_set hd nm (GptqHook nm))
                           (dict_set gl nm gptq) w'
         end
    else enter_modules nb ao rest (done ++ [hooked (nm, md)]) hd gl w'.
Proof.
  assert (Hw : match _forward_hooks md, _forward_pre_hooks md with
               | [], [] => w
               | _, _ => w ++ [hooks_warning]
               end
               = w ++ (if has_hooks (nm, md) then [hooks_warning] else [])).
  { unfold has_hooks. simpl.
    destruct (_forward_hooks md), (_forward_pre_hooks md);
      now rewrite ?app_nil_r. }
  cbv zeta. rewrite <- Hw. unfold hooked, supported. simpl.
  destruct (_is_module_supported (m_layer md)); reflexivity.
Qed.

Lemma enter_modules_ok (nb : nat) (ao : bool)
      (todo : list (string * ModuleState)) :
  nb <> 0%nat ->
  forall done hd gl w,
    enter_modules nb ao todo done hd gl w
    = (done ++ map hooked todo,
       fold_left (register hook_of) todo hd,
       fold_left (register (gptq_of nb ao)) todo gl,
       w ++ map (fun _ => hooks_warning) (filter has_hooks todo),
       Returns tt).
Proof.
  intros Hnb. induction todo as [|[nm md] rest IH]; intros done hd gl w.
  - simpl. now rewrite !app_nil_r.
  - rewrite enter_modules_cons. cbv zeta.
    cbn [fold_left map filter].
    unfold register at 2 4. unfold hook_of at 2. unfold gptq_of at 2.
    cbn [fst snd].
    rewrite (init_returns _ _ _ Hnb).
    destruct (supported (nm, md)); rewrite IH, <- !app_assoc;
      destruct (has_hooks (nm, md)); reflexivity.
Qed.

Lemma enter_modules_zero (ao : bool) (todo : list (string * ModuleState)) :
  forall done hd gl w,
  exists w',
    enter_modules 0 ao todo done hd gl w
    = (done ++ todo, hd, gl, w',
       if existsb supported todo then Raises ZeroDivisionError
       else Returns tt).
Proof.
  induction todo as [|[nm md] rest IH]; intros done hd gl w.
  - exists w. simpl. now rewrite app_nil_r.
  - rewrite enter_modules_cons. cbv zeta. cbn [existsb].
    destruct (supported (nm, md)) eqn:Hs.
    + eexists. reflexivity.
    + destruct (IH (done ++ [hooked (nm, md)]) hd gl
                   (w ++ (if has_hooks (nm, md) then [hooks_warning] else [])))
        as [w' E].
      exists w'. rewrite E. cbn [orb].
      unfold hooked. rewrite Hs. now rewrite <- app_assoc.
Qed.

Lemma session_eta (s : Session) :
  {| model := set_modules (model s) (named_modules (model s));
     use_quant_activations := use_quant_activations s;
     hook_dict := hook_dict s; gptq_layers := gptq_layers s;
     current_layer := current_layer s; num_layers := num_layers s;
     s_act_order := s_act_order s; s_num_blocks := s_num_blocks s;
     orig_forward := orig_forward s |} = s.
Proof. destruct s as [[] ? ? ? ? ? ? ? ?]. reflexivity. Qed.

(** X10.  [__enter__] fails exactly when the session was built with
    [num_blocks = 0] and the model has a supported module: building the
    GPTQ object of the first such module divides by zero.  In every other
    case it returns normally.  A failed [__enter__] has registered no
    hook and leaves the session as it was. *)
Theorem enter_fails_only_without_blocks :
  forall (s : Session),
    let failing :=
      s_num_blocks s = 0%nat
      /\ existsb supported (named_modules (model s)) = true in
    (snd (enter s) = Raises ZeroDivisionError <-> failing)
    /\ (snd (enter s) = Returns tt <-> ~ failing)
    /\ (failing -> fst (fst (enter s)) = s).
Proof.
  intros s. cbv zeta. unfold enter.
  destruct (Nat.eq_dec (s_num_blocks s) 0) as [Hz|Hnz].
  - destruct (enter_modules_zero (s_act_order s) (named_modules (model s))
                [] (hook_dict s) (gptq_layers s) []) as [w' E].
    rewrite <- Hz in E. rewrite E. cbn [app].
    destruct (existsb supported (named_modules (model s))); cbn [fst snd].
    + split; [tauto|]. split; [|intros _; apply session_eta].
      split; [discriminate|tauto].
    + split; [|split].
      * split; [discriminate|]. intros [_ Hx]. discriminate.
      * split; [|reflexivity]. intros _ [_ Hx]. discriminate.
      * intros [_ Hx]. discriminate.
  - rewrite (enter_modules_ok (s_act_order s) (named_modules (model s)) Hnz).
    cbn [fst snd]. split; [|split].
    + split; [discriminate|tauto].
    + split; [tauto|reflexivity].
    + tauto.
Qed.

Lemma enter_fails_only_without_blocks_witness :
  fst (fst (enter (GptqMode.init Fixtures.one_layer_model true true 0 false)))
  = GptqMode.init Fixtures.one_layer_model true true 0 false.
Proof.
  exact (proj2 (proj2 (enter_fails_only_without_blocks
                         (GptqMode.init Fixtures.one_layer_model true true 0
                                        false)))
               (conj eq_refl eq_refl)).
Defined.

(** X11.  With [num_blocks > 0], [__enter__] returns normally.  It
    leaves the modules in their order, appends the hook of the layer's
    GPTQ object to the forward hooks of every supported module and
    touches no other module and no pre-hook; it warns once for every
    module that had a forward hook or a forward pre-hook; [hook_dict] maps
    the name of every supported module to its hook and keeps its other
    entries; and [num_layers] is the size of [gptq_layers]. *)
Theorem enter_attaches_hooks :
  forall (s : Session),
    (0 < s_num_blocks s)%nat ->
    let out := enter s in
    let s' := fst (fst out) in
    snd out = Returns tt
    /\ named_modules (model s') = map hooked (named_modules (model s))
    /\ snd (fst out)
       = map (fun _ => hooks_warning)
             (filter has_hooks (named_modules (model s)))
    /\ (forall k,
           dict_get (hook_dict s') k
           = if existsb (fun e => String.eqb (fst e) k && supported e)
                        (named_modules (model s))
             then Some (GptqHook k) else dict_get (hook_dict s) k)
    /\ num_layers s' = length (gptq_layers s')
    /\ current_layer s' = current_layer s.
Proof.
  intros s Hnb. cbv zeta. unfold enter.
  rewrite (@enter_modules_ok (s_num_blocks s) (s_act_order s)
             (named_modules (model s))) by lia.
  cbn [fst snd app model named_modules hook_dict num_layers gptq_layers
       current_layer].
  repeat split.
  - now destruct (use_quant_activations s).
  - intros k. apply register_hook_get.
Qed.

Lemma enter_attaches_hooks_witness :
  snd (enter (GptqMode.init Fixtures.one_layer_model true true 4 false))
  = Returns tt.
Proof.
  exact (proj1 (@enter_attaches_hooks
                  (GptqMode.init Fixtures.one_layer_model true true 4 false)
                  (le_S _ _ (le_S _ _ (le_S _ _ (le_n 1)))))).
Defined.

Lemma filter_supported_hook (ms : list (string * ModuleState)) :
  filter (fun e => match hook_of e with Some _ => true | None => false end) ms
  = filter supported ms.
Proof.
  apply filter_ext. intros e. unfold hook_of. now destruct (supported e).
Qed.

Lemma filter_supported_gptq (nb : nat) (ao : bool)
      (ms : list (string * ModuleState)) :
  nb <> 0%nat ->
  filter (fun e => match gptq_of nb ao e with Some _ => true | None => false end)
         ms
  = filter supported ms.
Proof.
  intros Hnb. apply filter_ext. intros e. unfold gptq_of.
  rewrite (init_returns _ _ _ Hnb). now destruct (supported e).
Qed.

(** X12.  After [with gptq_mode(model, num_blocks > 0)], for a model whose
    modules have distinct names: [hook_dict] and [gptq_layers] have one
    entry for each supported module, in the order of [named_modules()],
    and none for another module; [num_layers] is the number of supported
    modules; the entry of a supported module is the object [GPTQ.__init__]
    builds for its layer and name, which has one group or as many groups
    as output channels; and no layer is current yet. *)
Theorem enter_registers_supported :
  forall (m : Model) (inplace uqa : bool) (nb : nat) (ao : bool),
    (0 < nb)%nat -> NoDup (map fst (named_modules m)) ->
    let s' := fst (fst (enter (GptqMode.init m inplace uqa nb ao))) in
    keys (hook_dict s') = map fst (filter supported (named_modules m))
    /\ keys (gptq_layers s') = map fst (filter supported (named_modules m))
    /\ num_layers s' = length (filter supported (named_modules m))
    /\ (forall nm md,
           In (nm, md) (named_modules m) -> supported (nm, md) = true ->
           dict_get (hook_dict s') nm = Some (GptqHook nm)
           /\ exists g,
               dict_get (gptq_layers s') nm = Some g
               /\ Gptq.init (m_layer md) nm nb ao = Returns g
               /\ layer g = m_layer md /\ name g = nm
               /\ (groups g = 1%nat \/ groups g = out_channels (layer g)))
    /\ (forall nm,
           (forall md, In (nm, md) (named_modules m) ->
                       supported (nm, md) = false) ->
           dict_get (hook_dict s') nm = None
           /\ dict_get (gptq_layers s') nm = None)
    /\ layer_name (current_layer s') = None.
Proof.
  intros m inplace uqa nb ao Hnb Hnd. cbv zeta.
  assert (Hnb' : nb <> 0%nat) by lia.
  unfold enter, GptqMode.init.
  cbn [model named_modules set_forward hook_dict gptq_layers s_num_blocks
       s_act_order].
  rewrite (@enter_modules_ok nb ao (named_modules m) Hnb').
  cbn [fst snd app model named_modules hook_dict num_layers gptq_layers
       current_layer layer_name].
  assert (Hkh : keys (fold_left (register hook_of) (named_modules m) [])
                = map fst (filter supported (named_modules m))).
  { rewrite register_keys by exact Hnd. now rewrite filter_supported_hook. }
  assert (Hkg : keys (fold_left (register (gptq_of nb ao)) (named_modules m) [])
                = map fst (filter supported (named_modules m))).
  { rewrite register_keys by exact Hnd.
    now rewrite filter_supported_gptq. }
  split; [exact Hkh|]. split; [exact Hkg|]. split; [|split; [|split]].
  - rewrite <- (length_map fst (filter supported (named_modules m))), <- Hkg.
    unfold keys. now rewrite length_map.
  - intros nm md Hin Hs. split.
    + apply (@register_get _ hook_of (named_modules m) (nm, md)
               (GptqHook nm) Hnd Hin).
      unfold hook_of. now rewrite Hs.
    + exists (Fixtures.gptq (m_layer md) nm nb ao zeros3 0).
      split; [|split; [|split; [|split]]].
      * apply (@register_get _ (gptq_of nb ao) (named_modules m) (nm, md)
                 _ Hnd Hin).
        unfold gptq_of. rewrite Hs. cbn [fst snd].
        now rewrite (init_returns _ _ _ Hnb').
      * now apply init_returns.
      * reflexivity.
      * reflexivity.
      * unfold supported, _is_module_supported in Hs. cbn [snd] in Hs.
        unfold Fixtures.gptq. cbn [groups layer].
        destruct (kind (m_layer md)); [now left| |discriminate].
        apply orb_true_iff in Hs as [Hs|Hs]; apply Nat.eqb_eq in Hs; auto.
  - intros nm Hun.
    assert (Hn : ~ In nm (map fst (filter supported (named_modules m)))).
    { intros Hin. apply in_map_iff in Hin as ([nm' md] & <- & Hin).
      apply filter_In in Hin as [Hin Hs]. cbn [fst] in Hun.
      rewrite (Hun md Hin) in Hs. discriminate. }
    split; apply dict_get_not_key; [now rewrite Hkh|now rewrite Hkg].
  - reflexivity.
Qed.

Lemma enter_registers_supported_witness :
  num_layers
    (fst (fst (enter (GptqMode.init Fixtures.one_layer_model true true 4
                                    false))))
  = 1%nat.
Proof.
  refine (proj1 (proj2 (proj2 (@enter_registers_supported
                                 Fixtures.one_layer_model true true 4 false
                                 (le_S _ _ (le_S _ _ (le_S _ _ (le_n 1))))
                                 _)))).
  constructor; [intros []|constructor].
Defined.

(** ** [gptq_mode.update] *)

Lemma store_layer_idem (ms : list (string * ModuleState)) (nm : string)
      (l : Layer) :
  store_layer (store_layer ms nm l) nm l = store_layer ms nm l.
Proof.
  induction ms as [|[k md] t IH]; simpl; [reflexivity|].
  destruct (String.eqb k nm) eqn:E; simpl; rewrite E; [reflexivity|].
  now rewrite IH.
Qed.

Lemma store_layer_remove_hook (ms : list (string * ModuleState)) (nm : string)
      (l : Layer) (h : Hook) :
  store_layer (remove_hook ms nm h) nm l = remove_hook (store_layer ms nm l) nm h.
Proof.
  induction ms as [|[k md] t IH]; simpl; [reflexivity|].
  destruct (String.eqb k nm) eqn:E; simpl; rewrite E; [reflexivity|].
  now rewrite IH.
Qed.

Lemma enter_keeps_current_layer (s : Session) :
  current_layer (fst (fst (enter s))) = current_layer s.
Proof.
  unfold enter.
  destruct (enter_modules _ _ _ _ _ _ _) as [[[[ms hd] gl] warns] r].
  now destruct r.
Qed.

Lemma single_layer_update_gone (g : GPTQ) (pd : R) :
  H (fst (fst (single_layer_update g pd))) = None.
Proof.
  destruct (single_layer_update_forms g pd)
    as [[Hn E]|(h & W & ws & r & Hh & E)]; rewrite E; [exact Hn|reflexivity].
Qed.

Lemma update_without_accumulator (s : Session) (nm : string) (g : GPTQ) :
  layer_name (current_layer s) = Some nm ->
  dict_get (gptq_layers s) nm = Some g ->
  H g = None ->
  store_layer (named_modules (model s)) nm (layer g) = named_modules (model s) ->
  dict_set (gptq_layers s) nm g = gptq_layers s ->
  update s = (s, [], Raises AttributeError).
Proof.
  intros Hcl Hg Hgone Hms Hgl. unfold update. rewrite Hcl, Hg.
  unfold single_layer_update. rewrite Hgone, Hms, Hgl.
  now rewrite session_eta.
Qed.

Lemma update_leaves_no_accumulator (s : Session) (nm : string) (g : GPTQ) :
  layer_name (current_layer s) = Some nm ->
  dict_get (gptq_layers s) nm = Some g ->
  let s' := fst (fst (update s)) in
  let g' := fst (fst (single_layer_update g default_percdamp)) in
  layer_name (current_layer s') = Some nm
  /\ dict_get (gptq_layers s') nm = Some g'
  /\ store_layer (named_modules (model s')) nm (layer g')
     = named_modules (model s')
  /\ dict_set (gptq_layers s') nm g' = gptq_layers s'.
Proof.
  intros Hcl Hg. cbv zeta. unfold update. rewrite Hcl, Hg.
  destruct (single_layer_update g default_percdamp) as [[g' ws] r].
  destruct r as [u|e];
    [destruct (dict_get (hook_dict s) nm) as [hk|]|];
    cbn [fst current_layer gptq_layers set_model model set_modules
         named_modules];
    rewrite ?store_layer_remove_hook, store_layer_idem, dict_set_idem,
      dict_get_set_same; auto.
Qed.

(** X13.  [update] out of order.  Called before any forward pass has
    reached a hook, it raises [KeyError] (no layer is current) and changes
    nothing.  Called a second time for the same layer, before another
    forward pass, it raises [AttributeError] (the accumulator of the layer
    is gone), emits no warning and changes nothing. *)
Theorem update_out_of_order :
  (forall (m : Model) (inplace uqa : bool) (nb : nat) (ao : bool),
      let s := fst (fst (enter (GptqMode.init m inplace uqa nb ao))) in
      update s = (s, [], Raises KeyError))
  /\ (forall (s : Session) (nm : string) (g : GPTQ),
         layer_name (current_layer s) = Some nm ->
         dict_get (gptq_layers s) nm = Some g ->
         let s' := fst (fst (update s)) in
         update s' = (s', [], Raises AttributeError)).
Proof.
  split.
  - intros m inplace uqa nb ao. cbv zeta. unfold update.
    now rewrite enter_keeps_current_layer.
  - intros s nm g Hcl Hg. cbv zeta.
    destruct (update_leaves_no_accumulator s Hcl Hg) as (Hcl' & Hg' & Hms & Hgl).
    exact (update_without_accumulator _ Hcl' Hg'
             (single_layer_update_gone g default_percdamp) Hms Hgl).
Qed.

Lemma update_out_of_order_witness :
  snd (update (fst (fst (update Fixtures.calibrating))))
  = Raises AttributeError.
Proof.
  pose proof (proj2 update_out_of_order Fixtures.calibrating "fc"%string
                    (Fixtures.gptq
                       (Fixtures.linear 1 1 (Fixtures.const_mat 1)
                                        Fixtures.round_half)
                       "fc" 4 false (Fixtures.one_group (Fixtures.const_mat 2))
                       1)
                    eq_refl eq_refl) as Hu.
  cbv zeta in Hu. now rewrite Hu.
Defined.

Lemma single_layer_update_returns (g : GPTQ) (h : Tensor3) (pd : R) :
  H g = Some h -> blocksize g <> 0%nat ->
  snd (single_layer_update g pd) = Returns tt.
Proof.
  intros Hh Hbs. unfold single_layer_update. rewrite Hh.
  cbn [columns groups nsamples set_weight set_layer blocksize set_H].
  destruct (invert_groups pd (columns g) (seq 0 (groups g))
                          (p_H (prepare g h))); [|reflexivity].
  apply Nat.eqb_neq in Hbs. now rewrite Hbs.
Qed.

(** X14.  [update] for a layer with a live accumulator and a non-zero
    [blocksize], whose GPTQ hook is the last forward hook of its module:
    the call returns normally; the module of the layer has the weight
    [single_layer_update] leaves and exactly the forward hooks it had
    before the GPTQ hook was registered; no other module changes and the
    module names stay as they are; the GPTQ object of the layer is stored
    without accumulator and no other GPTQ object changes; [hook_dict]
    (which keeps the removed handle), [num_layers] and the current layer
    are as before. *)
Theorem update_detaches_layer :
  forall (s : Session) (nm : string) (g : GPTQ) (h : Tensor3)
         (md : ModuleState) (hs : list Hook),
    layer_name (current_layer s) = Some nm ->
    dict_get (gptq_layers s) nm = Some g ->
    dict_get (hook_dict s) nm = Some (GptqHook nm) ->
    dict_get (named_modules (model s)) nm = Some md ->
    _forward_hooks md = hs ++ [GptqHook nm] -> ~ In (GptqHook nm) hs ->
    H g = Some h -> blocksize g <> 0%nat ->
    let g' := fst (fst (single_layer_update g default_percdamp)) in
    let s' := fst (fst (update s)) in
    snd (update s) = Returns tt
    /\ dict_get (named_modules (model s')) nm
       = Some (detached md (layer g') hs)
    /\ (forall k, k <> nm ->
                  dict_get (named_modules (model s')) k
                  = dict_get (named_modules (model s)) k)
    /\ map fst (named_modules (model s')) = map fst (named_modules (model s))
    /\ dict_get (gptq_layers s') nm = Some g' /\ H g' = None
    /\ (forall k, k <> nm ->
                  dict_get (gptq_layers s') k = dict_get (gptq_layers s) k)
    /\ hook_dict s' = hook_dict s /\ num_layers s' = num_layers s
    /\ current_layer s' = current_layer s.
Proof.
  intros s nm g h md hs Hcl Hg Hhk Hmd Hhooks Hnin Hh Hbs. cbv zeta.
  destruct (@update_detaches s nm g md hs Hcl Hg Hhk Hmd Hhooks Hnin
              (@single_layer_update_returns g h default_percdamp Hh Hbs))
    as (Hret & _ & Hmod & Hother & Hnames & Hgl & Hglo & Hhd & Hnl & Hcur).
  split; [exact Hret|]. split; [exact Hmod|]. split; [exact Hother|].
  split; [exact Hnames|]. split; [exact Hgl|].
  split; [apply single_layer_update_gone|].
  split; [exact Hglo|]. auto.
Qed.

Lemma update_detaches_layer_witness :
  map (fun e => _forward_hooks (snd e))
      (named_modules (model (fst (fst (update Fixtures.calibrating)))))
  = [[]].
Proof.
  pose proof (@update_detaches_layer Fixtures.calibrating "fc"%string _
                (Fixtures.one_group (Fixtures.const_mat 2)) _ []
                eq_refl eq_refl eq_refl eq_refl eq_refl (fun x => x) eq_refl
                (fun E => Nat.neq_succ_0 0 E))
    as (_ & Hmd & _ & Hnames & _).
  destruct (named_modules (model (fst (fst (update Fixtures.calibrating)))))
    as [|[k md] [|e t]]; try discriminate.
  simpl in Hnames. injection Hnames as ->.
  simpl in Hmd. injection Hmd as ->. reflexivity.
Defined.
